(** * Dashboard builder: the tool API, path addressing and the data fetcher

    A shallow embedding of the client-side core of the dashboard builder:

    - [DashboardBuilderTools] (path addressing [navigateToPath] /
      [setValueAtPath] and the tool catalogue built by
      [createDashboardTools]);
    - [DataFetcher] ([fetchData], its sources, transforms and cache);
    - [DashboardBuilder] (the grid areas and the cells of the view).

    Conventions of the embedding.

    - JavaScript values are JSON-like trees ([JSValue]); numbers are
      integers ([Z]).  Inside [setValueAtPath], where the source clones an
      object and then assigns into the clone, objects live in a store of
      mutable cells ([Heap]) so that aliasing is visible.
    - Exceptions are explicit: a function that may throw returns a
      [Result].
    - [Date.now()], [new Date().toISOString()], the network, the template
      engine and the query engine are inputs of the functions that use them.
    - Members inherited from the built-in prototypes ([toString],
      [constructor], ...) are not part of the model: looking one up yields
      [undefined].  Array cells hold their indexed elements only. *)

From Stdlib Require Import ZArith Ascii String List Bool Lia.
From stdpp Require Import base option list gmap strings pretty.

Set Warnings "-register-all".
Local Open Scope Z_scope.

(** ** JavaScript values and exceptions *)

Inductive JSValue : Type :=
| JUndefined
| JNull
| JBool (b : bool)
| JNum (n : Z)
| JStr (s : string)
| JArr (elems : list JSValue)
| JObj (props : list (string * JSValue)).

(** A thrown value: an [Error] instance with its [name] and [message], or
    any other value, of which only its string conversion is kept. *)
Inductive Thrown : Type :=
| ErrorObj (name message : string)
| NonError (text : string).

Inductive Result (A : Type) : Type :=
| Ok (a : A)
| Throw (e : Thrown).
Arguments Ok {A} a.
Arguments Throw {A} e.

Definition bindR {A B} (r : Result A) (k : A → Result B) : Result B :=
  match r with
  | Ok a => k a
  | Throw e => Throw e
  end.

Notation "'let+' x ':=' r 'in' k" := (bindR r (fun x => k))
  (at level 10, x name, r at level 100, k at level 200).

(** [error instanceof Error ? error.message : fallback] *)
Definition message_or (e : Thrown) (fallback : string) : string :=
  match e with
  | ErrorObj _ m => m
  | NonError _ => fallback
  end.

(** String conversion of a thrown value, as in a template literal
    [`${error}`]: [Error.prototype.toString] gives [name: message]. *)
Definition thrown_to_string (e : Thrown) : string :=
  match e with
  | ErrorObj n m =>
      if String.eqb m "" then n
      else if String.eqb n "" then m
      else n +:+ ": " +:+ m
  | NonError t => t
  end.

(** ** Strings *)

Module Str.

Fixpoint split_on (sep : ascii → bool) (s : string) : list string :=
  match s with
  | EmptyString => [EmptyString]
  | String c s' =>
      if sep c then EmptyString :: split_on sep s'
      else match split_on sep s' with
           | [] => [String c EmptyString]
           | w :: ws => String c w :: ws
           end
  end.

Definition nonempty (s : string) : bool := negb (String.eqb s "").

Definition startsWith (p s : string) : bool := String.prefix p s.

(** [s.slice(n)] for [0 <= n]. *)
Fixpoint slice_from (n : nat) (s : string) : string :=
  match n, s with
  | O, _ => s
  | S n', String _ s' => slice_from n' s'
  | S _, EmptyString => EmptyString
  end.

Fixpoint join (sep : string) (l : list string) : string :=
  match l with
  | [] => ""
  | [x] => x
  | x :: rest => x +:+ sep +:+ join sep rest
  end.

Fixpoint drop_while (p : ascii → bool) (s : string) : string :=
  match s with
  | EmptyString => EmptyString
  | String c s' => if p c then drop_while p s' else s
  end.

Fixpoint rev_acc (s acc : string) : string :=
  match s with
  | EmptyString => acc
  | String c s' => rev_acc s' (String c acc)
  end.
Definition rev (s : string) : string := rev_acc s "".

(** [s.trim()], on the ASCII white space characters. *)
Definition trim (s : string) : string :=
  rev (drop_while Ascii.is_space (rev (drop_while Ascii.is_space s))).

(** Tokens of [s.split(/\s+/)] that are not empty. *)
Definition words (s : string) : list string :=
  filter (fun w => nonempty w = true) (split_on Ascii.is_space s).

End Str.

(** ** Numbers in strings *)

Definition digit_value (c : ascii) : option Z :=
  let n := Z.of_nat (nat_of_ascii c) in
  if (48 <=? n) && (n <=? 57) then Some (n - 48)
  else if (97 <=? n) && (n <=? 122) then Some (n - 97 + 10)
  else if (65 <=? n) && (n <=? 90) then Some (n - 65 + 10)
  else None.

(** The longest prefix of digits of the radix, as a number; [None] when
    there is no digit. *)
Fixpoint parse_digits (radix : Z) (s : string) (acc : option Z) : option Z :=
  match s with
  | EmptyString => acc
  | String c s' =>
      match digit_value c with
      | Some d =>
          if d <? radix
          then parse_digits radix s' (Some (default 0 acc * radix + d))
          else acc
      | None => acc
      end
  end.

(** [parseInt(s)]: leading white space, a sign, an optional [0x] prefix,
    then the longest prefix of digits; [None] is [NaN]. *)
Definition parseInt (s : string) : option Z :=
  let s1 := Str.drop_while Ascii.is_space s in
  let '(neg, s2) :=
    match s1 with
    | String "-"%char r => (true, r)
    | String "+"%char r => (false, r)
    | _ => (false, s1)
    end in
  let '(radix, s3) :=
    match s2 with
    | String "0"%char (String "x"%char r) => (16, r)
    | String "0"%char (String "X"%char r) => (16, r)
    | _ => (10, s2)
    end in
  match parse_digits radix s3 None with
  | Some n => Some (if neg : bool then - n else n)
  | None => None
  end.

(** A canonical array index: decimal digits without a leading zero. *)
Definition canonical_index (s : string) : option nat :=
  match s with
  | EmptyString => None
  | String "0"%char EmptyString => Some O
  | String "0"%char _ => None
  | _ =>
      if forallb (fun c => match Ascii.is_nat c with Some _ => true | None => false end)
                 (list_ascii_of_string s)
      then option_map Z.to_nat (parse_digits 10 s None)
      else None
  end.

(** ** Association lists: JavaScript objects keep insertion order *)

Section Assoc.
Context {A : Type}.

Fixpoint assoc_get (k : string) (l : list (string * A)) : option A :=
  match l with
  | [] => None
  | (k', v) :: rest => if String.eqb k' k then Some v else assoc_get k rest
  end.

(** [obj[k] = v]: an existing key keeps its place, a new one goes last. *)
Fixpoint assoc_set (k : string) (v : A) (l : list (string * A)) : list (string * A) :=
  match l with
  | [] => [(k, v)]
  | (k', v') :: rest =>
      if String.eqb k' k then (k, v) :: rest else (k', v') :: assoc_set k v rest
  end.

(** [delete obj[k]] *)
Fixpoint assoc_del (k : string) (l : list (string * A)) : list (string * A) :=
  match l with
  | [] => []
  | (k', v') :: rest =>
      if String.eqb k' k then assoc_del k rest else (k', v') :: assoc_del k rest
  end.

Definition assoc_has (k : string) (l : list (string * A)) : bool :=
  match assoc_get k l with Some _ => true | None => false end.

(** [{...a, ...b}] *)
Definition assoc_merge (a b : list (string * A)) : list (string * A) :=
  fold_left (fun acc kv => assoc_set kv.1 kv.2 acc) b a.
End Assoc.

(** [xs[i] = v] on the elements of an array: a write past the end extends
    the array, and the gap reads as [hole]. *)
Definition array_set {A : Type} (hole : A) (xs : list A) (i : nat) (v : A) : list A :=
  if (i <? length xs)%nat then <[i := v]> xs
  else xs ++ replicate (i - length xs) hole ++ [v].

(** ** Path addressing over a store of mutable cells *)

Module Heap.

Abbreviation loc := nat.

Inductive val : Type :=
| VUndefined
| VNull
| VBool (b : bool)
| VNum (n : Z)
| VStr (s : string)
| VRef (l : loc).

Inductive cell : Type :=
| CArr (elems : list val)
| CObj (props : list (string * val)).

Abbreviation store := (list cell).

(** [key: string | number] *)
Inductive Key : Type :=
| KStr (s : string)
| KNum (n : Z).

(** The record returned by [navigateToPath]; an absent [value] is
    [undefined], a [null] parent is [VNull]. *)
Record NavResult : Type := mkNav {
  parent : val;
  key : Key;
  exists_ : bool;
  value : val;
}.

(** [v == null] *)
Definition nullish (v : val) : bool :=
  match v with
  | VUndefined | VNull => true
  | _ => false
  end.

Definition isArray (s : store) (v : val) : bool :=
  match v with
  | VRef l => match s !! l with Some (CArr _) => true | _ => false end
  | _ => false
  end.

(** [current.length] of an array *)
Definition array_length (s : store) (v : val) : Z :=
  match v with
  | VRef l => match s !! l with Some (CArr xs) => Z.of_nat (length xs) | _ => 0 end
  | _ => 0
  end.

(** [current[arrayIndex]] on an array *)
Definition get_index (s : store) (v : val) (n : Z) : val :=
  match v with
  | VRef l =>
      match s !! l with
      | Some (CArr xs) =>
          if 0 <=? n then default VUndefined (xs !! Z.to_nat n) else VUndefined
      | _ => VUndefined
      end
  | _ => VUndefined
  end.

(** [current?.[k]] for a string key *)
Definition get_prop (s : store) (v : val) (k : string) : val :=
  match v with
  | VUndefined | VNull | VBool _ | VNum _ => VUndefined
  | VStr str =>
      match canonical_index k with
      | Some i =>
          if (i <? String.length str)%nat then VStr (String.substring i 1 str)
          else VUndefined
      | None =>
          if String.eqb k "length" then VNum (Z.of_nat (String.length str))
          else VUndefined
      end
  | VRef l =>
      match s !! l with
      | Some (CObj ps) => default VUndefined (assoc_get k ps)
      | Some (CArr xs) =>
          match canonical_index k with
          | Some i => default VUndefined (xs !! i)
          | None =>
              if String.eqb k "length" then VNum (Z.of_nat (length xs))
              else VUndefined
          end
      | None => VUndefined
      end
  end.

Definition prim_to_string (v : val) : string :=
  match v with
  | VUndefined => "undefined"
  | VNull => "null"
  | VBool true => "true"
  | VBool false => "false"
  | VNum n => pretty n
  | VStr s => s
  | VRef _ => "[object Object]"
  end.

Definition in_TypeError (k : string) (v : val) : Thrown :=
  ErrorObj "TypeError"
    ("Cannot use 'in' operator to search for '" +:+ k +:+ "' in " +:+ prim_to_string v).

(** [k in current], for [current != null]: a [TypeError] unless
    [current] is an object. *)
Definition has_prop (s : store) (v : val) (k : string) : Result bool :=
  match v with
  | VRef l =>
      match s !! l with
      | Some (CObj ps) => Ok (assoc_has k ps)
      | Some (CArr xs) =>
          match canonical_index k with
          | Some i => Ok (i <? length xs)%nat
          | None => Ok (String.eqb k "length")
          end
      | None => Ok false
      end
  | _ => Throw (in_TypeError k v)
  end.

(** The body of the [for] loop of [navigateToPath], from the iteration
    that handles the first segment of [parts]; [current] is the value
    reached so far. *)
Fixpoint nav_loop (s : store) (parts : list string) (current : val)
  : Result NavResult :=
  match parts with
  | [] => Ok (mkNav VNull (KStr "") false VUndefined)
  | part :: rest =>
      let parent := current in
      match parseInt part, isArray s current with
      | Some arrayIndex, true =>
          match rest with
          | [] =>
              Ok (mkNav parent (KNum arrayIndex)
                    ((0 <=? arrayIndex) && (arrayIndex <? array_length s current))
                    (get_index s current arrayIndex))
          | _ :: _ =>
              let current' := get_index s current arrayIndex in
              if nullish current'
              then Ok (mkNav parent (KNum arrayIndex) false VUndefined)
              else nav_loop s rest current'
          end
      | _, _ =>
          match rest with
          | [] =>
              let+ ex := (if nullish current then Ok false
                          else has_prop s current part) in
              Ok (mkNav parent (KStr part) ex (get_prop s current part))
          | _ :: _ =>
              let current' := get_prop s current part in
              if nullish current'
              then Ok (mkNav parent (KStr part) false VUndefined)
              else nav_loop s rest current'
          end
      end
  end.

Definition is_sep (c : ascii) : bool :=
  match c with
  | "."%char | "["%char | "]"%char => true
  | _ => false
  end.

(** [!path || path === '$' || path === ''] *)
Definition is_root_path (path : string) : bool :=
  String.eqb path "" || String.eqb path "$".

Definition cleanPath (path : string) : string :=
  if Str.startsWith "$." path then Str.slice_from 2 path
  else if Str.startsWith "$" path then Str.slice_from 1 path
  else path.

(** [cleanPath.split(/\.|\[|\]/).filter(p => p !== '')] *)
Definition path_parts (path : string) : list string :=
  filter (fun p => Str.nonempty p = true) (Str.split_on is_sep (cleanPath path)).

Definition whole (obj : val) : NavResult := mkNav VNull (KStr "") true obj.

Definition navigateToPath (s : store) (obj : val) (path : string)
  : Result NavResult :=
  if is_root_path path then Ok (whole obj)
  else if String.eqb (cleanPath path) "" then Ok (whole obj)
  else nav_loop s (path_parts path) obj.

(** *** [JSON.parse(JSON.stringify(obj))] *)

(** The tree a value denotes.  [fuel] bounds the nesting of references:
    a cyclic structure has no tree. *)
Fixpoint reify (fuel : nat) (s : store) (v : val) : option JSValue :=
  match v with
  | VUndefined => Some JUndefined
  | VNull => Some JNull
  | VBool b => Some (JBool b)
  | VNum n => Some (JNum n)
  | VStr str => Some (JStr str)
  | VRef l =>
      match fuel with
      | O => None
      | S fuel' =>
          match s !! l with
          | Some (CArr xs) => JArr <$> mapM (reify fuel' s) xs
          | Some (CObj ps) =>
              JObj <$> mapM (fun kv => pair kv.1 <$> reify fuel' s kv.2) ps
          | None => None
          end
      end
  end.

(** What serialisation keeps of a tree below the top level: [undefined]
    becomes [null] in an array and drops its property in an object. *)
Fixpoint json_norm (t : JSValue) : JSValue :=
  match t with
  | JArr xs =>
      JArr (map (fun x => match x with
                          | JUndefined => JNull
                          | _ => json_norm x
                          end) xs)
  | JObj ps =>
      JObj (omap (fun '(k, x) => match x with
                                 | JUndefined => None
                                 | _ => Some (k, json_norm x)
                                 end) ps)
  | _ => t
  end.

(** Fresh cells for a tree, children first. *)
Fixpoint alloc (t : JSValue) (s : store) : val * store :=
  match t with
  | JUndefined => (VUndefined, s)
  | JNull => (VNull, s)
  | JBool b => (VBool b, s)
  | JNum n => (VNum n, s)
  | JStr str => (VStr str, s)
  | JArr xs =>
      let '(vs, s') :=
        (fix go (xs : list JSValue) (s : store) : list val * store :=
           match xs with
           | [] => ([], s)
           | x :: xs' =>
               let '(v, s1) := alloc x s in
               let '(vs, s2) := go xs' s1 in
               (v :: vs, s2)
           end) xs s in
      (VRef (length s'), s' ++ [CArr vs])
  | JObj ps =>
      let '(vs, s') :=
        (fix go (ps : list (string * JSValue)) (s : store)
           : list (string * val) * store :=
           match ps with
           | [] => ([], s)
           | (k, x) :: ps' =>
               let '(v, s1) := alloc x s in
               let '(vs, s2) := go ps' s1 in
               ((k, v) :: vs, s2)
           end) ps s in
      (VRef (length s'), s' ++ [CObj vs])
  end.

Definition circular_TypeError : Thrown :=
  ErrorObj "TypeError" "Converting circular structure to JSON".
Definition undefined_SyntaxError : Thrown :=
  ErrorObj "SyntaxError"
    (String "034"%char ("undefined" +:+ String "034"%char " is not valid JSON")).

Definition json_clone (s : store) (obj : val) : Result val * store :=
  match obj with
  | VUndefined => (Throw undefined_SyntaxError, s)
  | _ =>
      match reify (length s) s obj with
      | None => (Throw circular_TypeError, s)
      | Some t => let '(v, s') := alloc (json_norm t) s in (Ok v, s')
      end
  end.

(** *** Assignment [parent[key] = value] *)

Definition key_to_string (k : Key) : string :=
  match k with
  | KStr str => str
  | KNum n => pretty n
  end.

Definition max_array_index : Z := 4294967295.

(** The two assigning branches of [setValueAtPath]; a parent that is
    not an object is left alone.  On an array, a key that is not an
    index does not change the elements. *)
Definition assign (s : store) (p : val) (k : Key) (v : val) : store :=
  match p with
  | VRef l =>
      match s !! l with
      | Some (CArr xs) =>
          let idx :=
            match k with
            | KNum n =>
                if (0 <=? n) && (n <? max_array_index) then Some (Z.to_nat n)
                else None
            | KStr str => canonical_index str
            end in
          match idx with
          | Some i => <[l := CArr (array_set VUndefined xs i v)]> s
          | None => s
          end
      | Some (CObj ps) => <[l := CObj (assoc_set (key_to_string k) v ps)]> s
      | None => s
      end
  | _ => s
  end.

Definition setValueAtPath (s : store) (obj : val) (path : string) (value : val)
  : Result val * store :=
  if is_root_path path then (Ok value, s)
  else
    match json_clone s obj with
    | (Throw e, s1) => (Throw e, s1)
    | (Ok result, s1) =>
        match navigateToPath s1 result path with
        | Throw e => (Throw e, s1)
        | Ok nav =>
            match parent nav with
            | VNull => (Ok value, s1)
            | p => (Ok result, assign s1 p (key nav) value)
            end
        end
    end.

End Heap.

(** ** Operations on values as trees *)

Module JS.

(** [v == null] *)
Definition nullish (v : JSValue) : bool :=
  match v with
  | JUndefined | JNull => true
  | _ => false
  end.

(** Truthiness, as in [if (v)], [!v] and [v || w]. *)
Definition truthy (v : JSValue) : bool :=
  match v with
  | JUndefined | JNull => false
  | JBool b => b
  | JNum n => negb (n =? 0)
  | JStr s => Str.nonempty s
  | JArr _ | JObj _ => true
  end.

(** [a || b] *)
Definition or_else (a b : JSValue) : JSValue := if truthy a then a else b.

Definition isArray (v : JSValue) : bool :=
  match v with
  | JArr _ => true
  | _ => false
  end.

(** [v?.[k]]: [undefined] on [null] and [undefined]. *)
Definition get (v : JSValue) (k : string) : JSValue :=
  match v with
  | JUndefined | JNull | JBool _ | JNum _ => JUndefined
  | JStr str =>
      match canonical_index k with
      | Some i =>
          if (i <? String.length str)%nat then JStr (String.substring i 1 str)
          else JUndefined
      | None =>
          if String.eqb k "length" then JNum (Z.of_nat (String.length str))
          else JUndefined
      end
  | JObj ps => default JUndefined (assoc_get k ps)
  | JArr xs =>
      match canonical_index k with
      | Some i => default JUndefined (xs !! i)
      | None =>
          if String.eqb k "length" then JNum (Z.of_nat (length xs))
          else JUndefined
      end
  end.

Fixpoint to_string (v : JSValue) : string :=
  match v with
  | JUndefined => "undefined"
  | JNull => "null"
  | JBool true => "true"
  | JBool false => "false"
  | JNum n => pretty n
  | JStr s => s
  | JArr xs =>
      Str.join "," (map (fun x => match x with
                                  | JUndefined | JNull => ""
                                  | _ => to_string x
                                  end) xs)
  | JObj _ => "[object Object]"
  end.

Definition read_TypeError (v : JSValue) (k : string) : Thrown :=
  ErrorObj "TypeError"
    ("Cannot read properties of " +:+ to_string v +:+ " (reading '" +:+ k +:+ "')").

(** [v.k]: a [TypeError] on [null] and [undefined]. *)
Definition prop (v : JSValue) (k : string) : Result JSValue :=
  if nullish v then Throw (read_TypeError v k) else Ok (get v k).

(** [v === s] for a string [s] *)
Definition is_string (v : JSValue) (s : string) : bool :=
  match v with
  | JStr s' => String.eqb s' s
  | _ => false
  end.

(** [list.includes(v)] for a list of strings *)
Definition included (l : list string) (v : JSValue) : bool :=
  match v with
  | JStr s => existsb (String.eqb s) l
  | _ => false
  end.

(** The own enumerable properties copied by a spread [{...v}]. *)
Definition spread (v : JSValue) : list (string * JSValue) :=
  match v with
  | JObj ps => ps
  | JArr xs => imap (fun i x => (pretty i, x)) xs
  | JStr s =>
      imap (fun i c => (pretty i, JStr (String c EmptyString))) (list_ascii_of_string s)
  | _ => []
  end.

Definition all_digits (radix : Z) (s : string) : bool :=
  Str.nonempty s &&
  forallb (fun c => match digit_value c with
                    | Some d => d <? radix
                    | None => false
                    end) (list_ascii_of_string s).

(** The number a string converts to, for integer literals; [None] is
    [NaN]. *)
Definition string_to_number (s : string) : option Z :=
  let t := Str.trim s in
  let decimal (r : string) : option Z :=
    if all_digits 10 r then parse_digits 10 r None else None in
  match t with
  | EmptyString => Some 0
  | String "0"%char (String "x"%char r) | String "0"%char (String "X"%char r) =>
      if all_digits 16 r then parse_digits 16 r None else None
  | String "-"%char r => Z.opp <$> decimal r
  | String "+"%char r => decimal r
  | _ => decimal t
  end.

(** [ToNumber], as applied by a comparison [n > v]. *)
Definition to_number (v : JSValue) : option Z :=
  match v with
  | JUndefined => None
  | JNull => Some 0
  | JBool b => Some (if b then 1 else 0)
  | JNum n => Some n
  | JStr s => string_to_number s
  | JArr _ | JObj _ => string_to_number (to_string v)
  end.

(** [n > v] for a number [n] *)
Definition gt (n : Z) (v : JSValue) : bool :=
  match to_number v with
  | Some m => m <? n
  | None => false
  end.

Definition is_null (v : JSValue) : bool :=
  match v with
  | JNull => true
  | _ => false
  end.

Definition of_option_string (o : option string) : JSValue :=
  match o with
  | Some s => JStr s
  | None => JUndefined
  end.

End JS.

(** ** [setValueAtPath] on trees

    The source clones [obj], navigates the clone and assigns into it.
    The clone and the assignment are run in a store of their own and the
    result is read back as a tree. *)

Definition setValueAtPath (obj : JSValue) (path : string) (value : JSValue)
  : Result JSValue :=
  let '(o, s0) := Heap.alloc obj [] in
  let '(v, s1) := Heap.alloc value s0 in
  match Heap.setValueAtPath s1 o path v with
  | (Ok r, s2) =>
      match Heap.reify (length s2) s2 r with
      | Some t => Ok t
      | None => Throw Heap.circular_TypeError
      end
  | (Throw e, _) => Throw e
  end.

(** ** The data fetcher *)

Module Fetcher.

(** What a call of [fetch] can do: reject, or resolve to a response
    with its [ok] flag, its [statusText] and the outcome of
    [response.json()]. *)
Inductive NetOutcome : Type :=
| NetFail (e : Thrown)
| NetResponse (ok : bool) (statusText : string) (json : Result JSValue).

(** The collaborators of the fetcher.  [net n url body] is the outcome
    of the [n]-th request; [hb_render template context] compiles and
    renders a Handlebars template; [alasql query params] runs a query. *)
Record Env : Type := mkEnv {
  fetch_available : bool;
  net : nat → JSValue → JSValue → NetOutcome;
  hb_render : JSValue → JSValue → Result string;
  json_parse : string → option JSValue;
  alasql : JSValue → JSValue → Result JSValue;
}.

(** The constructor argument of [DataFetcher]. *)
Record Config : Type := mkConfig {
  mcpPostgresEndpoint : option string;
  graphqlEndpoint : option string;
}.

Record CacheEntry : Type := mkEntry {
  data : JSValue;
  timestamp : Z;
}.

(** The private [cache] map, together with two ghost logs: the requests
    sent with [fetch] and the sources handed to [fetchFromSource]. *)
Record State : Type := mkState {
  cache : gmap string CacheEntry;
  requests : list (JSValue * JSValue);
  invoked : list JSValue;
}.

Definition empty : State := mkState ∅ [] [].

(** Computations over the fetcher that may throw. *)
Definition M (A : Type) : Type := State → Result A * State.

Definition ret {A} (a : A) : M A := fun st => (Ok a, st).
Definition throw {A} (e : Thrown) : M A := fun st => (Throw e, st).
Definition bind {A B} (m : M A) (k : A → M B) : M B :=
  fun st =>
    match m st with
    | (Ok a, st') => k a st'
    | (Throw e, st') => (Throw e, st')
    end.
Definition lift {A} (r : Result A) : M A := fun st => (r, st).
(** [try { m } catch (e) { h e }] *)
Definition catch {A} (m : M A) (h : Thrown → M A) : M A :=
  fun st =>
    match m st with
    | (Ok a, st') => (Ok a, st')
    | (Throw e, st') => h e st'
    end.

Notation "'let*' x ':=' m 'in' k" := (bind m (fun x => k))
  (at level 10, x name, m at level 100, k at level 200).

(** The soft error value [{ error: reason }]. *)
Definition soft (reason : JSValue) : JSValue := JObj [("error", reason)].

Section WithEnv.
Context (env : Env) (cfg : Config).

(** [await fetch(url, { method: 'POST', ..., body: JSON.stringify(body) })] *)
Definition do_fetch (url body : JSValue) : M NetOutcome :=
  fun st =>
    (Ok (net env (length (requests st)) url (Heap.json_norm body)),
     mkState (cache st) (requests st ++ [(url, Heap.json_norm body)]) (invoked st)).

(** The body of the [try] block of [fetchFromPostgreSQL]. *)
Definition postgres_request (endpoint : string) (source : JSValue) : M JSValue :=
  let* out := do_fetch (JStr endpoint)
                (JObj [("query", JS.get source "query");
                       ("params", JS.get source "params");
                       ("schema", JS.get source "schema")]) in
  match out with
  | NetFail e => throw e
  | NetResponse ok statusText json =>
      if negb ok then ret (soft (JStr statusText))
      else
        let* result := lift json in
        let* d := lift (JS.prop result "data") in
        ret (JS.or_else d result)
  end.

Definition fetchFromPostgreSQL (source : JSValue) : M JSValue :=
  match mcpPostgresEndpoint cfg with
  | None => ret (soft (JStr "PostgreSQL endpoint not configured"))
  | Some endpoint =>
      if negb (Str.nonempty endpoint)
      then ret (soft (JStr "PostgreSQL endpoint not configured"))
      else if negb (fetch_available env)
      then ret (soft (JStr "fetch not available"))
      else
        catch (postgres_request endpoint source)
              (fun e => ret (soft (JStr (message_or e "Unknown error"))))
  end.

(** The body of the [try] block of [fetchFromGraphQL]. *)
Definition graphql_request (endpoint source : JSValue) : M JSValue :=
  let* out := do_fetch endpoint
                (JObj [("query", JS.get source "query");
                       ("variables", JS.get source "variables")]) in
  match out with
  | NetFail e => throw e
  | NetResponse ok statusText json =>
      if negb ok then ret (soft (JStr statusText))
      else
        let* result := lift json in
        let* errors := lift (JS.prop result "errors") in
        if JS.truthy errors then ret (soft errors)
        else ret (JS.get result "data")
  end.

Definition fetchFromGraphQL (source : JSValue) : M JSValue :=
  let endpoint :=
    JS.or_else (JS.get source "endpoint")
               (JS.of_option_string (graphqlEndpoint cfg)) in
  if negb (JS.truthy endpoint)
  then ret (soft (JStr "GraphQL endpoint not configured"))
  else if negb (fetch_available env)
  then ret (soft (JStr "fetch not available"))
  else
    catch (graphql_request endpoint source)
          (fun e => ret (soft (JStr (message_or e "Unknown error")))).

Definition fetchFromStatic (source : JSValue) : M JSValue :=
  ret (JS.get source "data").

Definition log_source (source : JSValue) : M unit :=
  fun st => (Ok tt, mkState (cache st) (requests st) (invoked st ++ [source])).

Definition fetchFromSource (source : JSValue) : M JSValue :=
  let* _ := log_source source in
  let* ty := lift (JS.prop source "type") in
  if JS.is_string ty "postgresql" then fetchFromPostgreSQL source
  else if JS.is_string ty "graphql" then fetchFromGraphQL source
  else if JS.is_string ty "static" then fetchFromStatic source
  else throw (ErrorObj "Error" ("Unknown data source type: " +:+ JS.to_string ty)).

(** [result.startsWith('{') || result.startsWith('[')] *)
Definition looks_like_json (s : string) : bool :=
  Str.startsWith "{" s || Str.startsWith "[" s.

Definition applyHandlebarsTemplate (data templateConfig : JSValue)
  : Result JSValue :=
  let context :=
    JObj (assoc_merge [("data", data)]
                      (JS.spread (JS.get templateConfig "context"))) in
  match hb_render env (JS.get templateConfig "template") context with
  | Ok result =>
      if looks_like_json result
      then match json_parse env result with
           | Some parsed => Ok parsed
           | None => Ok (JStr result)
           end
      else Ok (JStr result)
  | Throw error =>
      Throw (ErrorObj "Error"
               ("Handlebars template failed: " +:+ thrown_to_string error))
  end.

Definition applyAlaSQLTransform (data transform : JSValue) : Result JSValue :=
  let dataArray := if JS.isArray data then data else JArr [data] in
  match alasql env (JS.get transform "query")
               (JArr [dataArray; JS.get transform "params"]) with
  | Ok result => Ok result
  | Throw error =>
      Throw (ErrorObj "Error"
               ("AlaSQL transform failed: " +:+ thrown_to_string error))
  end.

  (** [getFromCache], with [now] the reading of [Date.now()]; a miss
    is [null]. *)
Definition getFromCache (now : Z) (componentId : string) (ttl : JSValue)
  : M JSValue :=
  fun st =>
    match cache st !! componentId with
    | None => (Ok JNull, st)
    | Some cached =>
        let age := now - timestamp cached in
        let maxAge := JS.or_else ttl (JNum 60000) in
        if JS.gt age maxAge
        then (Ok JNull,
              mkState (delete componentId (cache st)) (requests st) (invoked st))
        else (Ok (data cached), st)
    end.

Definition setCache (now : Z) (componentId : string) (d : JSValue) : M unit :=
  fun st =>
    (Ok tt,
     mkState (<[componentId := mkEntry d now]> (cache st))
             (requests st) (invoked st)).

(** [clearCache(componentId?)] *)
Definition clearCache (componentId : option string) : M unit :=
  fun st =>
    (Ok tt,
     match componentId with
     | Some id =>
         if Str.nonempty id
         then mkState (delete id (cache st)) (requests st) (invoked st)
         else mkState ∅ (requests st) (invoked st)
     | None => mkState ∅ (requests st) (invoked st)
     end).

(** [fetchData].  [t_check] is the clock as read by [getFromCache],
    [t_store] as read by [setCache].  The outer [try]/[catch] logs
    the error and throws it again. *)
Definition fetchData (t_check t_store : Z) (componentId : string)
    (config : JSValue) : M JSValue :=
  let* cacheConfig := lift (JS.prop config "cache") in
  let enabled := JS.truthy (JS.get cacheConfig "enabled") in
  let* cached :=
    (if enabled
     then getFromCache t_check componentId (JS.get cacheConfig "ttl")
     else ret JNull) in
  if enabled && negb (JS.is_null cached) then ret cached
  else
    let* rawData := fetchFromSource (JS.get config "source") in
    let handlebarsTemplate := JS.get config "handlebarsTemplate" in
    let* rawData :=
      (if JS.truthy handlebarsTemplate
       then lift (applyHandlebarsTemplate rawData handlebarsTemplate)
       else ret rawData) in
    let alasqlTransform := JS.get config "alasqlTransform" in
    let* rawData :=
      (if JS.truthy alasqlTransform
       then lift (applyAlaSQLTransform rawData alasqlTransform)
       else ret rawData) in
    let* _ := (if enabled then setCache t_store componentId rawData
               else ret tt) in
    ret rawData.

End WithEnv.

End Fetcher.

(** ** Dashboard state and grid geometry *)

Record GridLayout : Type := mkGrid {
  columns : string;
  rows : string;
  gap : string;
  templateAreas : list string;
}.

Record DashboardMetadata : Type := mkMeta {
  name : string;
  description : string;
  createdAt : string;
}.

(** [components] is the object mapping ids to components, in insertion
    order.  A component is kept as the value it is at run time: the
    [any]-typed updates of [update_component] can store any value. *)
Record DashboardState : Type := mkDashboard {
  grid : GridLayout;
  components : list (string * JSValue);
  metadata : DashboardMetadata;
  postgresSchema : JSValue;
  graphqlEndpoint : option string;
}.

Definition with_grid (st : DashboardState) (g : GridLayout) : DashboardState :=
  mkDashboard g (components st) (metadata st) (postgresSchema st) (graphqlEndpoint st).

Definition with_components (st : DashboardState) (cs : list (string * JSValue))
  : DashboardState :=
  mkDashboard (grid st) cs (metadata st) (postgresSchema st) (graphqlEndpoint st).

Record GridStats : Type := mkStats {
  totalAreas : Z;
  usedAreas : Z;
  availableAreas : Z;
  availableAreaNames : list string;
}.

Fixpoint dedup_from (seen l : list string) : list string :=
  match l with
  | [] => []
  | x :: rest =>
      if existsb (String.eqb x) seen then dedup_from seen rest
      else x :: dedup_from (x :: seen) rest
  end.

(** Modelled from the spec: [gridUtils.extractGridAreas] is not among the
    sources.  Each row is split on white space, the placeholder [.] is
    dropped and duplicates are removed, keeping the first occurrence. *)
Definition extractGridAreas (areas : list string) : list string :=
  dedup_from []
    (filter (fun a => String.eqb a "." = false) (concat (map Str.words areas))).

(** Modelled from the spec: [gridUtils.isValidGridArea] is not among the
    sources.  The area is one of the extracted areas. *)
Definition isValidGridArea (area : string) (areas : list string) : bool :=
  existsb (String.eqb area) (extractGridAreas areas).

(** Modelled from the spec: [gridUtils.isGridAreaOccupied] is not among
    the sources.  Some component's [gridArea] equals the area. *)
Definition isGridAreaOccupied (area : string) (st : DashboardState) : bool :=
  existsb (fun c => JS.is_string (JS.get c.2 "gridArea") area) (components st).

(** The two functions of [gridUtils] whose results the spec leaves open:
    [validateGridLayout] returns [valid] and [errors], [getGridStats] the
    derived counts. *)
Class GridUtils : Type := mkGridUtils {
  validateGridLayout : GridLayout → bool * list string;
  getGridStats : DashboardState → GridStats;
}.

(** ** The dashboard tools *)

Module Tools.

(** [ToolResponse]; an absent [data] is [undefined]. *)
Record ToolResponse : Type := mkResponse {
  success : bool;
  message : option string;
  data : JSValue;
  error : option string;
}.

(** [s] between double quotes *)
Definition quoted (s : string) : string :=
  String "034"%char (s +:+ String "034"%char "").

Definition succeed (msg : string) (d : JSValue) : ToolResponse :=
  mkResponse true (Some msg) d None.
Definition fail (err : string) : ToolResponse :=
  mkResponse false None JUndefined (Some err).

(** [state.components[id]] *)
Definition component_of (st : DashboardState) (id : string) : JSValue :=
  default JUndefined (assoc_get id (components st)).

(** [{ ...prev, components: { ...prev.components, [id]: c } }] *)
Definition put_component (id : string) (c : JSValue) (st : DashboardState)
  : DashboardState :=
  with_components st (assoc_set id c (components st)).

Definition js_strings (l : list string) : JSValue := JArr (map JStr l).

Definition grid_to_js (g : GridLayout) : list (string * JSValue) :=
  [("columns", JStr (columns g)); ("rows", JStr (rows g)); ("gap", JStr (gap g));
   ("templateAreas", js_strings (templateAreas g))].

Definition stats_to_js (s : GridStats) : JSValue :=
  JObj [("totalAreas", JNum (totalAreas s)); ("usedAreas", JNum (usedAreas s));
        ("availableAreas", JNum (availableAreas s));
        ("availableAreaNames", js_strings (availableAreaNames s))].

(** [values.join(sep)] *)
Definition join_values (sep : string) (vs : list JSValue) : string :=
  Str.join sep (map (fun v => if JS.nullish v then "" else JS.to_string v) vs).

Definition is_quote (c : ascii) : bool :=
  match c with
  | "034"%char | "'"%char => true
  | _ => false
  end.

Definition strip_quote (s : string) : string :=
  match s with
  | String c r => if is_quote c then r else s
  | EmptyString => s
  end.

(** [area.replace(/^["']|["']$/g, '').trim()] *)
Definition normalize_area (area : string) : string :=
  Str.trim (Str.rev (strip_quote (Str.rev (strip_quote area)))).

(** [Object.values(components).filter(c => !newAreas.includes(c.gridArea))] *)
Fixpoint orphaned (newAreas : list string) (cs : list (string * JSValue))
  : Result (list JSValue) :=
  match cs with
  | [] => Ok []
  | (_, c) :: rest =>
      let+ area := JS.prop c "gridArea" in
      let+ others := orphaned newAreas rest in
      Ok (if JS.included newAreas area then others else c :: others)
  end.

Definition orphaned_message (orphanedComponents : list JSValue)
    (newAreas : list string) : string :=
  "Cannot update grid layout: " +:+ pretty (length orphanedComponents)
    +:+ " component(s) would be orphaned. "
    +:+ "Components in areas: "
    +:+ join_values ", " (map (fun c => JS.get c "gridArea") orphanedComponents)
    +:+ " which are not in new grid areas: " +:+ Str.join ", " newAreas.

(** The parameter object of [create_component]. *)
Record CreateParams : Type := mkCreate {
  cp_id : string;
  cp_type : string;
  cp_gridArea : string;
  cp_title : string;
  cp_description : JSValue;
  cp_dataConfig : JSValue;
  cp_data : JSValue;
  cp_options : JSValue;
  cp_style : JSValue;
}.

(** [Object.values(components).find(c => c.gridArea === area)] *)
Fixpoint find_in_area (area : string) (cs : list (string * JSValue))
  : Result JSValue :=
  match cs with
  | [] => Ok JUndefined
  | (_, c) :: rest =>
      let+ a := JS.prop c "gridArea" in
      if JS.is_string a area then Ok c else find_in_area area rest
  end.

Definition newComponent (now : string) (params : CreateParams) : JSValue :=
  JObj [("id", JStr (cp_id params));
        ("type", JStr (cp_type params));
        ("gridArea", JStr (cp_gridArea params));
        ("title", JStr (cp_title params));
        ("description", cp_description params);
        ("dataConfig", cp_dataConfig params);
        ("data", JS.or_else (cp_data params) (JObj []));
        ("options", cp_options params);
        ("style", cp_style params);
        ("metadata", JObj [("createdAt", JStr now); ("fetchStatus", JStr "idle")])].

Section WithGridUtils.
Context `{GridUtils}.

Definition set_grid_layout (params : GridLayout) (st : DashboardState)
  : ToolResponse * DashboardState :=
  let normalizedTemplateAreas := map normalize_area (templateAreas params) in
  let normalizedParams :=
    mkGrid (columns params) (rows params) (gap params) normalizedTemplateAreas in
  let validation := validateGridLayout normalizedParams in
  if negb validation.1
  then (fail ("Invalid grid layout: " +:+ Str.join ", " validation.2), st)
  else
    let currentState := st in
    let newAreas := extractGridAreas (templateAreas normalizedParams) in
    match orphaned newAreas (components currentState) with
    | Throw e => (fail (message_or e "Failed to set grid layout"), st)
    | Ok orphanedComponents =>
        if (0 <? length orphanedComponents)%nat
        then (fail (orphaned_message orphanedComponents newAreas), st)
        else
          (succeed "Grid layout configured successfully"
             (JObj (grid_to_js normalizedParams ++
                    [("gridAreas", js_strings newAreas);
                     ("stats", stats_to_js
                                 (getGridStats (with_grid currentState normalizedParams)))])),
           with_grid st normalizedParams)
    end.

(** [create_component]; [now] is [new Date().toISOString()].  The state
    accessor still yields the state read at entry when the statistics
    of the response are computed. *)
Definition create_component (now : string) (params : CreateParams)
    (st : DashboardState) : ToolResponse * DashboardState :=
  let currentState := st in
  if JS.truthy (component_of currentState (cp_id params))
  then (fail ("Component with ID " +:+ quoted (cp_id params)
                +:+ " already exists. Use update_component to modify it."),
        st)
  else if negb (isValidGridArea (cp_gridArea params) (templateAreas (grid currentState)))
  then
    let availableAreas := extractGridAreas (templateAreas (grid currentState)) in
    (fail ("Grid area " +:+ quoted (cp_gridArea params)
             +:+ " not found in template areas. Available areas: "
             +:+ Str.join ", " availableAreas),
     st)
  else if isGridAreaOccupied (cp_gridArea params) currentState
  then
    match find_in_area (cp_gridArea params) (components currentState) with
    | Throw e => (fail (message_or e "Failed to create component"), st)
    | Ok existingComponent =>
        (fail ("Grid area " +:+ quoted (cp_gridArea params)
                 +:+ " is already occupied by component "
                 +:+ quoted (JS.to_string (JS.get existingComponent "id")) +:+ ". "
                 +:+ "Remove it first or choose a different grid area."),
         st)
    end
  else
    let c := newComponent now params in
    let stats := getGridStats currentState in
    (succeed ("Component " +:+ quoted (cp_id params)
                +:+ " created successfully in grid area "
                +:+ quoted (cp_gridArea params))
       (JObj [("component", c);
              ("gridStats", stats_to_js stats);
              ("suggestion",
               JStr (if 0 <? availableAreas stats
                     then pretty (availableAreas stats)
                            +:+ " grid area(s) still available: "
                            +:+ Str.join ", " (availableAreaNames stats)
                     else "All grid areas are now occupied"))]),
     put_component (cp_id params) c st).

End WithGridUtils.

(** The parameter object of [update_component]; an absent [path] is
    [None]. *)
Record UpdateParams : Type := mkUpdate {
  up_id : string;
  up_path : option string;
  up_updates : JSValue;
}.

(** [if (params.path)] *)
Definition given_path (params : UpdateParams) : option string :=
  match up_path params with
  | Some p => if Str.nonempty p then Some p else None
  | None => None
  end.

(** The component built by the branch without a path:
    [{ ...component, ...updates, id, metadata: { ...component.metadata, updatedAt } }] *)
Definition merged_component (now : string) (component : JSValue)
    (params : UpdateParams) : JSValue :=
  JObj (assoc_set "metadata"
          (JObj (assoc_set "updatedAt" (JStr now)
                   (JS.spread (JS.get component "metadata"))))
          (assoc_set "id" (JStr (up_id params))
             (assoc_merge (JS.spread component) (JS.spread (up_updates params))))).

(** [update_component]; [now] is [new Date().toISOString()]. *)
Definition update_component (now : string) (params : UpdateParams)
    (st : DashboardState) : ToolResponse * DashboardState :=
  let currentState := st in
  let component := component_of currentState (up_id params) in
  if negb (JS.truthy component)
  then (fail ("Component " +:+ quoted (up_id params) +:+ " not found"), st)
  else
    let updated :=
      match given_path params with
      | Some path => setValueAtPath component path (up_updates params)
      | None => Ok (merged_component now component params)
      end in
    match updated with
    | Throw e => (fail (message_or e "Failed to update component"), st)
    | Ok updatedComponent =>
        (succeed ("Component " +:+ quoted (up_id params) +:+ " updated successfully")
           updatedComponent,
         put_component (up_id params) updatedComponent st)
    end.

Definition remove_component (id : string) (st : DashboardState)
  : ToolResponse * DashboardState :=
  let currentState := st in
  if negb (JS.truthy (component_of currentState id))
  then (fail ("Component " +:+ quoted id +:+ " not found"), st)
  else
    (mkResponse true (Some ("Component " +:+ quoted id +:+ " removed successfully"))
       JUndefined None,
     with_components st (assoc_del id (components st))).

Definition get_component (id : string) (st : DashboardState) : ToolResponse :=
  let component := component_of st id in
  if negb (JS.truthy component)
  then mkResponse false None JNull (Some ("Component " +:+ quoted id +:+ " not found"))
  else succeed ("Component " +:+ quoted id +:+ " retrieved successfully") component.

Definition set_postgres_schema (schema : JSValue) (st : DashboardState)
  : ToolResponse * DashboardState :=
  (succeed "PostgreSQL schema configured successfully" schema,
   mkDashboard (grid st) (components st) (metadata st) schema (graphqlEndpoint st)).

Definition set_graphql_endpoint (endpoint : string) (st : DashboardState)
  : ToolResponse * DashboardState :=
  (succeed "GraphQL endpoint configured successfully" (JObj [("endpoint", JStr endpoint)]),
   mkDashboard (grid st) (components st) (metadata st) (postgresSchema st) (Some endpoint)).

(** *** The stored PostgreSQL schema *)

Definition get_postgres_schema (st : DashboardState) : ToolResponse :=
  if negb (JS.truthy (postgresSchema st))
  then mkResponse false None JNull (Some "No PostgreSQL schema configured")
  else succeed "PostgreSQL schema retrieved successfully" (postgresSchema st).

(** The parameter object of [query_postgres_schema]. *)
Record QueryParams : Type := mkQuery {
  qp_schemaName : option string;
  qp_tableName : option string;
}.

(** An optional string as a condition: absent and empty are falsy. *)
Definition given (o : option string) : option string :=
  match o with
  | Some s => if Str.nonempty s then Some s else None
  | None => None
  end.

(** The elements of [v] for a call [v.method(...)] of an array method:
    a [TypeError] when [v] is not an array; [expr] is the text of the
    expression for [v]. *)
Definition array_receiver (v : JSValue) (method expr : string)
  : Result (list JSValue) :=
  match v with
  | JArr xs => Ok xs
  | JUndefined | JNull => Throw (JS.read_TypeError v method)
  | _ => Throw (ErrorObj "TypeError" (expr +:+ "." +:+ method +:+ " is not a function"))
  end.

(** [t.name === tableName && (!schemaName || t.schema === schemaName)] *)
Definition table_matches (tableName : string) (schemaName : option string)
    (t : JSValue) : Result bool :=
  let+ name := JS.prop t "name" in
  Ok (JS.is_string name tableName &&
      match schemaName with
      | None => true
      | Some s => JS.is_string (JS.get t "schema") s
      end).

(** [tables.find(t => ...)] *)
Fixpoint find_table (tableName : string) (schemaName : option string)
    (ts : list JSValue) : Result JSValue :=
  match ts with
  | [] => Ok JUndefined
  | t :: rest =>
      let+ found := table_matches tableName schemaName t in
      if found : bool then Ok t else find_table tableName schemaName rest
  end.

(** [tables.filter(t => t.schema === schemaName)] *)
Fixpoint tables_in (schemaName : string) (ts : list JSValue)
  : Result (list JSValue) :=
  match ts with
  | [] => Ok []
  | t :: rest =>
      let+ s := JS.prop t "schema" in
      let+ others := tables_in schemaName rest in
      Ok (if JS.is_string s schemaName then t :: others else others)
  end.

(** [query_postgres_schema]; it has no [try] block, so what its body
    throws rejects the call. *)
Definition query_postgres_schema (params : QueryParams) (st : DashboardState)
  : Result ToolResponse :=
  let schema := postgresSchema st in
  if negb (JS.truthy schema)
  then Ok (mkResponse false None JNull (Some "No PostgreSQL schema configured"))
  else
    match given (qp_tableName params) with
    | Some tableName =>
        let+ tables := array_receiver (JS.get schema "tables") "find"
                         "currentState.postgresSchema.tables" in
        let+ result := find_table tableName (given (qp_schemaName params)) tables in
        if negb (JS.truthy result)
        then Ok (fail ("Table " +:+ quoted tableName +:+ " not found in schema"))
        else Ok (succeed "Schema query successful" result)
    | None =>
        match given (qp_schemaName params) with
        | Some schemaName =>
            let+ tables := array_receiver (JS.get schema "tables") "filter"
                             "currentState.postgresSchema.tables" in
            let+ result := tables_in schemaName tables in
            Ok (succeed "Schema query successful" (JArr result))
        | None => Ok (succeed "Schema query successful" (JS.get schema "schemas"))
        end
    end.

(** *** Tools that fetch *)

(** The dashboard state together with the state of the [DataFetcher]
    created by [createDashboardTools]. *)
Record World : Type := mkWorld {
  dashboard : DashboardState;
  fetcher : Fetcher.State;
}.

Definition fetcherConfig : Fetcher.Config :=
  Fetcher.mkConfig (Some "/api/mcp/postgres") (Some "/graphql").

(** The readings of the clock during one fetch: [Date.now()] in
    [getFromCache] and in [setCache], and [new Date().toISOString()]
    when the outcome is recorded. *)
Record Clock : Type := mkClock {
  t_check : Z;
  t_store : Z;
  iso : string;
}.

(** [{ ...c, metadata: { ...c.metadata, ...fields } }] *)
Definition with_metadata (c : JSValue) (fields : list (string * JSValue)) : JSValue :=
  JObj (assoc_set "metadata"
          (JObj (assoc_merge (JS.spread (JS.get c "metadata")) fields))
          (JS.spread c)).

(** [{ ...c, data: d, metadata: { ...c.metadata, ...fields } }] *)
Definition with_data_and_metadata (c d : JSValue) (fields : list (string * JSValue))
  : JSValue :=
  JObj (assoc_set "metadata"
          (JObj (assoc_merge (JS.spread (JS.get c "metadata")) fields))
          (assoc_set "data" d (JS.spread c))).

Definition loading (c : JSValue) : JSValue :=
  with_metadata c [("fetchStatus", JStr "loading")].

Definition fetched (now : string) (c d : JSValue) : JSValue :=
  with_data_and_metadata c d
    [("fetchStatus", JStr "success"); ("lastFetchedAt", JStr now);
     ("error", JUndefined)].

Definition failed (c : JSValue) (msg : string) : JSValue :=
  with_metadata c [("fetchStatus", JStr "error"); ("error", JStr msg)].

Section WithEnv.
Context (env : Fetcher.Env).

Definition fetch_component_data (clk : Clock) (id : string) (w : World)
  : ToolResponse * World :=
  let currentState := dashboard w in
  let component := component_of currentState id in
  if negb (JS.truthy component)
  then (fail ("Component " +:+ quoted id +:+ " not found"), w)
  else
    let st1 := put_component id (loading (component_of currentState id)) currentState in
    match Fetcher.fetchData env fetcherConfig (t_check clk) (t_store clk) id
            (JS.get component "dataConfig") (fetcher w) with
    | (Ok fetchedData, f') =>
        (succeed ("Data fetched successfully for component " +:+ quoted id) fetchedData,
         mkWorld (put_component id (fetched (iso clk) (component_of st1 id) fetchedData) st1) f')
    | (Throw e, f') =>
        (fail (message_or e "Failed to fetch component data"),
         mkWorld (put_component id (failed (component_of st1 id) (message_or e "Unknown error")) st1) f')
    end.

(** [result.reason?.message || 'Unknown error'] *)
Definition reason_message (e : Thrown) : string :=
  match e with
  | ErrorObj _ m => if Str.nonempty m then m else "Unknown error"
  | NonError _ => "Unknown error"
  end.

(** [componentIds.map(id => dataFetcher.fetchData(id, components[id].dataConfig))],
    settled: the fetches are started in the order of the ids and each
    one only touches the cache entry of its own id. *)
Fixpoint fetch_all (clock : string → Clock) (cs : list (string * JSValue))
    (f : Fetcher.State) : Result (list (Result JSValue)) * Fetcher.State :=
  match cs with
  | [] => (Ok [], f)
  | (id, c) :: rest =>
      match JS.prop c "dataConfig" with
      | Throw e => (Throw e, f)
      | Ok dataConfig =>
          let '(r, f1) :=
            Fetcher.fetchData env fetcherConfig (t_check (clock id))
              (t_store (clock id)) id dataConfig f in
          match fetch_all clock rest f1 with
          | (Ok rs, f2) => (Ok (r :: rs), f2)
          | (Throw e, f2) => (Throw e, f2)
          end
      end
  end.

(** The updater of [refresh_all_components]: one step of its
    [forEach] for each id and settled result. *)
Fixpoint record_all (clock : string → Clock) (ids : list string)
    (results : list (Result JSValue)) (updatedComponents : list (string * JSValue))
  : list (string * JSValue) :=
  match ids, results with
  | id :: ids', result :: results' =>
      let c := default JUndefined (assoc_get id updatedComponents) in
      let c' :=
        match result with
        | Ok value => fetched (iso (clock id)) c value
        | Throw reason => failed c (reason_message reason)
        end in
      record_all clock ids' results' (assoc_set id c' updatedComponents)
  | _, _ => updatedComponents
  end.

Definition refresh_all_components (clock : string → Clock) (w : World)
  : ToolResponse * World :=
  let currentState := dashboard w in
  let componentIds := map fst (components currentState) in
  match fetch_all clock (components currentState) (fetcher w) with
  | (Throw e, f') =>
      (fail (message_or e "Failed to refresh components"), mkWorld (dashboard w) f')
  | (Ok results, f') =>
      (succeed ("Refreshed " +:+ pretty (length componentIds) +:+ " components")
         (JObj [("refreshedCount", JNum (Z.of_nat (length componentIds)))]),
       mkWorld (with_components currentState
                  (record_all clock componentIds results (components currentState)))
               f')
  end.

End WithEnv.

End Tools.

(** ** The dashboard view

    The part of the [DashboardBuilder] component that decides what is
    shown in the grid. *)

Module Builder.

(** The [gridAreas] memo:
    [templateAreas.join(' ').split(/\s+/).filter(area => area && area !== '.')],
    then [[...new Set(areas)]].  The string is split at every white
    space character; the empty strings that leaves next to a run of
    white space fall to the filter, as do those of the source. *)
Definition gridAreas (st : DashboardState) : list string :=
  dedup_from []
    (filter (fun area => Str.nonempty area && negb (String.eqb area ".") = true)
            (Str.split_on Ascii.is_space (Str.join " " (templateAreas (grid st))))).

(** The [gridAreasWithComponents] memo: each area with
    [Object.values(components).find(c => c.gridArea === area)]. *)
Fixpoint with_components_of (cs : list (string * JSValue)) (areas : list string)
  : Result (list (string * JSValue)) :=
  match areas with
  | [] => Ok []
  | area :: rest =>
      let+ component := Tools.find_in_area area cs in
      let+ others := with_components_of cs rest in
      Ok ((area, component) :: others)
  end.

Definition gridAreasWithComponents (st : DashboardState)
  : Result (list (string * JSValue)) :=
  with_components_of (components st) (gridAreas st).

(** What a cell of the grid shows: [ComponentRenderer] for a component,
    [EmptyGridArea] otherwise. *)
Inductive Cell : Type :=
| Rendered (component : JSValue)
| EmptyArea (gridArea : string).

Definition cell_of (entry : string * JSValue) : Cell :=
  if JS.truthy entry.2 then Rendered entry.2 else EmptyArea entry.1.

(** The children of the grid element. *)
Definition cells (st : DashboardState) : Result (list Cell) :=
  let+ entries := gridAreasWithComponents st in
  Ok (map cell_of entries).

End Builder.

(** ** Path addressing read on trees

    The functional reading of [navigateToPath] and [setValueAtPath]: the
    same loop, with the assignment into the clone turned into a rebuilt
    tree.  It is related to the store version in the properties below. *)

Module Pure.

Record NavResult : Type := mkNav {
  parent : JSValue;
  key : Heap.Key;
  exists_ : bool;
  value : JSValue;
}.

Definition array_length (v : JSValue) : Z :=
  match v with
  | JArr xs => Z.of_nat (length xs)
  | _ => 0
  end.

Definition get_index (v : JSValue) (n : Z) : JSValue :=
  match v with
  | JArr xs => if 0 <=? n then default JUndefined (xs !! Z.to_nat n) else JUndefined
  | _ => JUndefined
  end.

(** The store value of a tree that is not an object. *)
Definition prim_val (v : JSValue) : Heap.val :=
  match v with
  | JUndefined => Heap.VUndefined
  | JNull => Heap.VNull
  | JBool b => Heap.VBool b
  | JNum n => Heap.VNum n
  | JStr s => Heap.VStr s
  | JArr _ | JObj _ => Heap.VUndefined
  end.

Definition has_prop (v : JSValue) (k : string) : Result bool :=
  match v with
  | JObj ps => Ok (assoc_has k ps)
  | JArr xs =>
      match canonical_index k with
      | Some i => Ok (i <? length xs)%nat
      | None => Ok (String.eqb k "length")
      end
  | _ => Throw (Heap.in_TypeError k (prim_val v))
  end.

Fixpoint nav_loop (parts : list string) (current : JSValue) : Result NavResult :=
  match parts with
  | [] => Ok (mkNav JNull (Heap.KStr "") false JUndefined)
  | part :: rest =>
      let parent := current in
      match parseInt part, JS.isArray current with
      | Some arrayIndex, true =>
          match rest with
          | [] =>
              Ok (mkNav parent (Heap.KNum arrayIndex)
                    ((0 <=? arrayIndex) && (arrayIndex <? array_length current))
                    (get_index current arrayIndex))
          | _ :: _ =>
              let current' := get_index current arrayIndex in
              if JS.nullish current'
              then Ok (mkNav parent (Heap.KNum arrayIndex) false JUndefined)
              else nav_loop rest current'
          end
      | _, _ =>
          match rest with
          | [] =>
              let+ ex := (if JS.nullish current then Ok false
                          else has_prop current part) in
              Ok (mkNav parent (Heap.KStr part) ex (JS.get current part))
          | _ :: _ =>
              let current' := JS.get current part in
              if JS.nullish current'
              then Ok (mkNav parent (Heap.KStr part) false JUndefined)
              else nav_loop rest current'
          end
      end
  end.

Definition whole (obj : JSValue) : NavResult := mkNav JNull (Heap.KStr "") true obj.

Definition navigateToPath (obj : JSValue) (path : string) : Result NavResult :=
  if Heap.is_root_path path then Ok (whole obj)
  else if String.eqb (Heap.cleanPath path) "" then Ok (whole obj)
  else nav_loop (Heap.path_parts path) obj.

(** [parent[key] = value] as a new tree *)
Definition assign (p : JSValue) (k : Heap.Key) (v : JSValue) : JSValue :=
  match p with
  | JArr xs =>
      let idx :=
        match k with
        | Heap.KNum n =>
            if (0 <=? n) && (n <? Heap.max_array_index) then Some (Z.to_nat n)
            else None
        | Heap.KStr str => canonical_index str
        end in
      match idx with
      | Some i => JArr (array_set JUndefined xs i v)
      | None => p
      end
  | JObj ps => JObj (assoc_set (Heap.key_to_string k) v ps)
  | _ => p
  end.

(** The tree [current] with the child under [part] replaced. *)
Definition with_child (current : JSValue) (k : Heap.Key) (child : JSValue)
  : JSValue :=
  match current, k with
  | JArr xs, Heap.KNum n => JArr (<[Z.to_nat n := child]> xs)
  | JArr xs, Heap.KStr part =>
      match canonical_index part with
      | Some i => JArr (<[i := child]> xs)
      | None => current
      end
  | JObj ps, Heap.KStr part => JObj (assoc_set part child ps)
  | _, _ => current
  end.

(** What [current] denotes after the loop of [navigateToPath] has run
    from it and [value] has been assigned at the place it stopped. *)
Fixpoint set_loop (parts : list string) (current value : JSValue)
  : Result JSValue :=
  match parts with
  | [] => Ok current
  | part :: rest =>
      match parseInt part, JS.isArray current with
      | Some arrayIndex, true =>
          match rest with
          | [] => Ok (assign current (Heap.KNum arrayIndex) value)
          | _ :: _ =>
              let current' := get_index current arrayIndex in
              if JS.nullish current'
              then Ok (assign current (Heap.KNum arrayIndex) value)
              else
                let+ child := set_loop rest current' value in
                Ok (with_child current (Heap.KNum arrayIndex) child)
          end
      | _, _ =>
          match rest with
          | [] =>
              let+ _ := (if JS.nullish current then Ok false
                         else has_prop current part) in
              Ok (assign current (Heap.KStr part) value)
          | _ :: _ =>
              let current' := JS.get current part in
              if JS.nullish current'
              then Ok (assign current (Heap.KStr part) value)
              else
                let+ child := set_loop rest current' value in
                Ok (with_child current (Heap.KStr part) child)
          end
      end
  end.

Definition setValueAtPath (obj : JSValue) (path : string) (value : JSValue)
  : Result JSValue :=
  if Heap.is_root_path path then Ok value
  else
    match obj with
    | JUndefined => Throw Heap.undefined_SyntaxError
    | _ =>
        let result := Heap.json_norm obj in
        if String.eqb (Heap.cleanPath path) "" then Ok value
        else
          match Heap.path_parts path with
          | [] => Ok value
          | parts =>
              if JS.is_null result then Ok value
              else set_loop parts result value
          end
    end.

End Pure.
(** ** A model of the two open functions of [gridUtils] *)

Module GridSpec.

Definition tokens (row : string) : list string := Str.words row.

Definition cell_at (grid : list (list string)) (r c : nat) : option string :=
  match grid !! r with
  | Some row => row !! c
  | None => None
  end.

(** The positions, row by row, at which [area] occurs. *)
Definition positions (grid : list (list string)) (area : string) : list (nat * nat) :=
  concat (imap (fun r row =>
                  omap (fun p => if String.eqb p.2 area then Some (r, p.1) else None)
                       (imap (fun c a => (c, a)) row))
               grid).

Definition min_list (l : list nat) : nat := foldr Nat.min (hd O l) l.
Definition max_list (l : list nat) : nat := foldr Nat.max O l.

(** The cells of [area] fill the rectangle that bounds them. *)
Definition rectangular (grid : list (list string)) (area : string) : bool :=
  let ps := positions grid area in
  let r0 := min_list (map fst ps) in
  let r1 := max_list (map fst ps) in
  let c0 := min_list (map snd ps) in
  let c1 := max_list (map snd ps) in
  forallb (fun r =>
             forallb (fun c =>
                        match cell_at grid r c with
                        | Some a => String.eqb a area
                        | None => false
                        end)
                     (seq c0 (S c1 - c0)))
          (seq r0 (S r1 - r0)).

Definition same_length (grid : list (list string)) : bool :=
  match grid with
  | [] => true
  | row :: rest => forallb (fun r => (length r =? length row)%nat) rest
  end.

(** Modelled from the spec: [gridUtils.validateGridLayout] is not among
    the sources.  It checks that [columns], [rows] and [gap] are not
    empty, that [templateAreas] is not empty, that every row has the
    same number of tokens and that the cells of every area form one
    rectangular block.  The texts of the errors are not given by the
    spec. *)
Definition validateGridLayout (g : GridLayout) : bool * list string :=
  let grid := map tokens (templateAreas g) in
  let errors :=
    (if Str.nonempty (columns g) then [] else ["columns is required"]) ++
    (if Str.nonempty (rows g) then [] else ["rows is required"]) ++
    (if Str.nonempty (gap g) then [] else ["gap is required"]) ++
    (match templateAreas g with
     | [] => ["templateAreas must not be empty"]
     | _ => []
     end) ++
    (if same_length grid then []
     else ["all rows must have the same number of columns"]) ++
    (if forallb (rectangular grid) (extractGridAreas (templateAreas g)) then []
     else ["every area must form a rectangle"]) in
  (match errors with [] => true | _ => false end, errors).

(** Modelled from the spec: [gridUtils.getGridStats] is not among the
    sources.  It derives the number of areas, of occupied areas and of
    free areas, and the names of the free areas. *)
Definition getGridStats (st : DashboardState) : GridStats :=
  let areas := extractGridAreas (templateAreas (grid st)) in
  let free := filter (fun a => isGridAreaOccupied a st = false) areas in
  mkStats (Z.of_nat (length areas))
          (Z.of_nat (length areas) - Z.of_nat (length free))
          (Z.of_nat (length free))
          free.

Definition gridUtils : GridUtils := mkGridUtils validateGridLayout getGridStats.

End GridSpec.
(** * Vocabulary of the statements *)

(** Induction on trees, with the hypothesis for every child. *)
Section JSValue_induction.
Variable P : JSValue → Prop.
Hypothesis Hundefined : P JUndefined.
Hypothesis Hnull : P JNull.
Hypothesis Hbool : ∀ b, P (JBool b).
Hypothesis Hnum : ∀ n, P (JNum n).
Hypothesis Hstr : ∀ s, P (JStr s).
Hypothesis Harr : ∀ xs, Forall P xs → P (JArr xs).
Hypothesis Hobj : ∀ ps, Forall (fun kv => P kv.2) ps → P (JObj ps).

Fixpoint JSValue_tree_ind (t : JSValue) : P t :=
  match t with
  | JUndefined => Hundefined
  | JNull => Hnull
  | JBool b => Hbool b
  | JNum n => Hnum n
  | JStr s => Hstr s
  | JArr xs =>
      Harr xs ((fix go (xs : list JSValue) : Forall P xs :=
                  match xs with
                  | [] => @List.Forall_nil _ P
                  | x :: xs' => @List.Forall_cons _ P x xs' (JSValue_tree_ind x) (go xs')
                  end) xs)
  | JObj ps =>
      Hobj ps ((fix go (ps : list (string * JSValue)) : Forall (fun kv => P kv.2) ps :=
                  match ps with
                  | [] => @List.Forall_nil _ _
                  | kv :: ps' =>
                      @List.Forall_cons _ (fun kv => P kv.2) kv ps'
                        (JSValue_tree_ind kv.2) (go ps')
                  end) ps)
  end.
End JSValue_induction.

(** Trees laid out in the store. *)
Module Repr.
Import Heap.

(** [alloc] on the elements of an array and on the properties of an
    object, left to right. *)
Fixpoint alloc_list (xs : list JSValue) (s : store) : list val * store :=
  match xs with
  | [] => ([], s)
  | x :: xs' =>
      let '(v, s1) := alloc x s in
      let '(vs, s2) := alloc_list xs' s1 in
      (v :: vs, s2)
  end.

Fixpoint alloc_props (ps : list (string * JSValue)) (s : store)
  : list (string * val) * store :=
  match ps with
  | [] => ([], s)
  | (k, x) :: ps' =>
      let '(v, s1) := alloc x s in
      let '(vs, s2) := alloc_props ps' s1 in
      ((k, v) :: vs, s2)
  end.

(** [v] denotes [t] with cells that fill exactly the locations from
    [lo] up to [hi], each subtree in a range of its own and the cell of
    a node right after the cells of its children. *)
Inductive tree_at (s : store) : nat → nat → val → JSValue → Prop :=
| ta_undefined n : tree_at s n n VUndefined JUndefined
| ta_null n : tree_at s n n VNull JNull
| ta_bool n b : tree_at s n n (VBool b) (JBool b)
| ta_num n z : tree_at s n n (VNum z) (JNum z)
| ta_str n str : tree_at s n n (VStr str) (JStr str)
| ta_arr lo l vs ts :
    s !! l = Some (CArr vs) →
    forest_at s lo l vs ts →
    tree_at s lo (S l) (VRef l) (JArr ts)
| ta_obj lo l ps tps :
    s !! l = Some (CObj ps) →
    map fst ps = map fst tps →
    forest_at s lo l (map snd ps) (map snd tps) →
    tree_at s lo (S l) (VRef l) (JObj tps)
with forest_at (s : store) : nat → nat → list val → list JSValue → Prop :=
| fa_nil n : forest_at s n n [] []
| fa_cons lo mid hi v vs t ts :
    tree_at s lo mid v t →
    forest_at s mid hi vs ts →
    forest_at s lo hi (v :: vs) (t :: ts).

Scheme tree_at_mut := Minimality for tree_at Sort Prop
  with forest_at_mut := Minimality for forest_at Sort Prop.

Combined Scheme tree_forest_ind from tree_at_mut, forest_at_mut.

(** The tree of a value that is not a reference. *)
Definition tree_of_prim (v : val) : JSValue :=
  match v with
  | VUndefined => JUndefined
  | VNull => JNull
  | VBool b => JBool b
  | VNum n => JNum n
  | VStr str => JStr str
  | VRef _ => JUndefined
  end.

(** Navigation in the store and on the tree agree. *)
Definition nav_agree (f : nat) (s : store)
    (r : Result NavResult) (r' : Result Pure.NavResult) : Prop :=
  match r, r' with
  | Throw e, Throw e' => e = e'
  | Ok n, Ok n' =>
      key n = Pure.key n' ∧ exists_ n = Pure.exists_ n' ∧
      reify f s (value n) = Some (Pure.value n') ∧
      reify f s (parent n) = Some (Pure.parent n')
  | _, _ => False
  end.

(** What the node [c] denotes after a change below one of its
    children. *)
Definition child_context (s : store) (lo hi lo' hi' fv : nat)
    (c child : val) (t : JSValue) (k : Key) : Prop :=
  ∀ s' t',
    (∀ l, ¬ (lo' ≤ l < hi')%nat → s' !! l = s !! l) →
    (∀ f, ((hi' - lo') + fv ≤ f)%nat → reify f s' child = Some t') →
    ∀ f, ((hi - lo) + fv ≤ f)%nat → reify f s' c = Some (Pure.with_child t k t').

(** The loop of [navigateToPath] followed by the assignment of
    [setValueAtPath], against the rebuilt tree. *)
Definition set_agree (s : store) (lo hi fv : nat) (c v : val)
    (r : Result NavResult) (r' : Result JSValue) : Prop :=
  match r, r' with
  | Throw e, Throw e' => e = e'
  | Ok nav, Ok t' =>
      length (assign s (parent nav) (key nav) v) = length s ∧
      (∀ l, ¬ (lo ≤ l < hi)%nat → assign s (parent nav) (key nav) v !! l = s !! l) ∧
      (∀ f, ((hi - lo) + fv ≤ f)%nat →
            reify f (assign s (parent nav) (key nav) v) c = Some t')
  | _, _ => False
  end.

#[export] Instance val_eq_dec : EqDecision val.
Proof. solve_decision. Defined.

End Repr.

(** The path of the round trip. *)
Definition path_ab0 : string := "$.a.b[0]".

(** A boolean, a number or a string. *)
Definition is_primitive (v : Heap.val) : bool :=
  match v with
  | Heap.VBool _ | Heap.VNum _ | Heap.VStr _ => true
  | _ => false
  end.

Section ToolVocabulary.
Import Tools.


(** The layout after [set_grid_layout] has stripped the quotes of its
    rows. *)
Definition normalized (params : GridLayout) : GridLayout :=
  mkGrid (columns params) (rows params) (gap params)
         (map normalize_area (templateAreas params)).

(** A dashboard with the given rows and components. *)
Definition dashboard_with (areas : list string) (cs : list (string * JSValue))
  : DashboardState :=
  mkDashboard (mkGrid "1fr 1fr" "auto 1fr" "16px" areas) cs
    (mkMeta "New Dashboard" "" "2025-01-01T00:00:00.000Z") JUndefined None.

(** A table component with a static source, placed in [area]. *)
Definition component_in (id area : string) : JSValue :=
  JObj [("id", JStr id); ("type", JStr "table"); ("gridArea", JStr area);
        ("title", JStr id); ("description", JUndefined);
        ("dataConfig", JObj [("source", JObj [("type", JStr "static");
                                              ("data", JArr [JNum 1])])]);
        ("data", JObj []); ("options", JUndefined); ("style", JUndefined);
        ("metadata", JObj [("createdAt", JStr "2025-01-01T00:00:00.000Z");
                           ("fetchStatus", JStr "idle")])].

(** The number of components whose [gridArea] is [area]. *)
Definition count_in_area (area : string) (st : DashboardState) : nat :=
  length (filter (fun kv => JS.is_string (JS.get kv.2 "gridArea") area = true)
                 (components st)).

(** Two components in two areas of a two by two layout. *)
Definition two_components : DashboardState :=
  dashboard_with ["header header"; "sidebar main"]
    [("c1", component_in "c1" "main"); ("c2", component_in "c2" "sidebar")].




End ToolVocabulary.

Section FetcherVocabulary.
Import Fetcher.
Context (env : Env) (cfg : Config).

(** The part of the fetcher state that a function leaves alone. *)
Definition same_cache (st st' : State) : Prop :=
  cache st' = cache st ∧ invoked st' = invoked st.

(** What the cache answers at the start of [fetchData]: a value, or
    nothing when caching is off, the entry is missing or expired, or the
    cached value is [null]. *)
Definition cache_answer (t_check : Z) (componentId : string) (config : JSValue)
  : M (option JSValue) :=
  let* cacheConfig := lift (JS.prop config "cache") in
  if JS.truthy (JS.get cacheConfig "enabled")
  then
    let* cached := getFromCache t_check componentId (JS.get cacheConfig "ttl") in
    ret (if JS.is_null cached then None else Some cached)
  else ret None.

(** [config.cache?.enabled], as a condition. *)
Definition caching (config : JSValue) : bool :=
  JS.truthy (JS.get (JS.get config "cache") "enabled").

(** The steps of [fetchData] after the cache. *)
Definition fetch_and_transform (t_store : Z) (componentId : string)
    (config : JSValue) : M JSValue :=
  let* rawData := fetchFromSource env cfg (JS.get config "source") in
  let* rawData :=
    (if JS.truthy (JS.get config "handlebarsTemplate")
     then lift (applyHandlebarsTemplate env rawData (JS.get config "handlebarsTemplate"))
     else ret rawData) in
  let* rawData :=
    (if JS.truthy (JS.get config "alasqlTransform")
     then lift (applyAlaSQLTransform env rawData (JS.get config "alasqlTransform"))
     else ret rawData) in
  let* _ := (if caching config then setCache t_store componentId rawData
             else ret tt) in
  ret rawData.



(** [source.endpoint || this.graphqlEndpoint] *)
Definition graphql_endpoint (source : JSValue) : JSValue :=
  JS.or_else (JS.get source "endpoint") (JS.of_option_string (graphqlEndpoint cfg)).



(** The time to live in force for a [cache.ttl] that is left out, or is
    a number other than zero. *)
Definition effective_ttl (ttl : JSValue) (n : Z) : Prop :=
  (ttl = JUndefined ∧ n = 60000) ∨ (ttl = JNum n ∧ n ≠ 0).

(** An endpoint every request to which is rejected with [e]. *)
Definition unreachable (endpoint : JSValue) (e : Thrown) : Prop :=
  ∀ n body, net env n endpoint body = NetFail e.

(** The endpoint a source is fetched from; a static source has none. *)
Definition endpoint_of (source : JSValue) : option JSValue :=
  if JS.is_string (JS.get source "type") "postgresql"
  then Some (JS.of_option_string (mcpPostgresEndpoint cfg))
  else if JS.is_string (JS.get source "type") "graphql"
  then Some (graphql_endpoint source)
  else None.

(** A data configuration with a known source type, no transform and no
    caching. *)
Definition plain_config (config : JSValue) : bool :=
  negb (JS.nullish config) &&
  negb (caching config) &&
  negb (JS.truthy (JS.get config "handlebarsTemplate")) &&
  negb (JS.truthy (JS.get config "alasqlTransform")) &&
  JS.included ["postgresql"; "graphql"; "static"]
    (JS.get (JS.get config "source") "type").

End FetcherVocabulary.

(** An environment without a network and without working engines. *)
Definition offline : Fetcher.Env :=
  Fetcher.mkEnv true
    (fun _ _ _ => Fetcher.NetFail (ErrorObj "TypeError" "Failed to fetch"))
    (fun _ _ => Throw (ErrorObj "Error" "Parse error on line 1"))
    (fun _ => None)
    (fun _ _ => Throw (ErrorObj "Error" "Table does not exist")).

(** A fetcher constructed without endpoints. *)
Definition no_endpoints : Fetcher.Config := Fetcher.mkConfig None None.

(** A fetcher whose cache holds the value 42 for [c1], stored at time
    1000. *)
Definition cached_42 : Fetcher.State :=
  Fetcher.mkState {[ "c1" := Fetcher.mkEntry (JNum 42) 1000 ]} [] [].

(** A static source with caching enabled and the given [ttl]. *)
Definition static_cached (ttl : JSValue) : JSValue :=
  JObj [("source", JObj [("type", JStr "static"); ("data", JNum 7)]);
        ("cache", JObj [("enabled", JBool true); ("ttl", ttl)])].

Section FetchToolVocabulary.
Import Tools.

(** What one settled fetch of a plain configuration looks like. *)
Definition settled_plain (env : Fetcher.Env) (kv : string * JSValue)
    (r : Result JSValue) : Prop :=
  ∃ v, r = Ok v ∧
    ∀ ep e,
      endpoint_of fetcherConfig (JS.get (JS.get kv.2 "dataConfig") "source") = Some ep →
      unreachable env ep e →
      Fetcher.fetch_available env = true →
      v = Fetcher.soft (JStr (message_or e "Unknown error")).

(** The outcome recorded for one component. *)
Definition recorded (clock : string → Clock) (id : string) (r : Result JSValue)
    (c : JSValue) : JSValue :=
  match r with
  | Ok value => fetched (iso (clock id)) c value
  | Throw reason => failed c (reason_message reason)
  end.

End FetchToolVocabulary.

(** A component with a given data configuration and data. *)
Definition component_from (id area : string) (dataConfig d : JSValue) : JSValue :=
  JObj [("id", JStr id); ("type", JStr "table"); ("gridArea", JStr area);
        ("title", JStr id); ("dataConfig", dataConfig); ("data", d);
        ("metadata", JObj [("createdAt", JStr "2025-01-01T00:00:00.000Z");
                           ("fetchStatus", JStr "idle")])].

(** The readings of the clock used in the examples. *)
Definition noon : Tools.Clock := Tools.mkClock 1000 1000 "2025-01-02T12:00:00.000Z".

(** A static source behind a template that does not compile. *)
Definition broken_template : JSValue :=
  JObj [("source", JObj [("type", JStr "static"); ("data", JNum 1)]);
        ("handlebarsTemplate", JObj [("template", JStr "{{#each")])].

(** A dashboard whose only component has that configuration and some
    data. *)
Definition broken_template_world : Tools.World :=
  Tools.mkWorld
    (dashboard_with ["main"]
       [("c1", component_from "c1" "main" broken_template (JArr [JNum 5]))])
    Fetcher.empty.

(** An environment in which the PostgreSQL endpoint is unreachable and
    every other endpoint answers. *)
Definition postgres_down : Fetcher.Env :=
  Fetcher.mkEnv true
    (fun _ endpoint _ =>
       if JS.is_string endpoint "/api/mcp/postgres"
       then Fetcher.NetFail (ErrorObj "TypeError" "Failed to fetch")
       else Fetcher.NetResponse true "OK"
              (Ok (JObj [("data", JObj [("users", JArr [JNum 1; JNum 2])])])))
    (fun _ _ => Ok EmptyString)
    (fun _ => None)
    (fun _ _ => Ok (JArr [])).

(** Three components: a static source, a GraphQL source, and a
    PostgreSQL source. *)
Definition three_components : Tools.World :=
  Tools.mkWorld
    (dashboard_with ["a b c"]
       [("c1", component_from "c1" "a"
                 (JObj [("source", JObj [("type", JStr "static");
                                         ("data", JArr [JNum 1])])])
                 JNull);
        ("c2", component_from "c2" "b"
                 (JObj [("source", JObj [("type", JStr "graphql");
                                         ("query", JStr "{ users }")])])
                 JNull);
        ("c3", component_from "c3" "c"
                 (JObj [("source", JObj [("type", JStr "postgresql");
                                         ("query", JStr "select 1")])])
                 JNull)])
    Fetcher.empty.

(** [components[id].metadata.fetchStatus] *)
Definition fetchStatus_of (w : Tools.World) (id : string) : JSValue :=
  JS.get (JS.get (Tools.component_of (Tools.dashboard w) id) "metadata") "fetchStatus".


(** ** Vocabulary of the further properties *)





(** A two by two layout without components, and the parameters of a
    first component for it. *)
Definition empty_two_by_two : DashboardState :=
  dashboard_with ["header header"; "sidebar main"] [].

Definition orders_params : Tools.CreateParams :=
  Tools.mkCreate "c1" "table" "main" "Orders" JUndefined
    (JObj [("source", JObj [("type", JStr "static"); ("data", JArr [])])])
    JUndefined JUndefined JUndefined.

(** The test of [query_postgres_schema] for a table, on a table that is
    not [null] or [undefined]. *)
Definition matches_table (tableName : string) (schemaName : option string)
    (t : JSValue) : bool :=
  JS.is_string (JS.get t "name") tableName &&
  match schemaName with
  | None => true
  | Some s => JS.is_string (JS.get t "schema") s
  end.

(** A schema with two tables of the same name in two schemas. *)
Definition two_schemas : JSValue :=
  JObj [("schemas", JArr [JStr "public"; JStr "sales"]);
        ("tables",
         JArr [JObj [("schema", JStr "public"); ("name", JStr "orders")];
               JObj [("schema", JStr "sales"); ("name", JStr "orders")];
               JObj [("schema", JStr "sales"); ("name", JStr "items")]])].

(** A dashboard in which two components are stored for [main] and one
    for an area that the layout does not have. *)
Definition crowded : DashboardState :=
  dashboard_with ["header header"; "sidebar main"]
    [("c1", component_in "c1" "main"); ("c2", component_in "c2" "main");
     ("c3", component_in "c3" "footer")].

(** A PostgreSQL source with caching enabled for one second. *)
Definition cached_query : JSValue :=
  JObj [("source", JObj [("type", JStr "postgresql"); ("query", JStr "select 1")]);
        ("cache", JObj [("enabled", JBool true); ("ttl", JNum 1000)])].

(** A row written between two quotes, and a row that neither starts nor
    ends with a quote. *)
Definition in_quotes (q : ascii) (row : string) : string :=
  String q (row +:+ String q "").

Definition unquoted (row : string) : Prop :=
  Tools.strip_quote row = row ∧ Tools.strip_quote (Str.rev row) = Str.rev row.
(** * Properties *)

(** ** Association lists *)

Section AssocFacts.
Context {A : Type}.
Implicit Types (l : list (string * A)) (k : string) (v : A).

Lemma assoc_get_set_eq k v l : assoc_get k (assoc_set k v l) = Some v.
Proof.
  induction l as [|[k' v'] l IH]; simpl.
  - by rewrite String.eqb_refl.
  - destruct (String.eqb k' k) eqn:E; simpl.
    + by rewrite String.eqb_refl.
    + by rewrite E.
Qed.

Lemma assoc_get_set_ne k k' v l :
  k ≠ k' → assoc_get k' (assoc_set k v l) = assoc_get k' l.
Proof.
  intros Hne. induction l as [|[k0 v0] l IH]; simpl.
  - destruct (String.eqb k k') eqn:E; [|done].
    apply String.eqb_eq in E. done.
  - destruct (String.eqb k0 k) eqn:E; simpl.
    + apply String.eqb_eq in E. subst k0.
      destruct (String.eqb k k') eqn:E'; [|done].
      apply String.eqb_eq in E'. done.
    + destruct (String.eqb k0 k'); [done|]. apply IH.
Qed.

Lemma assoc_get_del_eq k l : assoc_get k (assoc_del k l) = None.
Proof.
  induction l as [|[k' v'] l IH]; simpl; [done|].
  destruct (String.eqb k' k) eqn:E; simpl; [done|]. by rewrite E.
Qed.

Lemma assoc_get_del_ne k k' l :
  k ≠ k' → assoc_get k' (assoc_del k l) = assoc_get k' l.
Proof.
  intros Hne. induction l as [|[k0 v0] l IH]; simpl; [done|].
  destruct (String.eqb k0 k) eqn:E; simpl.
  - apply String.eqb_eq in E. subst k0.
    destruct (String.eqb k k') eqn:E'; [|done].
    apply String.eqb_eq in E'. done.
  - destruct (String.eqb k0 k'); [done|]. apply IH.
Qed.

Lemma assoc_get_merge_ne k (a b : list (string * A)) :
  Forall (fun kv => kv.1 ≠ k) b → assoc_get k (assoc_merge a b) = assoc_get k a.
Proof.
  unfold assoc_merge. revert a.
  induction b as [|[k0 v0] b IH]; intros a Hb; simpl; [done|].
  inversion Hb as [|? ? Hk Hb']; subst. simpl in Hk.
  rewrite IH by done. by apply assoc_get_set_ne.
Qed.

Lemma assoc_get_merge_last k v (a b : list (string * A)) :
  Forall (fun kv => kv.1 ≠ k) b →
  assoc_get k (assoc_merge a (b ++ [(k, v)])) = Some v.
Proof.
  intros _. unfold assoc_merge. rewrite fold_left_app. simpl.
  apply assoc_get_set_eq.
Qed.

Lemma assoc_get_None_set k v l :
  assoc_get k l = None → assoc_set k v l = l ++ [(k, v)].
Proof.
  induction l as [|[k' v'] l IH]; simpl; [done|].
  destruct (String.eqb k' k); [done|]. intros Hn. by rewrite IH.
Qed.

Lemma assoc_del_None k l : assoc_get k l = None → assoc_del k l = l.
Proof.
  induction l as [|[k' v'] l IH]; simpl; [done|].
  destruct (String.eqb k' k); [done|]. intros Hn. by rewrite IH.
Qed.
End AssocFacts.

(** ** Trees in the store *)

Module HeapFacts.
Import Heap.
Import Repr.

Lemma alloc_arr xs s :
  alloc (JArr xs) s =
    let '(vs, s') := alloc_list xs s in (VRef (length s'), s' ++ [CArr vs]).
Proof. reflexivity. Qed.

Lemma alloc_obj ps s :
  alloc (JObj ps) s =
    let '(vs, s') := alloc_props ps s in (VRef (length s'), s' ++ [CObj vs]).
Proof. reflexivity. Qed.

Lemma alloc_props_list ps s :
  alloc_props ps s =
    let '(vs, s') := alloc_list (map snd ps) s in (zip (map fst ps) vs, s').
Proof.
  revert s. induction ps as [|[k x] ps IH]; intros s; simpl; [done|].
  destruct (alloc x s) as [v s1]. rewrite IH.
  by destruct (alloc_list (map snd ps) s1) as [vs s2].
Qed.

Lemma tree_forest_range s :
  (∀ lo hi v t, tree_at s lo hi v t → lo ≤ hi)%nat ∧
  (∀ lo hi vs ts, forest_at s lo hi vs ts → lo ≤ hi)%nat.
Proof. apply tree_forest_ind; intros; lia. Qed.

Lemma tree_at_range s lo hi v t : tree_at s lo hi v t → (lo ≤ hi)%nat.
Proof. apply tree_forest_range. Qed.
Lemma forest_at_range s lo hi vs ts : forest_at s lo hi vs ts → (lo ≤ hi)%nat.
Proof. apply tree_forest_range. Qed.

(** Only the cells of the range matter. *)
Lemma tree_forest_frame s :
  (∀ lo hi v t, tree_at s lo hi v t →
     ∀ s', (∀ l, lo ≤ l < hi → s' !! l = s !! l)%nat → tree_at s' lo hi v t) ∧
  (∀ lo hi vs ts, forest_at s lo hi vs ts →
     ∀ s', (∀ l, lo ≤ l < hi → s' !! l = s !! l)%nat → forest_at s' lo hi vs ts).
Proof.
  apply tree_forest_ind; intros; try by constructor.
  - pose proof (forest_at_range _ _ _ _ _ H0).
    apply ta_arr with vs; [rewrite H2; [done | lia]|]. apply H1. intros; apply H2; lia.
  - pose proof (forest_at_range _ _ _ _ _ H1).
    apply ta_obj with ps; [rewrite H3; [done | lia]| done |]. apply H2. intros; apply H3; lia.
  - pose proof (tree_at_range _ _ _ _ _ H).
    pose proof (forest_at_range _ _ _ _ _ H1).
    econstructor; [apply H0 | apply H2]; intros; apply H3; lia.
Qed.

Lemma tree_at_frame s s' lo hi v t :
  tree_at s lo hi v t → (∀ l, lo ≤ l < hi → s' !! l = s !! l)%nat →
  tree_at s' lo hi v t.
Proof. intros Ht Hs. by eapply tree_forest_frame. Qed.

Lemma forest_at_frame s s' lo hi vs ts :
  forest_at s lo hi vs ts → (∀ l, lo ≤ l < hi → s' !! l = s !! l)%nat →
  forest_at s' lo hi vs ts.
Proof. intros Ht Hs. by eapply tree_forest_frame. Qed.

Lemma forest_at_length s lo hi vs ts :
  forest_at s lo hi vs ts → length vs = length ts.
Proof. induction 1; simpl; congruence. Qed.

(** Allocation builds such a tree in the fresh part of the store. *)
Lemma alloc_tree_at t :
  ∀ s v s', alloc t s = (v, s') →
    (∃ new, s' = s ++ new) ∧ tree_at s' (length s) (length s') v t.
Proof.
  induction t as [| |b|n|str|xs IH|ps IH] using JSValue_tree_ind;
    intros s v s' Ha;
    try (simpl in Ha; injection Ha as <- <-;
         split; [exists []; by rewrite app_nil_r | constructor]).
  - rewrite alloc_arr in Ha.
    assert (Hl : ∀ s vs s1, alloc_list xs s = (vs, s1) →
              (∃ new, s1 = s ++ new) ∧ forest_at s1 (length s) (length s1) vs xs).
    { clear Ha s v s'. induction IH as [|x xs Hx _ IHxs]; intros s vs s1 Hl; simpl in Hl.
      - injection Hl as <- <-. split; [exists []; by rewrite app_nil_r | constructor].
      - destruct (alloc x s) as [v0 s0] eqn:E0.
        destruct (alloc_list xs s0) as [vs0 s2] eqn:E2.
        injection Hl as <- <-.
        destruct (Hx _ _ _ E0) as [[n0 ->] Ht].
        destruct (IHxs _ _ _ E2) as [[n2 ->] Hf].
        split; [exists (n0 ++ n2); by rewrite app_assoc|].
        econstructor; [|exact Hf].
        eapply tree_at_frame; [exact Ht|].
        intros l Hlt. rewrite (lookup_app_l (s ++ n0)); [done | lia]. }
    destruct (alloc_list xs s) as [vs s1] eqn:E.
    injection Ha as <- <-.
    destruct (Hl _ _ _ E) as [[new ->] Hf].
    split; [exists (new ++ [CArr vs]); by rewrite app_assoc|].
    replace (length ((s ++ new) ++ [CArr vs])) with (S (length (s ++ new)))
      by (rewrite !length_app; simpl; lia).
    apply ta_arr with vs.
    + by apply list_lookup_middle.
    + eapply forest_at_frame; [exact Hf|].
      intros l Hlt. rewrite lookup_app_l; [done | lia].
  - rewrite alloc_obj, alloc_props_list in Ha.
    assert (Hl : ∀ s vs s1, alloc_list (map snd ps) s = (vs, s1) →
              (∃ new, s1 = s ++ new) ∧
              forest_at s1 (length s) (length s1) vs (map snd ps)).
    { clear Ha s v s'. induction IH as [|[k x] ps Hx _ IHps]; intros s vs s1 Hl; simpl in Hl.
      - injection Hl as <- <-. split; [exists []; by rewrite app_nil_r | constructor].
      - destruct (alloc x s) as [v0 s0] eqn:E0.
        destruct (alloc_list (map snd ps) s0) as [vs0 s2] eqn:E2.
        injection Hl as <- <-.
        destruct (Hx _ _ _ E0) as [[n0 ->] Ht].
        destruct (IHps _ _ _ E2) as [[n2 ->] Hf].
        split; [exists (n0 ++ n2); by rewrite app_assoc|].
        econstructor; [|exact Hf].
        eapply tree_at_frame; [exact Ht|].
        intros l Hlt. rewrite (lookup_app_l (s ++ n0)); [done | lia]. }
    destruct (alloc_list (map snd ps) s) as [vs s1] eqn:E.
    injection Ha as <- <-.
    destruct (Hl _ _ _ E) as [[new ->] Hf].
    pose proof (forest_at_length _ _ _ _ _ Hf) as Hlen.
    rewrite length_map in Hlen.
    split; [exists (new ++ [CObj (zip (map fst ps) vs)]); by rewrite app_assoc|].
    replace (length ((s ++ new) ++ [CObj (zip (map fst ps) vs)]))
      with (S (length (s ++ new))) by (rewrite !length_app; simpl; lia).
    apply ta_obj with (zip (map fst ps) vs).
    + by apply list_lookup_middle.
    + rewrite fst_zip; [done|]. rewrite length_map. lia.
    + rewrite snd_zip; [|rewrite length_map; lia].
      eapply forest_at_frame; [exact Hf|].
      intros l Hlt. rewrite lookup_app_l; [done | lia].
Qed.

(** *** Reading a tree back *)

Lemma reify_ref f s l :
  reify (S f) s (VRef l) =
    match s !! l with
    | Some (CArr xs) => JArr <$> mapM (reify f s) xs
    | Some (CObj ps) => JObj <$> mapM (fun kv => pair kv.1 <$> reify f s kv.2) ps
    | None => None
    end.
Proof. reflexivity. Qed.

Lemma mapM_props_Some (g : val → option JSValue)
    (ps : list (string * val)) (tps : list (string * JSValue)) :
  mapM (fun kv => pair kv.1 <$> g kv.2) ps = Some tps ↔
  map fst ps = map fst tps ∧ mapM g (map snd ps) = Some (map snd tps).
Proof.
  rewrite !mapM_Some. split.
  - induction 1 as [|[k v] [k' t] ps tps Hkv _ IH]; simpl; [by split; [|constructor]|].
    destruct IH as [IH1 IH2]. simpl in Hkv.
    destruct (g v) eqn:E; [|done]. simpl in Hkv. injection Hkv as <- <-.
    split; [by f_equal|]. by constructor.
  - revert tps. induction ps as [|[k v] ps IH]; intros [|[k' t] tps] [H1 H2];
      simpl in *; try done; try (by constructor).
    injection H1 as <- H1. inversion H2 as [|? ? ? ? Hv H2']; subst.
    constructor; [simpl; by rewrite Hv|]. by apply IH.
Qed.

Lemma reify_fuel_mono f :
  ∀ s v t f', reify f s v = Some t → (f ≤ f')%nat → reify f' s v = Some t.
Proof.
  induction f as [|f IH]; intros s v t f' Hr Hf.
  - destruct v; simpl in Hr; try done; by destruct f'.
  - destruct v; try (by destruct f').
    destruct f' as [|f']; [lia|].
    rewrite reify_ref in *. destruct (s !! l) as [[xs|ps]|]; [| |done].
    + destruct (mapM (reify f s) xs) as [ts|] eqn:E; [|done].
      simpl in Hr. injection Hr as <-.
      apply mapM_Some in E.
      assert (mapM (reify f' s) xs = Some ts) as ->; [|done].
      apply mapM_Some. eapply Forall2_impl; [exact E|].
      intros x y Hxy. eapply IH; [done | lia].
    + destruct (mapM _ ps) as [tps|] eqn:E; [|done].
      simpl in Hr. injection Hr as <-.
      apply mapM_props_Some in E as [E1 E2].
      assert (mapM (fun kv => pair kv.1 <$> reify f' s kv.2) ps = Some tps) as ->; [|done].
      apply mapM_props_Some. split; [done|].
      apply mapM_Some in E2. apply mapM_Some.
      eapply Forall2_impl; [exact E2|].
      intros x y Hxy. eapply IH; [done | lia].
Qed.

(** A store that keeps every cell of [s] denotes the same trees. *)
Lemma reify_incl f :
  ∀ s s' v t, reify f s v = Some t →
    (∀ l c, s !! l = Some c → s' !! l = Some c) → reify f s' v = Some t.
Proof.
  induction f as [|f IH]; intros s s' v t Hr Hs.
  - by destruct v.
  - destruct v; try done.
    rewrite reify_ref in *. destruct (s !! l) as [c|] eqn:El; [|done].
    rewrite (Hs _ _ El). destruct c as [xs|ps].
    + destruct (mapM (reify f s) xs) as [ts|] eqn:E; [|done].
      simpl in Hr. injection Hr as <-.
      apply mapM_Some in E.
      assert (mapM (reify f s') xs = Some ts) as ->; [|done].
      apply mapM_Some. eapply Forall2_impl; [exact E|].
      intros x y Hxy. eapply (IH s s'); [exact Hxy | exact Hs].
    + destruct (mapM _ ps) as [tps|] eqn:E; [|done].
      simpl in Hr. injection Hr as <-.
      apply mapM_props_Some in E as [E1 E2].
      assert (mapM (fun kv => pair kv.1 <$> reify f s' kv.2) ps = Some tps) as ->; [|done].
      apply mapM_props_Some. split; [done|].
      apply mapM_Some in E2. apply mapM_Some.
      eapply Forall2_impl; [exact E2|].
      intros x y Hxy. eapply (IH s s'); [exact Hxy | exact Hs].
Qed.

Lemma zip_fst_snd {A B} (l : list (A * B)) : zip (map fst l) (map snd l) = l.
Proof. induction l as [|[a b] l IH]; simpl; [done|]. by rewrite IH. Qed.

Lemma tree_forest_reify s :
  (∀ lo hi v t, tree_at s lo hi v t →
     ∀ f, (hi - lo ≤ f)%nat → reify f s v = Some t) ∧
  (∀ lo hi vs ts, forest_at s lo hi vs ts →
     ∀ f, (hi - lo ≤ f)%nat → mapM (reify f s) vs = Some ts).
Proof.
  apply tree_forest_ind.
  - by intros n [|f] _.
  - by intros n [|f] _.
  - by intros n b [|f] _.
  - by intros n z [|f] _.
  - by intros n str [|f] _.
  - intros lo l vs ts Hl Hf IH f Hle.
    pose proof (forest_at_range _ _ _ _ _ Hf).
    destruct f as [|f]; [lia|]. rewrite reify_ref, Hl.
    rewrite IH by lia. done.
  - intros lo l ps tps Hl Hk Hf IH f Hle.
    pose proof (forest_at_range _ _ _ _ _ Hf).
    destruct f as [|f]; [lia|]. rewrite reify_ref, Hl.
    assert (mapM (fun kv => pair kv.1 <$> reify f s kv.2) ps = Some tps) as ->; [|done].
    apply mapM_props_Some. split; [done|]. apply IH. lia.
  - by intros n f _.
  - intros lo mid hi v vs t ts Ht IHt Hf IHf f Hle.
    pose proof (tree_at_range _ _ _ _ _ Ht).
    pose proof (forest_at_range _ _ _ _ _ Hf).
    apply mapM_Some. constructor.
    + apply IHt. lia.
    + apply mapM_Some. apply IHf. lia.
Qed.

Lemma tree_at_reify s lo hi v t f :
  tree_at s lo hi v t → (hi - lo ≤ f)%nat → reify f s v = Some t.
Proof. intros Ht. by apply tree_forest_reify. Qed.

Lemma forest_at_reify s lo hi vs ts f :
  forest_at s lo hi vs ts → (hi - lo ≤ f)%nat → mapM (reify f s) vs = Some ts.
Proof. intros Ht. by apply tree_forest_reify. Qed.

(** *** Reading through a reference *)

Lemma reify_prim f s v t :
  reify f s v = Some t → (∀ l, v ≠ VRef l) →
  t = tree_of_prim v ∧ Pure.prim_val t = v.
Proof.
  intros Hr Hv. destruct v as [| |b|n|str|l0];
    try (destruct f; simpl in Hr; injection Hr as <-; by split).
  exfalso. by apply (Hv l0).
Qed.

Lemma reify_ref_inv f s l t :
  reify f s (VRef l) = Some t →
  ∃ f', f = S f' ∧
    ((∃ xs ts, s !! l = Some (CArr xs) ∧ t = JArr ts ∧
               Forall2 (fun v t => reify f' s v = Some t) xs ts) ∨
     (∃ ps tps, s !! l = Some (CObj ps) ∧ t = JObj tps ∧
                map fst ps = map fst tps ∧
                Forall2 (fun v t => reify f' s v = Some t) (map snd ps) (map snd tps))).
Proof.
  destruct f as [|f]; [done|]. rewrite reify_ref. intros Hr. exists f. split; [done|].
  destruct (s !! l) as [[xs|ps]|]; [| |done].
  - left. destruct (mapM (reify f s) xs) as [ts|] eqn:E; [|done].
    injection Hr as <-. exists xs, ts. by apply mapM_Some in E.
  - right. destruct (mapM _ ps) as [tps|] eqn:E; [|done].
    injection Hr as <-. apply mapM_props_Some in E as [E1 E2].
    exists ps, tps. by apply mapM_Some in E2.
Qed.

Lemma assoc_get_related {A B} (R : A → B → Prop)
    (ps : list (string * A)) (tps : list (string * B)) k :
  map fst ps = map fst tps →
  Forall2 R (map snd ps) (map snd tps) →
  option_Forall2 R (assoc_get k ps) (assoc_get k tps).
Proof.
  revert tps. induction ps as [|[k1 v] ps IH]; intros [|[k2 t] tps] Hk Hv;
    simpl in *; try done; [constructor|].
  injection Hk as <- Hk. inversion Hv; subst.
  destruct (String.eqb k1 k); [by constructor | by apply IH].
Qed.

Lemma reify_isArray f s c t :
  reify f s c = Some t → isArray s c = JS.isArray t.
Proof.
  intros Hr. destruct c; try (destruct f; simpl in Hr; injection Hr as <-; done).
  apply reify_ref_inv in Hr as (f' & -> & [(xs & ts & Hl & -> & _)|(ps & tps & Hl & -> & _)]);
    simpl; by rewrite Hl.
Qed.

Lemma reify_nullish f s c t :
  reify f s c = Some t → nullish c = JS.nullish t.
Proof.
  intros Hr. destruct c; try (destruct f; simpl in Hr; injection Hr as <-; done).
  apply reify_ref_inv in Hr as (f' & -> & [(xs & ts & Hl & -> & _)|(ps & tps & Hl & -> & _)]);
    done.
Qed.

Lemma reify_array_length f s c t :
  reify f s c = Some t → array_length s c = Pure.array_length t.
Proof.
  intros Hr. destruct c; try (destruct f; simpl in Hr; injection Hr as <-; done).
  apply reify_ref_inv in Hr as (f' & -> & [(xs & ts & Hl & -> & HF)|(ps & tps & Hl & -> & _)]);
    simpl; rewrite Hl; [|done].
  by rewrite (Forall2_length _ _ _ HF).
Qed.

Lemma Forall2_lookup_default {A B} (R : A → B → Prop) (da : A) (db : B) xs ts i :
  R da db → Forall2 R xs ts → R (default da (xs !! i)) (default db (ts !! i)).
Proof.
  intros Hd HF. destruct (xs !! i) as [x|] eqn:Ex.
  - destruct (Forall2_lookup_l _ _ _ _ _ HF Ex) as (y & -> & Hxy). done.
  - apply lookup_ge_None in Ex. rewrite (Forall2_length _ _ _ HF) in Ex.
    apply lookup_ge_None in Ex. by rewrite Ex.
Qed.

Lemma reify_get_index f s c t n :
  reify f s c = Some t →
  reify f s (get_index s c n) = Some (Pure.get_index t n).
Proof.
  intros Hr. destruct c; try (destruct f; simpl in Hr; injection Hr as <-; done).
  apply reify_ref_inv in Hr as (f' & -> & [(xs & ts & Hl & -> & HF)|(ps & tps & Hl & -> & _)]);
    simpl; rewrite Hl; [|done].
  destruct (0 <=? n); [|done].
  apply (Forall2_lookup_default (fun v t => reify (S f') s v = Some t)); [done|].
  eapply Forall2_impl; [exact HF|]. intros x y Hxy.
  eapply reify_fuel_mono; [exact Hxy | lia].
Qed.

Lemma reify_get_prop f s c t k :
  reify f s c = Some t →
  reify f s (get_prop s c k) = Some (JS.get t k).
Proof.
  intros Hr. destruct c as [| |b|n|str|l];
    try (destruct f; simpl in Hr; injection Hr as <-; done).
  - assert (t = JStr str) as -> by (destruct f; simpl in Hr; congruence).
    simpl. destruct (canonical_index k) as [i|].
    + destruct (i <? String.length str)%nat; by destruct f.
    + destruct (String.eqb k "length"); by destruct f.
  - apply reify_ref_inv in Hr as (f' & -> & [(xs & ts & Hl & -> & HF)|(ps & tps & Hl & -> & Hk & HF)]);
      simpl; rewrite Hl.
    + destruct (canonical_index k) as [i|].
      * apply (Forall2_lookup_default (fun v t => reify (S f') s v = Some t)); [done|].
        eapply Forall2_impl; [exact HF|]. intros x y Hxy.
        eapply reify_fuel_mono; [exact Hxy | lia].
      * rewrite (Forall2_length _ _ _ HF). by destruct (String.eqb k "length").
    + pose proof (assoc_get_related _ ps tps k Hk HF) as Hrel.
      destruct Hrel as [v t' Hvt|]; [|done].
      change (reify (S f') s v = Some t').
      eapply reify_fuel_mono; [exact Hvt | lia].
Qed.

Lemma assoc_has_related {A B} (ps : list (string * A)) (tps : list (string * B)) k :
  map fst ps = map fst tps → assoc_has k ps = assoc_has k tps.
Proof.
  revert tps. induction ps as [|[k1 v] ps IH]; intros [|[k2 t] tps] Hk;
    simpl in *; try done.
  injection Hk as <- Hk. unfold assoc_has in *. simpl.
  destruct (String.eqb k1 k); [done | by apply IH].
Qed.

Lemma reify_has_prop f s c t k :
  reify f s c = Some t → has_prop s c k = Pure.has_prop t k.
Proof.
  intros Hr. destruct c; try (destruct f; simpl in Hr; injection Hr as <-; done).
  apply reify_ref_inv in Hr as (f' & -> & [(xs & ts & Hl & -> & HF)|(ps & tps & Hl & -> & Hk & HF)]);
    simpl; rewrite Hl.
  - by rewrite (Forall2_length _ _ _ HF).
  - by rewrite (assoc_has_related ps tps k Hk).
Qed.

Lemma nav_loop_reify parts :
  ∀ f s c t, reify f s c = Some t →
    nav_agree f s (nav_loop s parts c) (Pure.nav_loop parts t).
Proof.
  induction parts as [|part rest IH]; intros f s c t Hr; simpl.
  - repeat split; by destruct f.
  - rewrite <- (reify_isArray _ _ _ _ Hr).
    destruct (parseInt part) as [idx|], (isArray s c) eqn:Harr.
    + pose proof (reify_get_index _ _ _ _ idx Hr) as Hi.
      destruct rest as [|part' rest'].
      * simpl. rewrite (reify_array_length _ _ _ _ Hr). done.
      * rewrite <- (reify_nullish _ _ _ _ Hi).
        destruct (nullish (get_index s c idx)); [|by apply IH].
        simpl. repeat split; try done. by destruct f.
    + pose proof (reify_get_prop _ _ _ _ part Hr) as Hp.
      destruct rest as [|part' rest'].
      * rewrite <- (reify_nullish _ _ _ _ Hr), <- (reify_has_prop _ _ _ _ part Hr).
        destruct (nullish c); simpl; [done|].
        by destruct (has_prop s c part).
      * rewrite <- (reify_nullish _ _ _ _ Hp).
        destruct (nullish (get_prop s c part)); [|by apply IH].
        simpl. repeat split; try done. by destruct f.
    + pose proof (reify_get_prop _ _ _ _ part Hr) as Hp.
      destruct rest as [|part' rest'].
      * rewrite <- (reify_nullish _ _ _ _ Hr), <- (reify_has_prop _ _ _ _ part Hr).
        destruct (nullish c); simpl; [done|].
        by destruct (has_prop s c part).
      * rewrite <- (reify_nullish _ _ _ _ Hp).
        destruct (nullish (get_prop s c part)); [|by apply IH].
        simpl. repeat split; try done. by destruct f.
    + pose proof (reify_get_prop _ _ _ _ part Hr) as Hp.
      destruct rest as [|part' rest'].
      * rewrite <- (reify_nullish _ _ _ _ Hr), <- (reify_has_prop _ _ _ _ part Hr).
        destruct (nullish c); simpl; [done|].
        by destruct (has_prop s c part).
      * rewrite <- (reify_nullish _ _ _ _ Hp).
        destruct (nullish (get_prop s c part)); [|by apply IH].
        simpl. repeat split; try done. by destruct f.
Qed.

Lemma navigateToPath_reify f s obj t path :
  reify f s obj = Some t →
  nav_agree f s (navigateToPath s obj path) (Pure.navigateToPath t path).
Proof.
  intros Hr. unfold navigateToPath, Pure.navigateToPath.
  destruct (is_root_path path); [simpl; repeat split; try done; by destruct f|].
  destruct (String.eqb (cleanPath path) "");
    [simpl; repeat split; try done; by destruct f|].
  by apply nav_loop_reify.
Qed.

(** *** Assigning into a tree of the store *)

Lemma tree_at_ref_inv s lo hi l t :
  tree_at s lo hi (VRef l) t →
  hi = S l ∧
  ((∃ vs ts, s !! l = Some (CArr vs) ∧ t = JArr ts ∧ forest_at s lo l vs ts) ∨
   (∃ ps tps, s !! l = Some (CObj ps) ∧ t = JObj tps ∧ map fst ps = map fst tps ∧
              forest_at s lo l (map snd ps) (map snd tps))).
Proof.
  inversion 1; subst; (split; [done|]).
  - left. eauto.
  - right. eauto 10.
Qed.

Lemma tree_at_prim_inv s lo hi v t :
  tree_at s lo hi v t → (∀ l, v ≠ VRef l) → lo = hi ∧ t = tree_of_prim v.
Proof.
  inversion 1; subst; intros Hv; try done; by destruct (Hv l).
Qed.

(** A child of a forest, its own range, and what the forest denotes
    once the store has changed inside that range only. *)
Lemma forest_child s lo hi vs ts :
  forest_at s lo hi vs ts → ∀ i c, vs !! i = Some c →
  ∃ t lo' hi',
    ts !! i = Some t ∧ tree_at s lo' hi' c t ∧ (lo ≤ lo')%nat ∧ (hi' ≤ hi)%nat ∧
    ∀ s' t' n,
      (∀ l, ¬ (lo' ≤ l < hi')%nat → s' !! l = s !! l) →
      (∀ f, ((hi' - lo') + n ≤ f)%nat → reify f s' c = Some t') →
      ∀ f, ((hi - lo) + n ≤ f)%nat → mapM (reify f s') vs = Some (<[i := t']> ts).
Proof.
  induction 1 as [|lo mid hi v vs t ts Ht Hf IH]; intros i c Hi; [done|].
  pose proof (tree_at_range _ _ _ _ _ Ht) as Hr1.
  pose proof (forest_at_range _ _ _ _ _ Hf) as Hr2.
  destruct i as [|i]; simpl in Hi.
  - injection Hi as ->. exists t, lo, mid. repeat split; try done; try lia.
    intros s' t' n Hag Hc f Hle. apply mapM_Some. constructor.
    + apply Hc. lia.
    + apply mapM_Some. apply (forest_at_reify _ mid hi); [|lia].
      eapply forest_at_frame; [exact Hf|]. intros l Hl. apply Hag. lia.
  - destruct (IH _ _ Hi) as (t0 & lo' & hi' & Ht0 & Htr & Hlo & Hhi & Hctx).
    exists t0, lo', hi'. repeat split; try done; try lia.
    intros s' t' n Hag Hc f Hle. apply mapM_Some. simpl. constructor.
    + apply (tree_at_reify _ lo mid); [|lia].
      eapply tree_at_frame; [exact Ht|]. intros l Hl. apply Hag. lia.
    + apply mapM_Some. eapply Hctx; [exact Hag | exact Hc | lia].
Qed.

Lemma assoc_split {A} k (ps : list (string * A)) c :
  assoc_get k ps = Some c →
  ∃ i, ps !! i = Some (k, c) ∧
    ∀ B (tps : list (string * B)), map fst tps = map fst ps →
      ∀ t', assoc_set k t' tps = <[i := (k, t')]> tps ∧
            assoc_get k tps = snd <$> (tps !! i).
Proof.
  induction ps as [|[k1 v] ps IH]; simpl; [done|].
  destruct (String.eqb k1 k) eqn:E.
  - apply String.eqb_eq in E as ->. intros [= ->]. exists O. split; [done|].
    intros B [|[k2 t] tps] Hk t'; simpl in *; [done|].
    injection Hk as -> _. by rewrite String.eqb_refl.
  - intros Hg. destruct (IH Hg) as (i & Hi & Hctx). exists (S i). split; [done|].
    intros B [|[k2 t] tps] Hk t'; simpl in *; [done|].
    injection Hk as -> Hk. rewrite E. destruct (Hctx _ tps Hk t') as [-> ->]. done.
Qed.

Lemma assoc_set_related {A B} (R : A → B → Prop)
    (ps : list (string * A)) (tps : list (string * B)) k v tv :
  map fst ps = map fst tps → Forall2 R (map snd ps) (map snd tps) → R v tv →
  map fst (assoc_set k v ps) = map fst (assoc_set k tv tps) ∧
  Forall2 R (map snd (assoc_set k v ps)) (map snd (assoc_set k tv tps)).
Proof.
  intros Hk HF Hv. revert tps Hk HF.
  induction ps as [|[k1 x] ps IH]; intros [|[k2 t] tps] Hk HF; simpl in *; try done.
  - split; [done|]. by constructor.
  - injection Hk as <- Hk. inversion HF; subst.
    destruct (String.eqb k1 k); simpl.
    + split; [by f_equal|]. by constructor.
    + destruct (IH tps Hk) as [IH1 IH2]; [done|].
      split; [by f_equal|]. by constructor.
Qed.

Lemma array_set_related {A B} (R : A → B → Prop) ha hb xs ts i v tv :
  R ha hb → Forall2 R xs ts → R v tv →
  Forall2 R (array_set ha xs i v) (array_set hb ts i tv).
Proof.
  intros Hh HF Hv. unfold array_set. rewrite (Forall2_length _ _ _ HF).
  destruct (i <? length ts)%nat.
  - by apply Forall2_insert.
  - apply Forall2_app; [done|]. apply Forall2_app; [|by constructor].
    by apply Forall2_replicate.
Qed.

Lemma assign_here s lo hi c t k v tv fv :
  tree_at s lo hi c t → (hi ≤ length s)%nat →
  (∀ s', (∀ l, (l < lo)%nat → s' !! l = s !! l) → reify fv s' v = Some tv) →
  length (assign s c k v) = length s ∧
  (∀ l, ¬ (lo ≤ l < hi)%nat → assign s c k v !! l = s !! l) ∧
  (∀ f, ((hi - lo) + fv ≤ f)%nat →
        reify f (assign s c k v) c = Some (Pure.assign t k tv)).
Proof.
  intros Ht Hhi Hv.
  destruct c as [| |b|n|str|l];
    try (apply tree_at_prim_inv in Ht as [-> ->]; [|done];
         repeat split; try done; intros [|f] _; done).
  pose proof Ht as Ht0.
  apply tree_at_ref_inv in Ht
    as (-> & [(vs & ts & Hl & -> & Hf)|(ps & tps & Hl & -> & Hk & Hf)]);
    pose proof (forest_at_range _ _ _ _ _ Hf) as Hr; simpl; rewrite Hl.
  - set (idx := match k with
                | KNum n => if (0 <=? n) && (n <? max_array_index)
                            then Some (Z.to_nat n) else None
                | KStr str => canonical_index str
                end).
    destruct idx as [i|].
    + split; [by rewrite length_insert|].
      split; [intros l' Hl'; apply list_lookup_insert_ne; lia|].
      intros [|f] Hle; [lia|]. rewrite reify_ref.
      rewrite list_lookup_insert_eq by lia.
      assert (mapM (reify f (<[l:=CArr (array_set VUndefined vs i v)]> s))
                (array_set VUndefined vs i v) = Some (array_set JUndefined ts i tv))
        as ->; [|done].
      apply mapM_Some. apply array_set_related.
      * by destruct f.
      * apply mapM_Some. apply (forest_at_reify _ lo l); [|lia].
        eapply forest_at_frame; [exact Hf|].
        intros l' Hl'. apply list_lookup_insert_ne. lia.
      * eapply reify_fuel_mono; [apply Hv|lia].
        intros l' Hl'. apply list_lookup_insert_ne. lia.
    + repeat split; try done. intros f Hle. eapply tree_at_reify; [exact Ht0|lia].
  - split; [by rewrite length_insert|].
    split; [intros l' Hl'; apply list_lookup_insert_ne; lia|].
    intros [|f] Hle; [lia|]. rewrite reify_ref.
    rewrite list_lookup_insert_eq by lia.
    match goal with
    | |- JObj <$> ?m = _ =>
        assert (m = Some (assoc_set (key_to_string k) tv tps)) as ->; [|done]
    end.
    apply mapM_props_Some.
    destruct (assoc_set_related
                (fun x y => reify f (<[l:=CObj (assoc_set (key_to_string k) v ps)]> s) x
                            = Some y)
                ps tps (key_to_string k) v tv) as [E1 E2];
      [done | | | split; [exact E1 | apply mapM_Some; exact E2]].
    + apply mapM_Some. apply (forest_at_reify _ lo l); [|lia].
      eapply forest_at_frame; [exact Hf|].
      intros l' Hl'. apply list_lookup_insert_ne. lia.
    + eapply reify_fuel_mono; [apply Hv|lia].
      intros l' Hl'. apply list_lookup_insert_ne. lia.
Qed.

Lemma descend_index s lo hi c t idx fv :
  tree_at s lo hi c t →
  isArray s c = true → nullish (get_index s c idx) = false →
  ∃ lo' hi',
    tree_at s lo' hi' (get_index s c idx) (Pure.get_index t idx) ∧
    (lo ≤ lo')%nat ∧ (hi' ≤ hi)%nat ∧
    child_context s lo hi lo' hi' fv c (get_index s c idx) t (KNum idx).
Proof.
  intros Ht Harr Hn. destruct c as [| |b|n|str|l]; try done.
  apply tree_at_ref_inv in Ht
    as (-> & [(vs & ts & Hl & -> & Hf)|(ps & tps & Hl & -> & Hk & Hf)]);
    pose proof (forest_at_range _ _ _ _ _ Hf) as Hfr;
    simpl in *; rewrite Hl in *; [|done].
  destruct (0 <=? idx); [|done].
  destruct (vs !! Z.to_nat idx) as [child|] eqn:Hc; [|done]. simpl in *.
  destruct (forest_child _ _ _ _ _ Hf _ _ Hc)
    as (t0 & lo' & hi' & Ht0 & Htr & Hlo & Hhi & Hctx).
  rewrite Ht0. simpl. exists lo', hi'. repeat split; try done; try lia.
  intros s' t' Hag Hch [|f] Hle; [lia|]. rewrite reify_ref.
  rewrite Hag by lia. rewrite Hl.
  rewrite (Hctx s' t' fv Hag Hch) by lia. done.
Qed.

Lemma descend_prop s lo hi c t part fv :
  tree_at s lo hi c t →
  nullish (get_prop s c part) = false →
  ∃ lo' hi',
    tree_at s lo' hi' (get_prop s c part) (JS.get t part) ∧
    (lo ≤ lo')%nat ∧ (hi' ≤ hi)%nat ∧
    child_context s lo hi lo' hi' fv c (get_prop s c part) t (KStr part).
Proof.
  intros Ht Hn. pose proof Ht as Ht0.
  pose proof (tree_at_range _ _ _ _ _ Ht) as Hr.
  destruct c as [| |b|n|str|l]; try done.
  - (* a string: its characters and its length are not cells *)
    apply tree_at_prim_inv in Ht as [-> ->]; [|done].
    exists hi, hi. simpl in *.
    assert (Hsame : ∀ child, child_context s hi hi hi hi fv (VStr str)
                               child (JStr str) (KStr part)).
    { intros child s' t' _ _ [|f] _; done. }
    destruct (canonical_index part) as [i|].
    + destruct (i <? String.length str)%nat; [|done].
      repeat split; try done; try lia. constructor.
    + destruct (String.eqb part "length"); [|done].
      repeat split; try done; try lia. constructor.
  - apply tree_at_ref_inv in Ht
      as (-> & [(vs & ts & Hl & -> & Hf)|(ps & tps & Hl & -> & Hk & Hf)]);
      pose proof (forest_at_range _ _ _ _ _ Hf) as Hfr;
      simpl in *; rewrite Hl in *.
    + destruct (canonical_index part) as [i|] eqn:Hci.
      * destruct (vs !! i) as [child|] eqn:Hc; [|done]. simpl in *.
        destruct (forest_child _ _ _ _ _ Hf _ _ Hc)
          as (t0 & lo' & hi' & Ht1 & Htr & Hlo & Hhi & Hctx).
        rewrite Ht1. simpl. exists lo', hi'. repeat split; try done; try lia.
        intros s' t' Hag Hch [|f] Hle; [lia|]. rewrite reify_ref.
        rewrite Hag by lia. rewrite Hl. simpl. rewrite Hci.
        rewrite (Hctx s' t' fv Hag Hch) by lia. done.
      * destruct (String.eqb part "length"); [|done].
        rewrite (forest_at_length _ _ _ _ _ Hf).
        exists lo, lo. repeat split; try done; try lia; [constructor|].
        intros s' t' Hag _ f Hle. simpl. rewrite Hci.
        apply (tree_at_reify _ lo (S l)); [|lia].
        eapply tree_at_frame; [exact Ht0|]. intros l' Hl'. apply Hag. lia.
    + destruct (assoc_get part ps) as [child|] eqn:Hc; [|done]. simpl in *.
      destruct (assoc_split _ _ _ Hc) as (i & Hi & Hset).
      assert (Hci : map snd ps !! i = Some child).
      { rewrite list_lookup_fmap, Hi. done. }
      destruct (forest_child _ _ _ _ _ Hf _ _ Hci)
        as (t0 & lo' & hi' & Ht1 & Htr & Hlo & Hhi & Hctx).
      destruct (Hset _ tps (eq_sym Hk) t0) as [_ Hget].
      rewrite Hget. rewrite list_lookup_fmap in Ht1.
      destruct (tps !! i) as [[ki ti]|] eqn:Hti; [|done].
      simpl in Ht1. injection Ht1 as ->. simpl.
      assert (Hki : ki = part).
      { pose proof (f_equal (fun l => l !! i) Hk) as E. simpl in E.
        rewrite !list_lookup_fmap, Hi, Hti in E. simpl in E. congruence. }
      subst ki.
      exists lo', hi'. repeat split; try done; try lia.
      intros s' t' Hag Hch [|f] Hle; [lia|]. rewrite reify_ref.
      rewrite Hag by lia. rewrite Hl. simpl.
      destruct (Hset _ tps (eq_sym Hk) t') as [-> _].
      match goal with
      | |- JObj <$> ?m = _ =>
          assert (m = Some (<[i:=(part, t')]> tps)) as ->; [|done]
      end.
      apply mapM_props_Some. split.
      * rewrite list_fmap_insert. simpl. rewrite list_insert_id; [done|].
        rewrite list_lookup_fmap, Hti. done.
      * rewrite list_fmap_insert. simpl. apply (Hctx s' t' fv Hag Hch). lia.
Qed.

Lemma set_loop_refines parts :
  ∀ s lo hi c t v tv fv,
    tree_at s lo hi c t → (hi ≤ length s)%nat →
    (∀ s', (∀ l, (l < lo)%nat → s' !! l = s !! l) → reify fv s' v = Some tv) →
    set_agree s lo hi fv c v (nav_loop s parts c) (Pure.set_loop parts t tv).
Proof.
  induction parts as [|part rest IH]; intros s lo hi c t v tv fv Ht Hhi Hv.
  - simpl. repeat split; try done. intros f Hle.
    apply (tree_at_reify _ lo hi); [done | lia].
  - pose proof (tree_at_range _ _ _ _ _ Ht) as Hrange.
    assert (Hr : reify (hi - lo) s c = Some t) by (by eapply tree_at_reify).
    assert (Hdown : ∀ lo' hi' child tchild k,
               tree_at s lo' hi' child tchild → (lo ≤ lo')%nat → (hi' ≤ hi)%nat →
               child_context s lo hi lo' hi' fv c child t k →
               set_agree s lo hi fv c v
                 (nav_loop s rest child)
                 (let+ r := Pure.set_loop rest tchild tv in Ok (Pure.with_child t k r))).
    { intros lo' hi' child tchild k Htc Hlo Hhi' Hctx.
      assert (Hv' : ∀ s', (∀ l, (l < lo')%nat → s' !! l = s !! l) →
                          reify fv s' v = Some tv).
      { intros s' Hag. apply Hv. intros l Hl. apply Hag. lia. }
      pose proof (IH s lo' hi' child tchild v tv fv Htc ltac:(lia) Hv') as Hrec.
      unfold set_agree in *.
      destruct (nav_loop s rest child) as [nav|e],
               (Pure.set_loop rest tchild tv) as [t'|e']; simpl; try done.
      destruct Hrec as (Hlen & Hag & Hre). repeat split; try done.
      - intros l Hl. apply Hag. lia.
      - intros f Hle. by apply (Hctx _ t' Hag Hre). }
    simpl. rewrite <- (reify_isArray _ _ _ _ Hr).
    destruct (parseInt part) as [idx|] eqn:Hpi, (isArray s c) eqn:Harr.
    + destruct rest as [|part' rest'].
      * simpl. by apply assign_here.
      * pose proof (reify_get_index _ _ _ _ idx Hr) as Hi.
        rewrite <- (reify_nullish _ _ _ _ Hi).
        destruct (nullish (get_index s c idx)) eqn:Hn.
        { simpl. by apply assign_here. }
        destruct (descend_index s lo hi c t idx fv Ht Harr Hn)
          as (lo' & hi' & Htc & Hlo & Hhi' & Hctx).
        by apply (Hdown lo' hi').
    + destruct rest as [|part' rest'].
      * rewrite <- (reify_nullish _ _ _ _ Hr), <- (reify_has_prop _ _ _ _ part Hr).
        destruct (nullish c); simpl; [by apply assign_here|].
        destruct (has_prop s c part); simpl; [by apply assign_here | done].
      * pose proof (reify_get_prop _ _ _ _ part Hr) as Hp.
        rewrite <- (reify_nullish _ _ _ _ Hp).
        destruct (nullish (get_prop s c part)) eqn:Hn.
        { simpl. by apply assign_here. }
        destruct (descend_prop s lo hi c t part fv Ht Hn)
          as (lo' & hi' & Htc & Hlo & Hhi' & Hctx).
        by apply (Hdown lo' hi').
    + destruct rest as [|part' rest'].
      * rewrite <- (reify_nullish _ _ _ _ Hr), <- (reify_has_prop _ _ _ _ part Hr).
        destruct (nullish c); simpl; [by apply assign_here|].
        destruct (has_prop s c part); simpl; [by apply assign_here | done].
      * pose proof (reify_get_prop _ _ _ _ part Hr) as Hp.
        rewrite <- (reify_nullish _ _ _ _ Hp).
        destruct (nullish (get_prop s c part)) eqn:Hn.
        { simpl. by apply assign_here. }
        destruct (descend_prop s lo hi c t part fv Ht Hn)
          as (lo' & hi' & Htc & Hlo & Hhi' & Hctx).
        by apply (Hdown lo' hi').
    + destruct rest as [|part' rest'].
      * rewrite <- (reify_nullish _ _ _ _ Hr), <- (reify_has_prop _ _ _ _ part Hr).
        destruct (nullish c); simpl; [by apply assign_here|].
        destruct (has_prop s c part); simpl; [by apply assign_here | done].
      * pose proof (reify_get_prop _ _ _ _ part Hr) as Hp.
        rewrite <- (reify_nullish _ _ _ _ Hp).
        destruct (nullish (get_prop s c part)) eqn:Hn.
        { simpl. by apply assign_here. }
        destruct (descend_prop s lo hi c t part fv Ht Hn)
          as (lo' & hi' & Htc & Hlo & Hhi' & Hctx).
        by apply (Hdown lo' hi').
Qed.

Lemma nav_parent_not_nullish parts :
  ∀ s c nav, parts ≠ [] → nullish c = false →
    nav_loop s parts c = Ok nav → nullish (parent nav) = false.
Proof.
  induction parts as [|part rest IH]; intros s c nav Hne Hc Hnav; [done|].
  simpl in Hnav.
  destruct (parseInt part) as [idx|], (isArray s c), rest as [|part' rest'];
    try (injection Hnav as <-; done);
    try (match type of Hnav with
         | (if ?b then _ else _) = _ =>
             destruct b eqn:Hn; [injection Hnav as <-; done | by eapply IH]
         end);
    rewrite Hc in Hnav; destruct (has_prop s c part); simpl in Hnav;
    try done; injection Hnav as <-; done.
Qed.

Lemma nav_parent_null parts s nav :
  parts ≠ [] → nav_loop s parts VNull = Ok nav → parent nav = VNull.
Proof.
  destruct parts as [|part rest]; [done|]. intros _. simpl.
  destruct (parseInt part), rest; simpl; intros [= <-]; done.
Qed.

Lemma reify_undefined f s v : reify f s v = Some JUndefined → v = VUndefined.
Proof.
  destruct v as [| |b|n|str|l]; try (by destruct f).
  intros Hr. apply reify_ref_inv in Hr
    as (f' & -> & [(? & ? & _ & ? & _)|(? & ? & _ & ? & _)]); done.
Qed.

Lemma alloc_nullish t s : nullish (alloc t s).1 = JS.nullish t.
Proof.
  destruct t; try done.
  - rewrite alloc_arr. by destruct (alloc_list _ _).
  - rewrite alloc_obj. by destruct (alloc_props _ _).
Qed.

Lemma json_norm_nullish t : JS.nullish (json_norm t) = JS.nullish t.
Proof. by destruct t. Qed.

Lemma pure_setValueAtPath_unfold t path tv :
  is_root_path path = false → t ≠ JUndefined →
  Pure.setValueAtPath t path tv =
    if String.eqb (cleanPath path) "" then Ok tv
    else match path_parts path with
         | [] => Ok tv
         | parts =>
             if JS.is_null (json_norm t) then Ok tv
             else Pure.set_loop parts (json_norm t) tv
         end.
Proof.
  intros Hroot Ht. unfold Pure.setValueAtPath. rewrite Hroot. by destruct t.
Qed.

(** [setValueAtPath] on the store computes the rebuilt tree, in fresh
    cells: no cell of the store it started from is written. *)
Theorem setValueAtPath_refines s obj path v t tv fv :
  reify (length s) s obj = Some t →
  reify fv s v = Some tv →
  match Heap.setValueAtPath s obj path v with
  | (Ok r, s') =>
      ∃ t', Pure.setValueAtPath t path tv = Ok t' ∧
            (length s ≤ length s')%nat ∧
            (∀ l, (l < length s)%nat → s' !! l = s !! l) ∧
            (∀ f, ((length s' - length s) + fv ≤ f)%nat → reify f s' r = Some t')
  | (Throw e, s') =>
      Pure.setValueAtPath t path tv = Throw e ∧
      (∀ l, (l < length s)%nat → s' !! l = s !! l)
  end.
Proof.
  intros Hobj Hv. unfold Heap.setValueAtPath.
  destruct (is_root_path path) eqn:Eroot.
  { unfold Pure.setValueAtPath. rewrite Eroot.
    exists tv. repeat split; try done. intros f Hle.
    eapply reify_fuel_mono; [exact Hv | lia]. }
  unfold json_clone.
  destruct (decide (obj = VUndefined)) as [->|Hundef].
  { assert (t = JUndefined) as -> by (destruct (length s); simpl in Hobj; congruence).
    unfold Pure.setValueAtPath. rewrite Eroot. done. }
  assert (Ht : t ≠ JUndefined).
  { intros ->. by apply reify_undefined in Hobj. }
  rewrite (pure_setValueAtPath_unfold _ _ _ Eroot Ht).
  assert (Hclone :
    (match obj with
     | VUndefined => (Throw undefined_SyntaxError, s)
     | _ => match reify (length s) s obj with
            | Some t => let '(v, s') := alloc (json_norm t) s in (Ok v, s')
            | None => (Throw circular_TypeError, s)
            end
     end) = (let '(v, s') := alloc (json_norm t) s in (Ok v, s'))).
  { rewrite Hobj. by destruct obj. }
  rewrite Hclone. clear Hclone.
  destruct (alloc (json_norm t) s) as [r s1] eqn:Ea.
  destruct (alloc_tree_at _ _ _ _ Ea) as [[new ->] Htree].
  assert (Hincl : ∀ l c, s !! l = Some c → (s ++ new) !! l = Some c).
  { intros l c Hl. rewrite lookup_app_l; [done|]. by eapply lookup_lt_Some. }
  assert (Hbelow : ∀ l, (l < length s)%nat → (s ++ new) !! l = s !! l).
  { intros l Hl. by rewrite lookup_app_l. }
  assert (Hlen : (length s ≤ length (s ++ new))%nat) by (rewrite length_app; lia).
  assert (Hwhole : ∃ t', Ok tv = Ok t' ∧
            (length s ≤ length (s ++ new))%nat ∧
            (∀ l, (l < length s)%nat → (s ++ new) !! l = s !! l) ∧
            (∀ f, ((length (s ++ new) - length s) + fv ≤ f)%nat →
                  reify f (s ++ new) v = Some t')).
  { exists tv. repeat split; try done.
    intros f Hle. eapply reify_fuel_mono; [|instantiate (1 := fv); lia].
    by eapply reify_incl. }
  unfold navigateToPath. rewrite Eroot.
  destruct (String.eqb (cleanPath path) "") eqn:Eclean; [simpl; exact Hwhole|].
  destruct (path_parts path) as [|part rest] eqn:Eparts; [simpl; exact Hwhole|].
  destruct (JS.is_null (json_norm t)) eqn:Enull.
  { assert (r = VNull) as ->.
    { destruct t; try done. simpl in Ea. congruence. }
    destruct (nav_loop (s ++ new) (part :: rest) VNull) as [nav|e] eqn:En.
    - rewrite (nav_parent_null (part :: rest) _ _ ltac:(done) En). exact Hwhole.
    - exfalso. simpl in En.
      destruct (parseInt part), rest; simpl in En; done. }
  assert (Hr : nullish r = false).
  { pose proof (alloc_nullish (json_norm t) s) as Hn. rewrite Ea in Hn. simpl in Hn.
    rewrite Hn, json_norm_nullish. destruct t; try done. }
  pose proof (set_loop_refines (part :: rest) (s ++ new) (length s) (length (s ++ new))
                r (json_norm t) v tv fv Htree ltac:(lia)) as Hmain.
  assert (Hv' : ∀ s', (∀ l, (l < length s)%nat → s' !! l = (s ++ new) !! l) →
                      reify fv s' v = Some tv).
  { intros s' Hag. eapply reify_incl; [exact Hv|].
    intros l c Hl. rewrite Hag; [by apply Hincl|]. by eapply lookup_lt_Some. }
  specialize (Hmain Hv'). unfold set_agree in Hmain.
  destruct (nav_loop (s ++ new) (part :: rest) r) as [nav|e] eqn:En,
           (Pure.set_loop (part :: rest) (json_norm t) tv) as [t'|e'] eqn:Ep;
    try done.
  - pose proof (nav_parent_not_nullish (part :: rest) _ _ _ ltac:(done) Hr En) as Hp.
    destruct Hmain as (Hl1 & Hag & Hre).
    assert (Hgoal :
      ∃ t'0, Ok t' = Ok t'0 ∧
        (length s ≤ length (assign (s ++ new) (parent nav) (key nav) v))%nat ∧
        (∀ l, (l < length s)%nat →
              assign (s ++ new) (parent nav) (key nav) v !! l = s !! l) ∧
        (∀ f, ((length (assign (s ++ new) (parent nav) (key nav) v) - length s) + fv ≤ f)%nat →
              reify f (assign (s ++ new) (parent nav) (key nav) v) r = Some t'0)).
    { exists t'. split; [done|]. rewrite Hl1. split; [done|]. split.
      - intros l Hl. rewrite Hag by lia. by apply Hbelow.
      - intros f Hle. by apply Hre. }
    destruct (parent nav); try done; exact Hgoal.
  - subst e'. split; [done|]. exact Hbelow.
Qed.

End HeapFacts.

(** [setValueAtPath] on trees is the rebuilt tree. *)
Theorem setValueAtPath_pure obj path value :
  setValueAtPath obj path value = Pure.setValueAtPath obj path value.
Proof.
  unfold setValueAtPath.
  destruct (Heap.alloc obj []) as [o s0] eqn:Eo.
  destruct (Heap.alloc value s0) as [v s1] eqn:Ev.
  destruct (HeapFacts.alloc_tree_at _ _ _ _ Eo) as [_ Ho].
  destruct (HeapFacts.alloc_tree_at _ _ _ _ Ev) as [[new ->] Hv].
  simpl in Ho.
  assert (Hobj : Heap.reify (length (s0 ++ new)) (s0 ++ new) o = Some obj).
  { eapply HeapFacts.reify_incl.
    - apply (HeapFacts.tree_at_reify _ 0 (length s0)); [exact Ho|].
      rewrite length_app. lia.
    - intros l c Hl. rewrite lookup_app_l; [done|]. by eapply lookup_lt_Some. }
  assert (Hval : Heap.reify (length (s0 ++ new) - length s0) (s0 ++ new) v = Some value).
  { by apply (HeapFacts.tree_at_reify _ (length s0) (length (s0 ++ new))). }
  pose proof (HeapFacts.setValueAtPath_refines _ _ path _ _ _ _ Hobj Hval) as Href.
  destruct (Heap.setValueAtPath (s0 ++ new) o path v) as [[r|e] s2].
  - destruct Href as (t' & -> & Hlen & _ & Hre).
    rewrite Hre; [done|]. rewrite length_app in *. lia.
  - by destruct Href as [-> _].
Qed.

(** ** Path addressing on trees: the path [$.a.b[0]] *)

Module PathFacts.
Import Heap.

Lemma get_json_norm t k :
  JS.nullish (JS.get t k) = false →
  JS.get (json_norm t) k = json_norm (JS.get t k).
Proof.
  destruct t as [| |b|n|str|xs|ps]; try done.
  - simpl. destruct (canonical_index k) as [i|].
    + by destruct (i <? String.length str)%nat.
    + by destruct (String.eqb k "length").
  - simpl. destruct (canonical_index k) as [i|].
    + rewrite list_lookup_fmap. destruct (xs !! i) as [x|]; [|done].
      simpl. by destruct x.
    + rewrite length_map. by destruct (String.eqb k "length").
  - simpl. induction ps as [|[k1 x] ps IH]; simpl; [done|].
    destruct (String.eqb k1 k) eqn:E.
    + intros Hx. destruct x; try done; simpl; by rewrite E.
    + intros Hx. destruct x; simpl; rewrite ?E; by apply IH.
Qed.

Lemma json_norm_isArray t : JS.isArray (json_norm t) = JS.isArray t.
Proof. by destruct t. Qed.

(** A key that is neither an index nor [length] is found in objects
    only. *)
Lemma get_named_is_object t k :
  canonical_index k = None → String.eqb k "length" = false →
  JS.nullish (JS.get t k) = false →
  ∃ ps, t = JObj ps.
Proof.
  intros Hk Hl. destruct t as [| |b|n|str|xs|ps]; simpl; try done.
  - by rewrite Hk, Hl.
  - by rewrite Hk, Hl.
  - eauto.
Qed.

Lemma get_with_child_obj ps k child :
  JS.get (Pure.with_child (JObj ps) (KStr k) child) k = child.
Proof. simpl. by rewrite assoc_get_set_eq. Qed.

Lemma nav_ab0 t :
  Pure.navigateToPath t path_ab0 =
    let ta := JS.get t "a" in
    let tb := JS.get ta "b" in
    if JS.nullish ta then Ok (Pure.mkNav t (KStr "a") false JUndefined)
    else if JS.nullish tb then Ok (Pure.mkNav ta (KStr "b") false JUndefined)
    else if JS.isArray tb
    then Ok (Pure.mkNav tb (KNum 0) ((0 <=? 0) && (0 <? Pure.array_length tb))
               (Pure.get_index tb 0))
    else let+ ex := Pure.has_prop tb "0" in
         Ok (Pure.mkNav tb (KStr "0") ex (JS.get tb "0")).
Proof.
  unfold Pure.navigateToPath.
  change (is_root_path path_ab0) with false.
  change (String.eqb (cleanPath path_ab0) "") with false.
  change (path_parts path_ab0) with ["a"; "b"; "0"].
  cbn [Pure.nav_loop].
  change (parseInt "a") with (@None Z).
  change (parseInt "b") with (@None Z).
  change (parseInt "0") with (Some 0).
  cbv iota beta zeta.
  destruct (JS.nullish (JS.get t "a")); [done|].
  destruct (JS.nullish (JS.get (JS.get t "a") "b")); done.
Qed.

Lemma set_ab0 t v :
  t ≠ JUndefined → JS.is_null (json_norm t) = false →
  Pure.setValueAtPath t path_ab0 v =
    let nt := json_norm t in
    let na := JS.get nt "a" in
    let nb := JS.get na "b" in
    if JS.nullish na then Ok (Pure.assign nt (KStr "a") v)
    else
      let+ child_a :=
        (if JS.nullish nb then Ok (Pure.assign na (KStr "b") v)
         else
           let+ child_b :=
             (if JS.isArray nb then Ok (Pure.assign nb (KNum 0) v)
              else let+ _ := Pure.has_prop nb "0" in
                   Ok (Pure.assign nb (KStr "0") v)) in
           Ok (Pure.with_child na (KStr "b") child_b)) in
      Ok (Pure.with_child nt (KStr "a") child_a).
Proof.
  intros Ht Hn.
  rewrite (HeapFacts.pure_setValueAtPath_unfold t path_ab0 v eq_refl Ht).
  change (String.eqb (cleanPath path_ab0) "") with false.
  change (path_parts path_ab0) with ["a"; "b"; "0"].
  cbv iota beta. rewrite Hn.
  cbn [Pure.set_loop].
  change (parseInt "a") with (@None Z).
  change (parseInt "b") with (@None Z).
  change (parseInt "0") with (Some 0).
  cbv iota beta zeta.
  destruct (JS.nullish (JS.get (json_norm t) "a")); [done|].
  destruct (JS.nullish (JS.get (JS.get (json_norm t) "a") "b")); done.
Qed.

(** On trees: where [$.a.b[0]] exists, writing 5 there and navigating
    again finds 5. *)
Lemma pure_set_then_navigate t pnav :
  Pure.navigateToPath t path_ab0 = Ok pnav → Pure.exists_ pnav = true →
  ∃ t', Pure.setValueAtPath t path_ab0 (JNum 5) = Ok t' ∧
    ∃ pnav', Pure.navigateToPath t' path_ab0 = Ok pnav' ∧
             Pure.exists_ pnav' = true ∧ Pure.value pnav' = JNum 5.
Proof.
  rewrite nav_ab0. cbv zeta.
  destruct (JS.nullish (JS.get t "a")) eqn:Ha; [by intros [= <-]|].
  destruct (JS.nullish (JS.get (JS.get t "a") "b")) eqn:Hb; [by intros [= <-]|].
  destruct (get_named_is_object t "a" eq_refl eq_refl Ha) as [ps ->].
  destruct (get_named_is_object _ "b" eq_refl eq_refl Hb) as [psa Hpsa].
  intros Hnav Hex.
  rewrite set_ab0 by done. cbv zeta.
  rewrite (get_json_norm _ "a" Ha), Hpsa.
  assert (Hb' : JS.nullish (JS.get (JObj psa) "b") = false) by (by rewrite <- Hpsa).
  rewrite (get_json_norm _ "b" Hb').
  rewrite !HeapFacts.json_norm_nullish, Hb'.
  change (JS.nullish (JObj psa)) with false. cbv iota.
  rewrite json_norm_isArray.
  rewrite Hpsa in Hnav.
  set (tb := JS.get (JObj psa) "b") in *.
  assert (Hlast : ∃ tb', 
    (if JS.isArray tb then Ok (Pure.assign (json_norm tb) (KNum 0) (JNum 5))
     else let+ _ := Pure.has_prop (json_norm tb) "0" in
          Ok (Pure.assign (json_norm tb) (KStr "0") (JNum 5))) = Ok tb' ∧
    JS.nullish tb' = false ∧
    ∃ pnav', (if JS.isArray tb'
              then Ok (Pure.mkNav tb' (KNum 0)
                         ((0 <=? 0) && (0 <? Pure.array_length tb'))
                         (Pure.get_index tb' 0))
              else let+ ex := Pure.has_prop tb' "0" in
                   Ok (Pure.mkNav tb' (KStr "0") ex (JS.get tb' "0"))) = Ok pnav' ∧
             Pure.exists_ pnav' = true ∧ Pure.value pnav' = JNum 5).
  { clearbody tb. clear Hpsa Hb Ha Hb'.
    destruct tb as [| |b|n|str|xs|psb]; simpl in Hnav; try done.
    - injection Hnav as <-. simpl in Hex.
      destruct xs as [|x xs]; [done|].
      eexists. split; [reflexivity|]. split; [done|].
      eexists. split; [reflexivity|]. done.
    - eexists. split; [reflexivity|]. split; [done|]. simpl.
      eexists. split; [reflexivity|]. simpl.
      unfold assoc_has. by rewrite assoc_get_set_eq. }
  destruct Hlast as (tb' & -> & Hnb & pnav' & Hnav' & Hex' & Hval').
  simpl bindR.
  eexists. split; [reflexivity|].
  exists pnav'. split; [|done].
  rewrite nav_ab0. cbv zeta.
  simpl JS.get. rewrite !assoc_get_set_eq. simpl JS.get.
  rewrite !assoc_get_set_eq. simpl.
  rewrite Hnb. exact Hnav'.
Qed.

End PathFacts.

Lemma reify_number f s v n : Heap.reify f s v = Some (JNum n) → v = Heap.VNum n.
Proof.
  destruct v as [| |b|m|str|l]; try (destruct f; simpl; congruence).
  intros Hr. apply HeapFacts.reify_ref_inv in Hr
    as (f' & -> & [(? & ? & _ & ? & _)|(? & ? & _ & ? & _)]); done.
Qed.

(** The value returned by [setValueAtPath] is either the value written or
    the root of the clone, which lives in fresh cells. *)
Lemma setValueAtPath_result s obj path v r s' :
  Heap.setValueAtPath s obj path v = (Ok r, s') →
  r = v ∨ (∀ l, r = Heap.VRef l → (length s ≤ l)%nat).
Proof.
  unfold Heap.setValueAtPath, Heap.json_clone.
  destruct (Heap.is_root_path path); [intros [= <- <-]; by left|].
  destruct obj as [| |b|n|str|l0]; try done;
    (destruct (Heap.reify (length s) s _) as [t|]; [|done]);
    destruct (Heap.alloc (Heap.json_norm t) s) as [c s1] eqn:Ea;
    destruct (HeapFacts.alloc_tree_at _ _ _ _ Ea) as [_ Htree];
    (destruct (Heap.navigateToPath s1 c path) as [nav|e]; [|done]);
    (destruct (Heap.parent nav); intros [= <- <-]; try (by left));
    right; intros l1 ->;
    apply HeapFacts.tree_at_ref_inv in Htree as [Hhi Hc];
    destruct Hc as [(? & ? & _ & _ & Hf)|(? & ? & _ & _ & _ & Hf)];
    apply HeapFacts.forest_at_range in Hf; lia.
Qed.

(** C6. For every object [obj] that can be serialised and on which
    [$.a.b[0]] exists, [setValueAtPath(obj, "$.a.b[0]", 5)] returns a new
    object on which navigating to [$.a.b[0]] yields the value 5 with
    [exists = true]; the call writes no cell of the store it started from,
    so [obj] still denotes the tree it denoted before. *)
Theorem setValueAtPath_then_navigate
    (s : list Heap.cell) (obj : Heap.val) (t : JSValue) (nav : Heap.NavResult) :
  Heap.reify (length s) s obj = Some t →
  Heap.navigateToPath s obj "$.a.b[0]" = Ok nav →
  Heap.exists_ nav = true →
  ∃ r s',
    Heap.setValueAtPath s obj "$.a.b[0]" (Heap.VNum 5) = (Ok r, s') ∧
    (∃ nav', Heap.navigateToPath s' r "$.a.b[0]" = Ok nav' ∧
             Heap.exists_ nav' = true ∧ Heap.value nav' = Heap.VNum 5) ∧
    (∃ l, r = Heap.VRef l ∧ (length s ≤ l)%nat) ∧
    (∀ l, (l < length s)%nat → s' !! l = s !! l) ∧
    Heap.reify (length s) s' obj = Some t.
Proof.
  intros Hobj Hnav Hex.
  pose proof (HeapFacts.navigateToPath_reify _ _ _ _ "$.a.b[0]" Hobj) as Hag.
  rewrite Hnav in Hag. unfold Repr.nav_agree in Hag.
  destruct (Pure.navigateToPath t "$.a.b[0]") as [pnav|] eqn:Hp; [|done].
  destruct Hag as (_ & Hex' & _). rewrite Hex in Hex'. symmetry in Hex'.
  destruct (PathFacts.pure_set_then_navigate t pnav Hp Hex')
    as (t' & Hset & pnav' & Hnav' & Hex'' & Hval).
  assert (H5 : Heap.reify 0 s (Heap.VNum 5) = Some (JNum 5)) by done.
  pose proof (HeapFacts.setValueAtPath_refines s obj "$.a.b[0]" _ _ _ _ Hobj H5) as Href.
  destruct (Heap.setValueAtPath s obj "$.a.b[0]" (Heap.VNum 5)) as [[r|e] s'] eqn:Es;
    [|destruct Href as [Href _]; unfold path_ab0 in Hset; congruence].
  destruct Href as (t'' & Hset' & Hlen & Hbelow & Hre).
  unfold path_ab0 in *.
  assert (t'' = t') as -> by congruence.
  exists r, s'. split; [done|].
  pose proof (Hre _ (Nat.le_refl _)) as Hr.
  pose proof (HeapFacts.navigateToPath_reify _ _ _ _ "$.a.b[0]" Hr) as Hag.
  rewrite Hnav' in Hag. unfold Repr.nav_agree in Hag.
  destruct (Heap.navigateToPath s' r "$.a.b[0]") as [nav'|] eqn:Hn'; [|done].
  destruct Hag as (_ & Hex3 & Hv3 & _).
  rewrite Hval in Hv3. apply reify_number in Hv3.
  split; [exists nav'; repeat split; congruence|].
  split.
  - destruct (setValueAtPath_result _ _ _ _ _ _ Es) as [->|Hfresh].
    + exfalso. clear -Hn' Hex3 Hex''. revert Hn'. intros [= <-]. simpl in Hex3. congruence.
    + destruct r as [| |b|n|str|l]; try (exfalso; clear -Hn' Hex3 Hex''; revert Hn';
        intros [= <-]; simpl in Hex3; congruence).
      exists l. split; [done|]. by apply Hfresh.
  - split; [exact Hbelow|].
    eapply HeapFacts.reify_incl; [exact Hobj|].
    intros l c Hl. rewrite Hbelow; [done|]. by eapply lookup_lt_Some.
Qed.

Lemma setValueAtPath_then_navigate_witness :
  let s := [Heap.CArr [Heap.VNum 1; Heap.VNum 2];
            Heap.CObj [("b", Heap.VRef 0)];
            Heap.CObj [("a", Heap.VRef 1); ("c", Heap.VStr "x")]] in
  ∃ r s',
    Heap.setValueAtPath s (Heap.VRef 2) "$.a.b[0]" (Heap.VNum 5) = (Ok r, s') ∧
    (∃ nav', Heap.navigateToPath s' r "$.a.b[0]" = Ok nav' ∧
             Heap.exists_ nav' = true ∧ Heap.value nav' = Heap.VNum 5) ∧
    (∃ l, r = Heap.VRef l ∧ (length s ≤ l)%nat) ∧
    (∀ l, (l < length s)%nat → s' !! l = s !! l) ∧
    Heap.reify (length s) s' (Heap.VRef 2)
      = Some (JObj [("a", JObj [("b", JArr [JNum 1; JNum 2])]); ("c", JStr "x")]).
Proof.
  apply (setValueAtPath_then_navigate
           [Heap.CArr [Heap.VNum 1; Heap.VNum 2];
            Heap.CObj [("b", Heap.VRef 0)];
            Heap.CObj [("a", Heap.VRef 1); ("c", Heap.VStr "x")]]
           (Heap.VRef 2)
           (JObj [("a", JObj [("b", JArr [JNum 1; JNum 2])]); ("c", JStr "x")])
           (Heap.mkNav (Heap.VRef 0) (Heap.KNum 0) true (Heap.VNum 1)));
    reflexivity.
Defined.

(** ** Path addressing: a segment below a primitive *)

(** C10. [navigateToPath] is not total: when the last segment is looked up
    in a primitive other than [null] and [undefined], the membership test
    throws a [TypeError] instead of yielding [exists = false].  So
    [navigateToPath({a: 5}, "$.a.b")] throws, and [setValueAtPath] on the
    same input throws as well. *)
Theorem navigateToPath_throws_below_primitive :
  (∀ (s : list Heap.cell) (k : string) (p : Heap.val),
      is_primitive p = true →
      Heap.nav_loop s [k] p = Throw (Heap.in_TypeError k p)) ∧
  Heap.navigateToPath [Heap.CObj [("a", Heap.VNum 5)]] (Heap.VRef 0) "$.a.b"
    = Throw (ErrorObj "TypeError" "Cannot use 'in' operator to search for 'b' in 5") ∧
  (∀ v, (Heap.setValueAtPath [Heap.CObj [("a", Heap.VNum 5)]] (Heap.VRef 0) "$.a.b" v).1
    = Throw (ErrorObj "TypeError" "Cannot use 'in' operator to search for 'b' in 5")) ∧
  (∀ v, setValueAtPath (JObj [("a", JNum 5)]) "$.a.b" v
    = Throw (ErrorObj "TypeError" "Cannot use 'in' operator to search for 'b' in 5")).
Proof.
  split.
  { intros s k p Hp. destruct p; try discriminate; simpl; by destruct (parseInt k). }
  split; [reflexivity|].
  split; [intros v; reflexivity|].
  intros v. rewrite setValueAtPath_pure. reflexivity.
Qed.

Lemma navigateToPath_throws_below_primitive_witness :
  Heap.nav_loop [] ["b"] (Heap.VNum 5) = Throw (Heap.in_TypeError "b" (Heap.VNum 5)).
Proof.
  apply (proj1 navigateToPath_throws_below_primitive [] "b" (Heap.VNum 5)).
  reflexivity.
Defined.

(** ** The dashboard tools *)

Section ToolFacts.
Import Tools.

Lemma component_of_put_eq id c st : component_of (put_component id c st) id = c.
Proof. unfold component_of, put_component. simpl. by rewrite assoc_get_set_eq. Qed.

Lemma component_of_put_ne id id' c st :
  id ≠ id' → component_of (put_component id c st) id' = component_of st id'.
Proof.
  intros Hne. unfold component_of, put_component. simpl.
  by rewrite assoc_get_set_ne.
Qed.

Lemma existsb_assoc_set {A} (Q : A → bool) k c (cs : list (string * A)) :
  Q c = true → existsb (fun kv => Q kv.2) (assoc_set k c cs) = true.
Proof.
  intros Hc. induction cs as [|[k' c'] cs IH]; simpl.
  - by rewrite Hc.
  - destruct (String.eqb k' k); simpl; [by rewrite Hc|].
    rewrite IH. apply orb_true_r.
Qed.

Lemma existsb_assoc_del {A} (Q : A → bool) k (cs : list (string * A)) :
  existsb (fun kv => Q kv.2) cs = false →
  existsb (fun kv => Q kv.2) (assoc_del k cs) = false.
Proof.
  induction cs as [|[k' c'] cs IH]; simpl; [done|].
  intros [H1 H2]%orb_false_iff.
  destruct (String.eqb k' k); simpl; [by apply IH|].
  rewrite H1. by apply IH.
Qed.

Lemma existsb_assoc_del_set {A} (Q : A → bool) k c (cs : list (string * A)) :
  existsb (fun kv => Q kv.2) cs = false →
  existsb (fun kv => Q kv.2) (assoc_del k (assoc_set k c cs)) = false.
Proof.
  induction cs as [|[k' c'] cs IH]; simpl.
  - by rewrite String.eqb_refl.
  - intros [H1 H2]%orb_false_iff.
    destruct (String.eqb k' k) eqn:E; simpl.
    + rewrite String.eqb_refl. by apply existsb_assoc_del.
    + rewrite E. simpl. rewrite H1. by apply IH.
Qed.

(** The scan of [create_component] for the occupant of an area finds
    the component just stored there. *)
Lemma find_in_area_put area id c cs :
  Forall (fun kv => JS.nullish kv.2 = false) cs →
  existsb (fun kv => JS.is_string (JS.get kv.2 "gridArea") area) cs = false →
  JS.nullish c = false →
  JS.is_string (JS.get c "gridArea") area = true →
  find_in_area area (assoc_set id c cs) = Ok c.
Proof.
  intros Hobj Hfree Hc Harea.
  induction cs as [|[k' c'] cs IH]; simpl.
  - unfold JS.prop. rewrite Hc. simpl. by rewrite Harea.
  - inversion Hobj as [|? ? Hc' Hobj']; subst. simpl in Hc'.
    simpl in Hfree. apply orb_false_iff in Hfree as [H1 H2].
    destruct (String.eqb k' id); simpl.
    + unfold JS.prop. rewrite Hc. simpl. by rewrite Harea.
    + unfold JS.prop. rewrite Hc'. simpl. rewrite H1. by apply IH.
Qed.

Lemma create_component_ok `{GridUtils} now p st :
  JS.truthy (component_of st (cp_id p)) = false →
  isValidGridArea (cp_gridArea p) (templateAreas (grid st)) = true →
  isGridAreaOccupied (cp_gridArea p) st = false →
  ∃ r, create_component now p st
         = (r, put_component (cp_id p) (newComponent now p) st) ∧
       success r = true.
Proof.
  intros Hid Hvalid Hfree. unfold create_component.
  rewrite Hid, Hvalid, Hfree. simpl. eauto.
Qed.

Lemma create_component_occupied `{GridUtils} now p st c :
  JS.truthy (component_of st (cp_id p)) = false →
  isValidGridArea (cp_gridArea p) (templateAreas (grid st)) = true →
  isGridAreaOccupied (cp_gridArea p) st = true →
  find_in_area (cp_gridArea p) (components st) = Ok c →
  create_component now p st
    = (fail ("Grid area " +:+ quoted (cp_gridArea p)
               +:+ " is already occupied by component "
               +:+ quoted (JS.to_string (JS.get c "id")) +:+ ". "
               +:+ "Remove it first or choose a different grid area."),
       st).
Proof.
  intros Hid Hvalid Hocc Hfind. unfold create_component.
  rewrite Hid, Hvalid, Hocc, Hfind. simpl. done.
Qed.

Lemma remove_component_ok id st :
  JS.truthy (component_of st id) = true →
  ∃ r, remove_component id st
         = (r, with_components st (assoc_del id (components st))) ∧
       success r = true.
Proof. intros Hid. unfold remove_component. rewrite Hid. simpl. eauto. Qed.

(** C7. With [templateAreas = ["header header", "sidebar main"]]:
    creating [c1] in [main] succeeds and stores the component with
    [fetchStatus = "idle"] and [createdAt] set; creating [c2] in [main]
    then fails with the already-occupied error and leaves the state as
    it is; after [remove_component("c1")] succeeds, creating [c2] in
    [main] succeeds. *)
Theorem create_occupied_remove_create
    `{GridUtils} (st : DashboardState) (now1 now2 now3 : string)
    (p1 p2 : CreateParams) :
  templateAreas (grid st) = ["header header"; "sidebar main"] →
  Forall (fun kv => JS.nullish kv.2 = false) (components st) →
  JS.truthy (component_of st "c1") = false →
  JS.truthy (component_of st "c2") = false →
  isGridAreaOccupied "main" st = false →
  cp_id p1 = "c1" → cp_gridArea p1 = "main" →
  cp_id p2 = "c2" → cp_gridArea p2 = "main" →
  let '(r1, st1) := create_component now1 p1 st in
  let '(r2, st2) := create_component now2 p2 st1 in
  let '(r3, st3) := remove_component "c1" st2 in
  let '(r4, st4) := create_component now3 p2 st3 in
  (success r1 = true ∧
   component_of st1 "c1" = newComponent now1 p1 ∧
   JS.get (JS.get (component_of st1 "c1") "metadata") "fetchStatus" = JStr "idle" ∧
   JS.get (JS.get (component_of st1 "c1") "metadata") "createdAt" = JStr now1) ∧
  (success r2 = false ∧
   error r2 = Some ("Grid area " +:+ quoted "main"
                      +:+ " is already occupied by component " +:+ quoted "c1" +:+ ". "
                      +:+ "Remove it first or choose a different grid area.") ∧
   st2 = st1) ∧
  success r3 = true ∧
  (success r4 = true ∧ component_of st4 "c2" = newComponent now3 p2 ∧
   JS.truthy (component_of st4 "c1") = false).
Proof.
  intros Hgrid Hobj Hc1 Hc2 Hfree Hid1 Harea1 Hid2 Harea2.
  set (c := newComponent now1 p1).
  set (st1 := put_component "c1" c st).
  set (st3 := with_components st1 (assoc_del "c1" (components st1))).
  assert (Hc : JS.is_string (JS.get c "gridArea") "main" = true).
  { unfold c, newComponent. simpl. by rewrite Harea1. }
  (* first creation *)
  destruct (create_component_ok now1 p1 st) as (r1 & E1 & Hr1);
    [by rewrite Hid1 | by rewrite Harea1, Hgrid | by rewrite Harea1|].
  rewrite E1, Hid1. fold c. fold st1.
  (* second creation *)
  assert (E2 : create_component now2 p2 st1
               = (fail ("Grid area " +:+ quoted "main"
                          +:+ " is already occupied by component " +:+ quoted "c1" +:+ ". "
                          +:+ "Remove it first or choose a different grid area."),
                  st1)).
  { rewrite (create_component_occupied now2 p2 st1 c).
    - rewrite Harea2. unfold c, newComponent. simpl. by rewrite Hid1.
    - rewrite Hid2. unfold st1. by rewrite component_of_put_ne.
    - rewrite Harea2. change (templateAreas (grid st1)) with (templateAreas (grid st)).
      by rewrite Hgrid.
    - rewrite Harea2. unfold isGridAreaOccupied, st1. simpl.
      by apply (existsb_assoc_set (fun v => JS.is_string (JS.get v "gridArea") "main")).
    - rewrite Harea2. unfold st1. simpl. by apply find_in_area_put. }
  rewrite E2.
  (* removal *)
  destruct (remove_component_ok "c1" st1) as (r3 & E3 & Hr3).
  { unfold st1. by rewrite component_of_put_eq. }
  rewrite E3. fold st3.
  (* last creation *)
  assert (Hc1' : JS.truthy (component_of st3 "c1") = false).
  { unfold component_of, st3. simpl. by rewrite assoc_get_del_eq. }
  destruct (create_component_ok now3 p2 st3) as (r4 & E4 & Hr4).
  { rewrite Hid2. unfold component_of, st3, st1. simpl.
    rewrite assoc_get_del_ne, assoc_get_set_ne by done. exact Hc2. }
  { rewrite Harea2. change (templateAreas (grid st3)) with (templateAreas (grid st)).
    by rewrite Hgrid. }
  { rewrite Harea2. unfold isGridAreaOccupied, st3, st1. simpl.
    by apply (existsb_assoc_del_set (fun v => JS.is_string (JS.get v "gridArea") "main")). }
  rewrite E4, Hid2.
  assert (Hget : component_of st1 "c1" = c).
  { unfold st1. by rewrite component_of_put_eq. }
  rewrite Hget.
  repeat split; try done.
  - by rewrite component_of_put_eq.
  - rewrite component_of_put_ne by done. exact Hc1'.
Qed.

Lemma create_occupied_remove_create_witness :
  let st := mkDashboard (mkGrid "1fr 1fr" "auto 1fr" "16px"
                           ["header header"; "sidebar main"])
              [] (mkMeta "New Dashboard" "" "2025-01-01T00:00:00.000Z")
              JUndefined None in
  let p1 := mkCreate "c1" "table" "main" "Orders" JUndefined
              (JObj [("source", JObj [("type", JStr "static"); ("data", JArr [])])])
              JUndefined JUndefined JUndefined in
  let p2 := mkCreate "c2" "chart" "main" "Sales" JUndefined
              (JObj [("source", JObj [("type", JStr "static"); ("data", JArr [])])])
              JUndefined JUndefined JUndefined in
  let '(r1, st1) := create_component (H := GridSpec.gridUtils) "t1" p1 st in
  let '(r2, st2) := create_component (H := GridSpec.gridUtils) "t2" p2 st1 in
  let '(r3, st3) := remove_component "c1" st2 in
  let '(r4, st4) := create_component (H := GridSpec.gridUtils) "t3" p2 st3 in
  (success r1 = true ∧
   component_of st1 "c1" = newComponent "t1" p1 ∧
   JS.get (JS.get (component_of st1 "c1") "metadata") "fetchStatus" = JStr "idle" ∧
   JS.get (JS.get (component_of st1 "c1") "metadata") "createdAt" = JStr "t1") ∧
  (success r2 = false ∧
   error r2 = Some ("Grid area " +:+ quoted "main"
                      +:+ " is already occupied by component " +:+ quoted "c1" +:+ ". "
                      +:+ "Remove it first or choose a different grid area.") ∧
   st2 = st1) ∧
  success r3 = true ∧
  (success r4 = true ∧ component_of st4 "c2" = newComponent "t3" p2 ∧
   JS.truthy (component_of st4 "c1") = false).
Proof.
  apply (create_occupied_remove_create (H := GridSpec.gridUtils)
           (mkDashboard (mkGrid "1fr 1fr" "auto 1fr" "16px"
                           ["header header"; "sidebar main"])
              [] (mkMeta "New Dashboard" "" "2025-01-01T00:00:00.000Z")
              JUndefined None)
           "t1" "t2" "t3"
           (mkCreate "c1" "table" "main" "Orders" JUndefined
              (JObj [("source", JObj [("type", JStr "static"); ("data", JArr [])])])
              JUndefined JUndefined JUndefined)
           (mkCreate "c2" "chart" "main" "Sales" JUndefined
              (JObj [("source", JObj [("type", JStr "static"); ("data", JArr [])])])
              JUndefined JUndefined JUndefined));
    first [reflexivity | constructor].
Defined.

(** *** [set_grid_layout] *)

Lemma orphaned_nil newAreas cs :
  orphaned newAreas cs = Ok [] →
  ∀ id c, assoc_get id cs = Some c →
          JS.included newAreas (JS.get c "gridArea") = true.
Proof.
  induction cs as [|[k c0] cs IH]; simpl; [done|].
  unfold JS.prop. destruct (JS.nullish c0); [done|]. simpl.
  destruct (orphaned newAreas cs) as [others|e]; [|done]. simpl.
  destruct (JS.included newAreas (JS.get c0 "gridArea")) eqn:Hin; [|done].
  intros [= ->] id c. destruct (String.eqb k id); [by intros [= <-]|].
  by apply IH.
Qed.




(** *** [update_component] *)

Lemma gridArea_component_in id a : JS.get (component_in id a) "gridArea" = JStr a.
Proof. reflexivity. Qed.

(** C1 fails on the code: [update_component] checks neither that the
    new [gridArea] is free nor that it exists.  From a state with one
    component per area, a successful update, with or without a path,
    moves [c2] into the area of [c1]. *)
Theorem update_component_breaks_one_per_area :
  (∀ area, count_in_area area two_components ≤ 1)%nat ∧
  (let '(r, st') :=
     update_component "2025-01-02T00:00:00.000Z"
       (mkUpdate "c2" None (JObj [("gridArea", JStr "main")])) two_components in
   success r = true ∧ count_in_area "main" st' = 2%nat) ∧
  (let '(r, st') :=
     update_component "2025-01-02T00:00:00.000Z"
       (mkUpdate "c2" (Some "$.gridArea") (JStr "main")) two_components in
   success r = true ∧ count_in_area "main" st' = 2%nat).
Proof.
  split; [|split; vm_compute; done].
  intros area.
  destruct (String.eqb "main" area) eqn:E1;
    [apply String.eqb_eq in E1 as <-; vm_compute; lia|].
  destruct (String.eqb "sidebar" area) eqn:E2;
    [apply String.eqb_eq in E2 as <-; vm_compute; lia|].
  unfold count_in_area.
  change (components two_components)
    with [("c1", component_in "c1" "main"); ("c2", component_in "c2" "sidebar")].
  rewrite !filter_cons, filter_nil. cbn [snd].
  rewrite !gridArea_component_in. cbn [JS.is_string]. rewrite E1, E2.
  repeat case_decide; try done. simpl. lia.
Qed.


Lemma assoc_get_None_not_key {A} k (ps : list (string * A)) :
  k ∉ map fst ps → assoc_get k ps = None.
Proof.
  induction ps as [|[k1 x] ps IH]; simpl; [done|].
  intros Hk. destruct (String.eqb k1 k) eqn:E.
  - apply String.eqb_eq in E as ->. exfalso. apply Hk. by left.
  - apply IH. intros Hin. apply Hk. by right.
Qed.









End ToolFacts.

(** ** The data fetcher *)

Section FetcherFacts.
Import Fetcher.
Context (env : Env) (cfg : Config).

Lemma postgres_request_frame endpoint source st :
  same_cache st (postgres_request env endpoint source st).2.
Proof.
  unfold postgres_request, bind, do_fetch, lift, ret, throw. simpl.
  destruct (net env _ _ _) as [e|ok statusText json]; [done|].
  destruct ok; simpl; [|done].
  destruct json as [result|e]; simpl; [|done].
  by destruct (JS.prop result "data").
Qed.

Lemma graphql_request_frame endpoint source st :
  same_cache st (graphql_request env endpoint source st).2.
Proof.
  unfold graphql_request, bind, do_fetch, lift, ret, throw. simpl.
  destruct (net env _ _ _) as [e|ok statusText json]; [done|].
  destruct ok; simpl; [|done].
  destruct json as [result|e]; simpl; [|done].
  destruct (JS.prop result "errors") as [errors|]; simpl; [|done].
  by destruct (JS.truthy errors).
Qed.

(** A PostgreSQL fetch never throws. *)
Lemma fetchFromPostgreSQL_total source st :
  ∃ v st', fetchFromPostgreSQL env cfg source st = (Ok v, st') ∧ same_cache st st'.
Proof.
  unfold fetchFromPostgreSQL.
  destruct (mcpPostgresEndpoint cfg) as [endpoint|]; [|by eexists _, _].
  destruct (negb (Str.nonempty endpoint)); [by eexists _, _|].
  destruct (negb (fetch_available env)); [by eexists _, _|].
  unfold catch. pose proof (postgres_request_frame endpoint source st) as Hf.
  destruct (postgres_request env endpoint source st) as [[v|e] st']; by eexists _, _.
Qed.

(** A GraphQL fetch never throws. *)
Lemma fetchFromGraphQL_total source st :
  ∃ v st', fetchFromGraphQL env cfg source st = (Ok v, st') ∧ same_cache st st'.
Proof.
  unfold fetchFromGraphQL.
  destruct (negb (JS.truthy _)); [by eexists _, _|].
  destruct (negb (fetch_available env)); [by eexists _, _|].
  unfold catch.
  match goal with
  | |- context [graphql_request env ?ep source st] =>
      pose proof (graphql_request_frame ep source st) as Hf;
      destruct (graphql_request env ep source st) as [[v|e] st']
  end; by eexists _, _.
Qed.

(** [fetchFromSource] logs the source, leaves the cache alone, and only
    throws [Error] instances. *)
Lemma fetchFromSource_spec source st :
  let '(r, st') := fetchFromSource env cfg source st in
  cache st' = cache st ∧ invoked st' = invoked st ++ [source] ∧
  (∀ e, r = Throw e → ∃ n m, e = ErrorObj n m).
Proof.
  unfold fetchFromSource, bind, log_source, lift, throw. simpl.
  unfold JS.prop. destruct (JS.nullish source); simpl.
  { repeat split; try done. intros e [= <-]. by eexists _, _. }
  set (st1 := mkState (cache st) (requests st) (invoked st ++ [source])).
  destruct (JS.is_string (JS.get source "type") "postgresql").
  { destruct (fetchFromPostgreSQL_total source st1) as (v & st' & -> & Hc & Hi).
    rewrite Hc, Hi. by repeat split. }
  destruct (JS.is_string (JS.get source "type") "graphql").
  { destruct (fetchFromGraphQL_total source st1) as (v & st' & -> & Hc & Hi).
    rewrite Hc, Hi. by repeat split. }
  destruct (JS.is_string (JS.get source "type") "static").
  { unfold fetchFromStatic, ret. by repeat split. }
  repeat split; try done. intros e [= <-]. by eexists _, _.
Qed.

Lemma fetchData_unfold t_check t_store componentId config st :
  fetchData env cfg t_check t_store componentId config st =
    match cache_answer t_check componentId config st with
    | (Ok (Some cached), st') => (Ok cached, st')
    | (Ok None, st') => fetch_and_transform env cfg t_store componentId config st'
    | (Throw e, st') => (Throw e, st')
    end.
Proof.
  unfold fetchData, cache_answer, fetch_and_transform, caching, bind, lift, ret.
  unfold JS.prop. destruct (JS.nullish config) eqn:Hn; simpl; [done|].
  destruct (JS.truthy (JS.get (JS.get config "cache") "enabled")); simpl; [|done].
  destruct (getFromCache _ _ _ st) as [[cached|e] st']; simpl; [|done].
  by destruct (JS.is_null cached).
Qed.

Lemma applyHandlebarsTemplate_throws data hb e :
  applyHandlebarsTemplate env data hb = Throw e → ∃ m, e = ErrorObj "Error" m.
Proof.
  unfold applyHandlebarsTemplate.
  destruct (hb_render env _ _) as [result|err].
  - destruct (looks_like_json result); [destruct (json_parse env result)|]; done.
  - intros [= <-]. by eexists.
Qed.

Lemma applyAlaSQLTransform_throws data al e :
  applyAlaSQLTransform env data al = Throw e → ∃ m, e = ErrorObj "Error" m.
Proof.
  unfold applyAlaSQLTransform.
  destruct (alasql env _ _) as [result|err]; [done|].
  intros [= <-]. by eexists.
Qed.

(** Whatever [fetchData] throws is an [Error] instance. *)
Lemma fetchData_throws_Error t_check t_store componentId config st e st' :
  fetchData env cfg t_check t_store componentId config st = (Throw e, st') →
  ∃ n m, e = ErrorObj n m.
Proof.
  rewrite fetchData_unfold.
  unfold cache_answer, bind, lift, ret, JS.prop.
  destruct (JS.nullish config); simpl; [intros [= <- _]; by eexists _, _|].
  assert (Hrest : ∀ st0, fetch_and_transform env cfg t_store componentId config st0 = (Throw e, st') →
                         ∃ n m, e = ErrorObj n m).
  { intros st0. unfold fetch_and_transform, bind, lift, ret.
    pose proof (fetchFromSource_spec (JS.get config "source") st0) as Hs.
    destruct (fetchFromSource env cfg (JS.get config "source") st0) as [[raw|e0] st1].
    2:{ destruct Hs as (_ & _ & He). intros [= <- _]. by apply He. }
    destruct (JS.truthy (JS.get config "handlebarsTemplate")); simpl.
    all: try (destruct (applyHandlebarsTemplate env raw _) as [raw1|e1] eqn:Hhb; simpl;
              [|intros [= <- _];
                destruct (applyHandlebarsTemplate_throws _ _ _ Hhb) as [m ->];
                by eexists _, _]).
    all: destruct (JS.truthy (JS.get config "alasqlTransform")); simpl.
    all: try (match goal with
              | |- context [applyAlaSQLTransform env ?d ?a] =>
                  destruct (applyAlaSQLTransform env d a) as [raw2|e2] eqn:Hal; simpl;
                  [|intros [= <- _];
                    destruct (applyAlaSQLTransform_throws _ _ _ Hal) as [m ->];
                    by eexists _, _]
              end).
    all: by destruct (caching config). }
  destruct (JS.truthy (JS.get (JS.get config "cache") "enabled")); simpl; [|by apply Hrest].
  destruct (getFromCache _ _ _ st) as [[cached|e0] st0] eqn:Hg; simpl.
  - destruct (JS.is_null cached); [by apply Hrest | done].
  - unfold getFromCache in Hg. destruct (cache st !! componentId); [|done].
    by destruct (JS.gt _ _).
Qed.


(** After the cache: the source is logged once, and the result is
    stored when caching is on and nothing was thrown. *)
Lemma fetch_and_transform_spec t_store componentId config st :
  let '(r, st') := fetch_and_transform env cfg t_store componentId config st in
  invoked st' = invoked st ++ [JS.get config "source"] ∧
  match r with
  | Ok v =>
      cache st' = if caching config
                  then <[componentId := mkEntry v t_store]> (cache st)
                  else cache st
  | Throw _ => cache st' = cache st
  end.
Proof.
  unfold fetch_and_transform, bind, lift, ret.
  pose proof (fetchFromSource_spec (JS.get config "source") st) as Hs.
  destruct (fetchFromSource env cfg (JS.get config "source") st) as [[raw|e] st1];
    destruct Hs as (Hc & Hi & _); [|done].
  destruct (JS.truthy (JS.get config "handlebarsTemplate")).
  all: try destruct (applyHandlebarsTemplate env raw _) as [raw1|e1]; try done.
  all: destruct (JS.truthy (JS.get config "alasqlTransform")).
  all: try destruct (applyAlaSQLTransform env _ _) as [raw2|e2]; try done.
  all: destruct (caching config); simpl; by rewrite ?Hc, ?Hi.
Qed.

(** C5, amended.  With caching enabled, an entry whose data is not
    [null], and a time to live that is left out (60000 ms) or a number
    other than zero: while [now - timestamp <= ttl], [fetchData] returns
    the cached data and leaves the fetcher as it was, the source not
    invoked; once [now - timestamp > ttl], the entry is deleted, the
    source is invoked once, and the new result is stored unless the fetch
    throws. *)
Theorem fetchData_cached_while_within_ttl
    t_check t_store componentId config st e n :
  caching config = true →
  cache st !! componentId = Some e →
  data e ≠ JNull →
  effective_ttl (JS.get (JS.get config "cache") "ttl") n →
  (t_check - timestamp e ≤ n →
     fetchData env cfg t_check t_store componentId config st = (Ok (data e), st)) ∧
  (n < t_check - timestamp e →
     let '(r, st') := fetchData env cfg t_check t_store componentId config st in
     invoked st' = invoked st ++ [JS.get config "source"] ∧
     match r with
     | Ok v =>
         cache st' = <[componentId := mkEntry v t_store]>
                       (delete componentId (cache st))
     | Throw _ => cache st' = delete componentId (cache st)
     end).
Proof.
  intros Hen He Hd Httl.
  assert (Hp : JS.prop config "cache" = Ok (JS.get config "cache")).
  { unfold JS.prop. destruct (JS.nullish config) eqn:E; [|done].
    unfold caching in Hen. by destruct config. }
  assert (Hmax : JS.gt (t_check - timestamp e)
                   (JS.or_else (JS.get (JS.get config "cache") "ttl") (JNum 60000))
                 = (n <? t_check - timestamp e)).
  { destruct Httl as [[-> ->]|[-> Hn]]; [done|].
    unfold JS.or_else. simpl. by destruct (Z.eqb_spec n 0). }
  split; intros Hage.
  - rewrite fetchData_unfold. unfold cache_answer, bind, lift, ret, getFromCache.
    rewrite Hp. fold (caching config). rewrite Hen, He, Hmax.
    destruct (Z.ltb_spec n (t_check - timestamp e)); [lia|].
    by destruct (data e).
  - rewrite fetchData_unfold. unfold cache_answer, bind, lift, ret, getFromCache.
    rewrite Hp. fold (caching config). rewrite Hen, He, Hmax.
    destruct (Z.ltb_spec n (t_check - timestamp e)); [|lia].
    simpl.
    pose proof (fetch_and_transform_spec t_store componentId config
                  (mkState (delete componentId (cache st)) (requests st) (invoked st)))
      as Hs.
    destruct (fetch_and_transform env cfg _ _ _ _) as [r st']. rewrite Hen in Hs. exact Hs.
Qed.

Lemma fetchFromSource_known source st :
  JS.included ["postgresql"; "graphql"; "static"] (JS.get source "type") = true →
  ∃ v st', fetchFromSource env cfg source st = (Ok v, st').
Proof.
  intros Hty. unfold fetchFromSource, bind, log_source, lift, throw, JS.prop.
  destruct (JS.nullish source) eqn:Hn; [by destruct source|]. simpl.
  set (st1 := mkState _ _ _).
  destruct (JS.get source "type") as [| | | |ty| |]; try done.
  unfold JS.included, existsb in Hty. unfold JS.is_string.
  destruct (String.eqb ty "postgresql").
  { destruct (fetchFromPostgreSQL_total source st1) as (v & st' & -> & _). eauto. }
  destruct (String.eqb ty "graphql").
  { destruct (fetchFromGraphQL_total source st1) as (v & st' & -> & _). eauto. }
  destruct (String.eqb ty "static"); [|done].
  unfold fetchFromStatic, ret. eauto.
Qed.

Lemma fetchFromSource_unreachable source st ep e :
  fetch_available env = true →
  endpoint_of cfg source = Some ep → JS.truthy ep = true → unreachable env ep e →
  (fetchFromSource env cfg source st).1 = Ok (soft (JStr (message_or e "Unknown error"))).
Proof.
  intros Hfa Hep Ht Hun. unfold fetchFromSource, bind, log_source, lift, throw, JS.prop.
  unfold endpoint_of in Hep.
  destruct (JS.nullish source) eqn:Hn; [by destruct source|]. simpl.
  set (st1 := mkState _ _ _).
  destruct (JS.is_string (JS.get source "type") "postgresql").
  { injection Hep as <-. unfold fetchFromPostgreSQL.
    destruct (mcpPostgresEndpoint cfg) as [endpoint|]; [|done].
    simpl in Ht, Hun. rewrite Ht, Hfa. simpl.
    unfold catch, postgres_request, bind, do_fetch. by rewrite Hun. }
  destruct (JS.is_string (JS.get source "type") "graphql"); [|done].
  injection Hep as <-. unfold fetchFromGraphQL. fold (graphql_endpoint cfg source).
  rewrite Ht, Hfa. simpl.
  unfold catch, graphql_request, bind, do_fetch. by rewrite Hun.
Qed.

(** With a plain configuration [fetchData] is the fetch from the
    source. *)
Lemma fetchData_plain t_check t_store componentId config st :
  plain_config config = true →
  ∃ v st',
    fetchData env cfg t_check t_store componentId config st = (Ok v, st') ∧
    fetchFromSource env cfg (JS.get config "source") st = (Ok v, st').
Proof.
  unfold plain_config. rewrite !andb_true_iff, !negb_true_iff.
  intros ((((Hn & Hc) & Hhb) & Hal) & Hty).
  destruct (fetchFromSource_known (JS.get config "source") st Hty) as (v & st' & Hs).
  exists v, st'. split; [|done].
  rewrite fetchData_unfold.
  unfold cache_answer, bind, lift, ret, JS.prop. rewrite Hn.
  fold (caching config). rewrite Hc.
  unfold fetch_and_transform, bind, lift, ret. by rewrite Hs, Hhb, Hal, Hc.
Qed.

End FetcherFacts.


(** C5, as stated: with [ttl = 0] an entry of age 500 is returned from
    the cache, the source not invoked, although [500 <= 0] does not hold. *)
Lemma fetchData_zero_ttl_still_cached :
  caching (static_cached (JNum 0)) = true ∧
  JS.get (JS.get (static_cached (JNum 0)) "cache") "ttl" = JNum 0 ∧
  ¬ (1500 - 1000 ≤ 0) ∧
  Fetcher.fetchData offline no_endpoints 1500 1500 "c1" (static_cached (JNum 0)) cached_42
    = (Ok (JNum 42), cached_42).
Proof.
  split; [reflexivity|]. split; [reflexivity|]. split; [lia|]. reflexivity.
Qed.

Lemma fetchData_cached_while_within_ttl_witness :
  Fetcher.fetchData offline no_endpoints 1500 1500 "c1" (static_cached (JNum 1000)) cached_42
    = (Ok (JNum 42), cached_42) ∧
  Fetcher.invoked
    (Fetcher.fetchData offline no_endpoints 2500 2500 "c1"
       (static_cached (JNum 1000)) cached_42).2
    = [JObj [("type", JStr "static"); ("data", JNum 7)]].
Proof.
  split.
  - apply (fetchData_cached_while_within_ttl offline no_endpoints 1500 1500 "c1"
             (static_cached (JNum 1000)) cached_42 (Fetcher.mkEntry (JNum 42) 1000) 1000);
      [reflexivity|reflexivity|discriminate|right; split; [reflexivity|lia]|simpl; lia].
  - destruct (fetchData_cached_while_within_ttl offline no_endpoints 2500 2500 "c1"
                (static_cached (JNum 1000)) cached_42 (Fetcher.mkEntry (JNum 42) 1000) 1000)
      as [_ H];
      [reflexivity|reflexivity|discriminate|right; split; [reflexivity|lia]|].
    assert (Hage : 1000 < 2500 - Fetcher.timestamp (Fetcher.mkEntry (JNum 42) 1000))
      by (simpl; lia).
    specialize (H Hage).
    destruct (Fetcher.fetchData _ _ _ _ _ _ _) as [r st']. exact (proj1 H).
Defined.

Section FetchToolFacts.
Import Tools.

(** Decimal numerals do not start with a letter. *)
Lemma pretty_N_char_not_d y : pretty_N_char y ≠ "d"%char.
Proof. unfold pretty_N_char. repeat case_match; discriminate. Qed.

Lemma pretty_N_go_not_d x :
  ∀ s, (∀ r, s ≠ String "d" r) → ∀ r, pretty_N_go x s ≠ String "d" r.
Proof.
  induction (N.lt_wf_0 x) as [x _ IH]. intros s Hs.
  destruct (decide (x = 0%N)) as [->|Hx].
  - by rewrite pretty_N_go_0.
  - rewrite pretty_N_go_step by lia.
    apply IH; [apply N.div_lt; lia|].
    intros r [= Hc _]. by apply pretty_N_char_not_d in Hc.
Qed.

Lemma pretty_nat_not_data (i : nat) : pretty i ≠ "data".
Proof.
  unfold pretty, pretty_nat, pretty, pretty_N.
  case_decide; [discriminate|]. by apply pretty_N_go_not_d.
Qed.

Lemma assoc_get_imap_pretty {A B} (h : B → A) k (xs : list B) :
  (∀ i : nat, pretty i ≠ k) →
  ∀ g : nat → nat, assoc_get k (imap (fun i x => (pretty (g i), h x)) xs) = None.
Proof.
  intros Hk. induction xs as [|x xs IH]; intros g; simpl; [done|].
  destruct (String.eqb_spec (pretty (g 0%nat)) k) as [E|_]; [by apply Hk in E|].
  apply (IH (fun i => g (S i))).
Qed.

(** A spread copies the [data] property, if there is one. *)
Lemma get_spread_data c :
  default JUndefined (assoc_get "data" (JS.spread c)) = JS.get c "data".
Proof.
  destruct c as [| |b|n|str|xs|ps]; try done.
  - simpl JS.spread.
    by rewrite (assoc_get_imap_pretty (fun a => JStr (String a EmptyString)) "data"
                  _ pretty_nat_not_data (fun i => i)).
  - simpl JS.spread.
    by rewrite (assoc_get_imap_pretty (fun x => x) "data" _ pretty_nat_not_data
                  (fun i => i)).
Qed.

Lemma get_with_metadata_data c fields :
  JS.get (with_metadata c fields) "data" = JS.get c "data".
Proof.
  unfold with_metadata. cbn [JS.get].
  rewrite assoc_get_set_ne by done. apply get_spread_data.
Qed.

Lemma get_failed_metadata c msg :
  JS.get (JS.get (failed c msg) "metadata") "fetchStatus" = JStr "error" ∧
  JS.get (JS.get (failed c msg) "metadata") "error" = JStr msg.
Proof.
  unfold failed, with_metadata. cbn [JS.get].
  rewrite assoc_get_set_eq. unfold default; cbn [from_option]; unfold id; cbn [JS.get].
  unfold assoc_merge. cbn [fold_left fst snd].
  rewrite assoc_get_set_ne by done. by rewrite !assoc_get_set_eq.
Qed.

Lemma get_fetched c now d :
  JS.get (JS.get (fetched now c d) "metadata") "fetchStatus" = JStr "success" ∧
  JS.get (fetched now c d) "data" = d.
Proof.
  unfold fetched, with_data_and_metadata. cbn [JS.get].
  rewrite assoc_get_set_eq. unfold default; cbn [from_option]; unfold id; cbn [JS.get].
  unfold assoc_merge. cbn [fold_left fst snd].
  rewrite (assoc_get_set_ne "error" "fetchStatus") by done.
  rewrite (assoc_get_set_ne "lastFetchedAt" "fetchStatus") by done.
  rewrite assoc_get_set_eq.
  rewrite (assoc_get_set_ne "metadata" "data") by done.
  by rewrite assoc_get_set_eq.
Qed.

(** C4. For an existing component whose fetch throws,
    [fetch_component_data] answers [{success: false, error: message}]
    with the message of the thrown error, records [fetchStatus = error]
    and that message in the component's metadata, and leaves the
    component's [data] as it was. *)
Theorem fetch_component_data_throw_keeps_data env clk id w e f' :
  JS.truthy (component_of (dashboard w) id) = true →
  Fetcher.fetchData env fetcherConfig (t_check clk) (t_store clk) id
    (JS.get (component_of (dashboard w) id) "dataConfig") (fetcher w) = (Throw e, f') →
  let '(r, w') := fetch_component_data env clk id w in
  let c' := component_of (dashboard w') id in
  ∃ name msg,
    e = ErrorObj name msg ∧
    success r = false ∧ error r = Some msg ∧
    JS.get (JS.get c' "metadata") "fetchStatus" = JStr "error" ∧
    JS.get (JS.get c' "metadata") "error" = JStr msg ∧
    JS.get c' "data" = JS.get (component_of (dashboard w) id) "data" ∧
    fetcher w' = f'.
Proof.
  intros Hc Hf. unfold fetch_component_data. rewrite Hc, Hf. cbn [negb].
  destruct (fetchData_throws_Error _ _ _ _ _ _ _ _ _ Hf) as (name & msg & ->).
  exists name, msg. cbn [message_or success error dashboard fetcher].
  rewrite !component_of_put_eq.
  destruct (get_failed_metadata (loading (component_of (dashboard w) id)) msg)
    as [Hs He].
  repeat split; try done.
  unfold failed, loading. by rewrite !get_with_metadata_data.
Qed.

Lemma plain_config_component c :
  plain_config (JS.get c "dataConfig") = true →
  JS.prop c "dataConfig" = Ok (JS.get c "dataConfig").
Proof. intros H. unfold JS.prop. by destruct c. Qed.

Lemma endpoint_of_truthy source ep :
  endpoint_of fetcherConfig source = Some ep → JS.truthy ep = true.
Proof.
  unfold endpoint_of, graphql_endpoint, JS.or_else.
  destruct (JS.is_string _ "postgresql"); [by intros [= <-]|].
  destruct (JS.is_string _ "graphql"); [|done].
  intros [= <-]. by destruct (JS.truthy (JS.get source "endpoint")) eqn:E.
Qed.

Lemma fetch_all_plain env clock cs :
  Forall (fun kv => plain_config (JS.get kv.2 "dataConfig") = true) cs →
  ∀ f, ∃ rs f',
    fetch_all env clock cs f = (Ok rs, f') ∧ Forall2 (settled_plain env) cs rs.
Proof.
  induction 1 as [|[id c] cs Hc _ IH]; intros f; simpl.
  - exists [], f. by split.
  - simpl in Hc. rewrite (plain_config_component c Hc).
    destruct (fetchData_plain env fetcherConfig (t_check (clock id))
                (t_store (clock id)) id (JS.get c "dataConfig") f Hc)
      as (v & f1 & -> & Hs).
    destruct (IH f1) as (rs & f2 & -> & Hrs).
    exists (Ok v :: rs), f2. split; [done|].
    constructor; [|done]. exists v. split; [done|].
    intros ep e Hep Hun Hfa. simpl in Hep.
    pose proof (fetchFromSource_unreachable env fetcherConfig _ f ep e Hfa Hep
                  (endpoint_of_truthy _ _ Hep) Hun) as Hv.
    rewrite Hs in Hv. by injection Hv.
Qed.

Lemma record_all_other clock ids :
  ∀ rs acc id, id ∉ ids →
    assoc_get id (record_all clock ids rs acc) = assoc_get id acc.
Proof.
  induction ids as [|id0 ids IH]; intros rs acc id Hid; simpl; [done|].
  destruct rs as [|r rs]; [done|].
  rewrite IH by set_solver.
  apply assoc_get_set_ne. set_solver.
Qed.

Lemma record_all_at clock ids :
  NoDup ids →
  ∀ rs acc i id r, ids !! i = Some id → rs !! i = Some r →
    assoc_get id (record_all clock ids rs acc)
      = Some (recorded clock id r (default JUndefined (assoc_get id acc))).
Proof.
  induction 1 as [|id0 ids Hnin Hnd IH]; intros rs acc i id r Hi Hr; [done|].
  destruct rs as [|r0 rs]; [done|].
  destruct i as [|i]; simpl in Hi, Hr.
  - injection Hi as ->. injection Hr as ->. simpl.
    rewrite record_all_other by done. by rewrite assoc_get_set_eq.
  - simpl. rewrite (IH _ _ i id r Hi Hr).
    assert (id0 ≠ id) as Hne.
    { intros ->. apply Hnin. by eapply list_elem_of_lookup_2. }
    by rewrite assoc_get_set_ne.
Qed.

(** C2, amended.  When every component has a plain data configuration
    (known source type, no transform, no caching) and the ids are
    distinct, [refresh_all_components] answers [success: true] with
    [refreshedCount] the number of components, and every component ends
    with [fetchStatus = success]; a component whose endpoint is
    unreachable ends with the soft value [{error: reason}] as its data. *)
Theorem refresh_all_components_unreachable_is_soft env clock w :
  NoDup (map fst (components (dashboard w))) →
  Forall (fun kv => plain_config (JS.get kv.2 "dataConfig") = true)
         (components (dashboard w)) →
  let '(r, w') := refresh_all_components env clock w in
  success r = true ∧
  data r = JObj [("refreshedCount",
                  JNum (Z.of_nat (length (components (dashboard w)))))] ∧
  ∀ id c, (id, c) ∈ components (dashboard w) →
    let c' := component_of (dashboard w') id in
    JS.get (JS.get c' "metadata") "fetchStatus" = JStr "success" ∧
    ∀ ep e,
      endpoint_of fetcherConfig (JS.get (JS.get c "dataConfig") "source") = Some ep →
      unreachable env ep e →
      Fetcher.fetch_available env = true →
      JS.get c' "data" = Fetcher.soft (JStr (message_or e "Unknown error")).
Proof.
  intros Hnd Hplain. unfold refresh_all_components.
  destruct (fetch_all_plain env clock _ Hplain (fetcher w)) as (rs & f' & -> & Hrs).
  cbn [success data dashboard]. rewrite length_map.
  split; [done|]. split; [done|].
  intros cid c Hin. set (c' := component_of _ cid).
  apply list_elem_of_lookup in Hin as [i Hi].
  destruct (Forall2_lookup_l _ _ _ _ _ Hrs Hi) as (r & Hr & v & -> & Hv).
  assert (map fst (components (dashboard w)) !! i = Some cid) as Hid.
  { by rewrite list_lookup_fmap, Hi. }
  assert (c' = fetched (iso (clock cid)) c v) as ->.
  { unfold c', component_of, with_components. cbn [components].
    rewrite (record_all_at clock _ Hnd _ _ i cid (Ok v) Hid Hr). cbn [recorded].
    unfold default; cbn [from_option]; unfold id.
    f_equal. clear -Hnd Hi.
    revert i Hnd Hi. induction (components (dashboard w)) as [|[k x] l IH];
      intros i Hnd Hi; [done|].
    apply NoDup_cons in Hnd as [Hk Hnd]. destruct i as [|i]; simpl in Hi |- *.
    - injection Hi as -> ->. by rewrite String.eqb_refl.
    - destruct (String.eqb_spec k cid) as [->|_]; [|by eapply IH].
      exfalso. apply Hk. apply list_elem_of_fmap. exists (cid, c).
      split; [done|]. by eapply list_elem_of_lookup_2. }
  destruct (get_fetched c (iso (clock cid)) v) as [Hs Hd].
  split; [done|]. intros ep e Hep Hun Hfa. rewrite Hd. by eapply Hv.
Qed.

End FetchToolFacts.

Lemma fetch_component_data_throw_keeps_data_witness :
  let '(r, w') := Tools.fetch_component_data offline noon "c1" broken_template_world in
  let c' := Tools.component_of (Tools.dashboard w') "c1" in
  ∃ name msg,
    ErrorObj "Error"
      ("Handlebars template failed: "
         +:+ thrown_to_string (ErrorObj "Error" "Parse error on line 1"))
      = ErrorObj name msg ∧
    Tools.success r = false ∧ Tools.error r = Some msg ∧
    JS.get (JS.get c' "metadata") "fetchStatus" = JStr "error" ∧
    JS.get (JS.get c' "metadata") "error" = JStr msg ∧
    JS.get c' "data"
      = JS.get (Tools.component_of (Tools.dashboard broken_template_world) "c1") "data" ∧
    Tools.fetcher w'
      = Fetcher.mkState ∅ [] [JObj [("type", JStr "static"); ("data", JNum 1)]].
Proof.
  apply (fetch_component_data_throw_keeps_data offline noon "c1" broken_template_world
           (ErrorObj "Error"
              ("Handlebars template failed: "
                 +:+ thrown_to_string (ErrorObj "Error" "Parse error on line 1")))
           (Fetcher.mkState ∅ [] [JObj [("type", JStr "static"); ("data", JNum 1)]]));
    reflexivity.
Defined.

(** C2, as stated: with the endpoint of [c3] unreachable, the refresh
    leaves all three components with [fetchStatus = success], none with
    [error]; the data of [c3] is the soft value. *)
Lemma refresh_all_components_no_error_status :
  unreachable postgres_down (JStr "/api/mcp/postgres")
    (ErrorObj "TypeError" "Failed to fetch") ∧
  let '(r, w') := Tools.refresh_all_components postgres_down (fun _ => noon)
                    three_components in
  Tools.success r = true ∧
  Tools.data r = JObj [("refreshedCount", JNum 3)] ∧
  map (fetchStatus_of w') ["c1"; "c2"; "c3"]
    = [JStr "success"; JStr "success"; JStr "success"] ∧
  fetchStatus_of w' "c3" ≠ JStr "error" ∧
  JS.get (Tools.component_of (Tools.dashboard w') "c3") "data"
    = Fetcher.soft (JStr "Failed to fetch").
Proof.
  split; [by intros n body|].
  vm_compute. repeat split. discriminate.
Qed.

Lemma refresh_all_components_unreachable_is_soft_witness :
  let '(r, w') := Tools.refresh_all_components postgres_down (fun _ => noon)
                    three_components in
  Tools.success r = true ∧
  Tools.data r
    = JObj [("refreshedCount",
             JNum (Z.of_nat (length (components (Tools.dashboard three_components)))))] ∧
  ∀ id c, (id, c) ∈ components (Tools.dashboard three_components) →
    let c' := Tools.component_of (Tools.dashboard w') id in
    JS.get (JS.get c' "metadata") "fetchStatus" = JStr "success" ∧
    ∀ ep e,
      endpoint_of Tools.fetcherConfig (JS.get (JS.get c "dataConfig") "source") = Some ep →
      unreachable postgres_down ep e →
      Fetcher.fetch_available postgres_down = true →
      JS.get c' "data" = Fetcher.soft (JStr (message_or e "Unknown error")).
Proof.
  apply (refresh_all_components_unreachable_is_soft postgres_down (fun _ => noon)
           three_components).
  - apply (bool_decide_unpack _). vm_compute. exact I.
  - repeat constructor.
Defined.

(** * Further properties *)

(** ** Path addressing on every path *)

Section PathLoops.
Import Heap.


















End PathLoops.













(** ** The tools that change components *)

Section ToolExtras.
Import Tools.

Lemma assoc_del_set_fresh {A} k (v : A) l :
  assoc_get k l = None → assoc_del k (assoc_set k v l) = l.
Proof.
  induction l as [|[k' v'] l IH]; simpl.
  - by rewrite String.eqb_refl.
  - destruct (String.eqb k' k) eqn:E; [done|]. intros Hn. simpl. rewrite E.
    by rewrite IH.
Qed.

Lemma dashboard_eta st :
  mkDashboard (grid st) (components st) (metadata st) (postgresSchema st)
    (graphqlEndpoint st) = st.
Proof. by destruct st. Qed.

(** X6. A call of [set_grid_layout], [create_component],
    [update_component] or [remove_component] that answers
    [success: false] leaves the dashboard state as it was. *)
Theorem failed_call_keeps_state `{GridUtils} now st :
  (∀ p, success (set_grid_layout p st).1 = false → (set_grid_layout p st).2 = st) ∧
  (∀ p, success (create_component now p st).1 = false →
        (create_component now p st).2 = st) ∧
  (∀ p, success (update_component now p st).1 = false →
        (update_component now p st).2 = st) ∧
  (∀ id, success (remove_component id st).1 = false → (remove_component id st).2 = st).
Proof.
  repeat split.
  - intros p. unfold set_grid_layout.
    destruct (negb _); [done|].
    destruct (orphaned _ _) as [os|e]; [|done].
    by destruct (0 <? length os)%nat.
  - intros p. unfold create_component.
    destruct (JS.truthy _); [done|].
    destruct (negb _); [done|].
    destruct (isGridAreaOccupied _ _); [|done].
    by destruct (find_in_area _ _).
  - intros p. unfold update_component.
    destruct (negb _); [done|].
    by destruct (match given_path p with Some _ => _ | None => _ end).
  - intros id. unfold remove_component. by destruct (negb _).
Qed.

Lemma failed_call_keeps_state_witness :
  (remove_component "c9" two_components).2 = two_components.
Proof.
  apply (proj2 (proj2 (proj2
           (failed_call_keeps_state (H := GridSpec.gridUtils) "t" two_components)))).
  reflexivity.
Defined.

(** X7. After a successful [create_component], [get_component] returns
    the component just built; the other components and the grid are as
    before. *)
Theorem create_then_get `{GridUtils} now p st r st' :
  create_component now p st = (r, st') → success r = true →
  get_component (cp_id p) st'
    = succeed ("Component " +:+ quoted (cp_id p) +:+ " retrieved successfully")
              (newComponent now p) ∧
  (∀ id, id ≠ cp_id p → component_of st' id = component_of st id) ∧
  grid st' = grid st.
Proof.
  unfold create_component.
  destruct (JS.truthy _); [by intros [= <- _]|].
  destruct (negb _); [by intros [= <- _]|].
  destruct (isGridAreaOccupied _ _).
  { destruct (find_in_area _ _); by intros [= <- _]. }
  intros [= <- <-] _. unfold get_component. rewrite component_of_put_eq.
  split; [done|]. split; [|done].
  intros id Hne. by apply component_of_put_ne.
Qed.

Lemma create_then_get_witness :
  let st' := (create_component (H := GridSpec.gridUtils) "t1" orders_params
                empty_two_by_two).2 in
  get_component (cp_id orders_params) st'
    = succeed ("Component " +:+ quoted (cp_id orders_params)
                 +:+ " retrieved successfully")
              (newComponent "t1" orders_params) ∧
  (∀ id, id ≠ cp_id orders_params →
         component_of st' id = component_of empty_two_by_two id) ∧
  grid st' = grid empty_two_by_two.
Proof.
  eapply (create_then_get (H := GridSpec.gridUtils) "t1" orders_params
            empty_two_by_two);
    [apply surjective_pairing | reflexivity].
Defined.

(** X8. Creating a component under an unused id and removing it again
    gives back the state from before the creation. *)
Theorem create_then_remove `{GridUtils} now p st r st' :
  assoc_get (cp_id p) (components st) = None →
  create_component now p st = (r, st') → success r = true →
  success (remove_component (cp_id p) st').1 = true ∧
  (remove_component (cp_id p) st').2 = st.
Proof.
  intros Hfresh. unfold create_component.
  destruct (JS.truthy _); [by intros [= <- _]|].
  destruct (negb _); [by intros [= <- _]|].
  destruct (isGridAreaOccupied _ _).
  { destruct (find_in_area _ _); by intros [= <- _]. }
  intros [= <- <-] _. unfold remove_component. rewrite component_of_put_eq.
  cbn [negb JS.truthy newComponent fst snd success].
  split; [done|]. unfold put_component, with_components. cbn [components grid metadata postgresSchema graphqlEndpoint].
  rewrite assoc_del_set_fresh by done. apply dashboard_eta.
Qed.

Lemma create_then_remove_witness :
  let st' := (create_component (H := GridSpec.gridUtils) "t1" orders_params
                empty_two_by_two).2 in
  success (remove_component (cp_id orders_params) st').1 = true ∧
  (remove_component (cp_id orders_params) st').2 = empty_two_by_two.
Proof.
  eapply (create_then_remove (H := GridSpec.gridUtils) "t1" orders_params
            empty_two_by_two);
    [reflexivity | apply surjective_pairing | reflexivity].
Defined.



Lemma assoc_get_merge {A} k (a b : list (string * A)) :
  NoDup (map fst b) →
  assoc_get k (assoc_merge a b)
    = match assoc_get k b with Some v => Some v | None => assoc_get k a end.
Proof.
  unfold assoc_merge. revert a.
  induction b as [|[k0 v0] b IH]; intros a Hnd; simpl; [done|].
  apply NoDup_cons in Hnd as [Hk0 Hnd]. rewrite IH by done.
  destruct (String.eqb_spec k0 k) as [->|Hne].
  - rewrite assoc_get_None_not_key by done. by rewrite assoc_get_set_eq.
  - destruct (assoc_get k b); [done|]. by rewrite assoc_get_set_ne.
Qed.

(** X10. [update_component] without a path merges the updates over the
    component, except that the id stays the id of the call and that
    [metadata] is the old metadata with [updatedAt] stamped, whatever
    the updates say for [id] and [metadata]. *)
Theorem update_component_merge now params st ps us :
  given_path params = None →
  component_of st (up_id params) = JObj ps →
  up_updates params = JObj us → NoDup (map fst us) →
  let '(r, st') := update_component now params st in
  let c' := component_of st' (up_id params) in
  success r = true ∧ data r = c' ∧
  JS.get c' "id" = JStr (up_id params) ∧
  JS.get c' "metadata"
    = JObj (assoc_set "updatedAt" (JStr now) (JS.spread (JS.get (JObj ps) "metadata"))) ∧
  ∀ k, k ≠ "id" → k ≠ "metadata" →
       JS.get c' k = match assoc_get k us with
                     | Some v => v
                     | None => JS.get (JObj ps) k
                     end.
Proof.
  intros Hpath Hc Hu Hnd. unfold update_component.
  rewrite Hpath, Hc. cbn [JS.truthy negb success data snd].
  rewrite component_of_put_eq. unfold merged_component. rewrite Hu.
  cbn [JS.spread JS.get].
  split; [done|]. split; [done|]. split.
  { rewrite assoc_get_set_ne by done. by rewrite assoc_get_set_eq. }
  split.
  { by rewrite assoc_get_set_eq. }
  intros k Hid Hmeta.
  rewrite !assoc_get_set_ne by done.
  rewrite assoc_get_merge by done. by destruct (assoc_get k us).
Qed.

Lemma update_component_merge_witness :
  let params := mkUpdate "c1" None
                  (JObj [("title", JStr "New"); ("id", JStr "other");
                         ("metadata", JObj [("createdAt", JStr "never")])]) in
  let '(r, st') := update_component "2025-01-02T00:00:00.000Z" params two_components in
  let c' := component_of st' (up_id params) in
  success r = true ∧ data r = c' ∧
  JS.get c' "id" = JStr (up_id params) ∧
  JS.get c' "metadata"
    = JObj (assoc_set "updatedAt" (JStr "2025-01-02T00:00:00.000Z")
              (JS.spread (JS.get (component_in "c1" "main") "metadata"))) ∧
  ∀ k, k ≠ "id" → k ≠ "metadata" →
       JS.get c' k
         = match assoc_get k [("title", JStr "New"); ("id", JStr "other");
                              ("metadata", JObj [("createdAt", JStr "never")])] with
           | Some v => v
           | None => JS.get (component_in "c1" "main") k
           end.
Proof.
  apply (update_component_merge "2025-01-02T00:00:00.000Z"
           (mkUpdate "c1" None
              (JObj [("title", JStr "New"); ("id", JStr "other");
                     ("metadata", JObj [("createdAt", JStr "never")])]))
           two_components);
    [ reflexivity | reflexivity | reflexivity
    | apply (bool_decide_unpack _); vm_compute; exact I ].
Defined.

(** X11. [set_grid_layout] succeeds exactly when the normalized layout
    passes validation and no component is left outside the new areas;
    it then replaces the grid by the normalized layout, keeps the
    components, and every component sits in one of the new areas. *)
Theorem set_grid_layout_success `{GridUtils} p st :
  let newAreas := extractGridAreas (templateAreas (normalized p)) in
  let '(r, st') := set_grid_layout p st in
  (success r = true ↔
     (validateGridLayout (normalized p)).1 = true ∧
     orphaned newAreas (components st) = Ok []) ∧
  (success r = true →
     st' = with_grid st (normalized p) ∧
     ∀ id c, assoc_get id (components st') = Some c →
             JS.included newAreas (JS.get c "gridArea") = true).
Proof.
  intros newAreas. unfold set_grid_layout.
  fold (normalized p). fold newAreas.
  destruct (validateGridLayout (normalized p)) as [valid errors]. cbn [fst snd].
  destruct valid; cbn [negb].
  2: { split; [split; [done|by intros [? _]]|done]. }
  destruct (orphaned newAreas (components st)) as [orphans|e] eqn:Ho.
  2: { split; [split; [done|by intros [_ ?]]|done]. }
  destruct orphans as [|o orphans]; cbn [length Nat.ltb Nat.leb success].
  - split; [done|]. intros _. split; [done|].
    intros id c. by apply orphaned_nil.
  - split; [split; [done|by intros [_ ?]]|done].
Qed.

Lemma set_grid_layout_success_witness :
  let p := mkGrid "1fr 1fr" "auto" "8px" ["'header main'"; "sidebar main"] in
  JS.included (extractGridAreas (templateAreas (normalized p)))
              (JS.get (component_in "c1" "main") "gridArea") = true.
Proof.
  intros p.
  pose proof (set_grid_layout_success (H := GridSpec.gridUtils) p two_components) as Hs.
  cbv zeta in Hs.
  destruct (set_grid_layout (H := GridSpec.gridUtils) p two_components) as [r st1] eqn:E.
  destruct Hs as [Hiff Hpost].
  assert (success r = true) as Hok.
  { apply Hiff. split; reflexivity. }
  destruct (Hpost Hok) as [-> Hall]. exact (Hall "c1" _ eq_refl).
Defined.

Lemma rev_acc_app s t acc :
  Str.rev_acc (s +:+ t) acc = Str.rev_acc t (Str.rev_acc s acc).
Proof. revert acc. induction s as [|c s IH]; intros acc; simpl; [done|]. apply IH. Qed.

Lemma rev_acc_rev_acc s :
  ∀ acc acc', Str.rev_acc (Str.rev_acc s acc) acc' = Str.rev_acc acc (s +:+ acc').
Proof.
  induction s as [|c s IH]; intros acc acc'; simpl; [done|].
  by rewrite IH.
Qed.

Lemma append_empty s : s +:+ "" = s.
Proof.
  induction s as [|c s IH]; [done|].
  change (String c (s +:+ "") = String c s). by rewrite IH.
Qed.

Lemma rev_rev s : Str.rev (Str.rev s) = s.
Proof. unfold Str.rev. rewrite rev_acc_rev_acc. cbn [Str.rev_acc]. apply append_empty. Qed.

Lemma normalize_area_in_quotes q1 q2 row :
  is_quote q1 = true → is_quote q2 = true →
  normalize_area (String q1 (row +:+ String q2 "")) = Str.trim row.
Proof.
  intros H1 H2. unfold normalize_area. cbn [strip_quote]. rewrite H1.
  unfold Str.rev at 2. rewrite rev_acc_app. cbn [Str.rev_acc strip_quote].
  rewrite H2. fold (Str.rev row). by rewrite rev_rev.
Qed.

Lemma normalize_area_unquoted row : unquoted row → normalize_area row = Str.trim row.
Proof. intros [H1 H2]. unfold normalize_area. by rewrite H1, H2, rev_rev. Qed.

(** X12. [set_grid_layout] reads a row written between quotes as the
    row itself: a call whose rows are all wrapped in single or double
    quotes has the same answer and the same effect as the call with the
    bare rows. *)
Theorem set_grid_layout_strips_quotes `{GridUtils} q c r g areas st :
  is_quote q = true → Forall unquoted areas →
  set_grid_layout (mkGrid c r g (map (in_quotes q) areas)) st
    = set_grid_layout (mkGrid c r g areas) st.
Proof.
  intros Hq Hareas. unfold set_grid_layout. cbn [templateAreas columns rows gap].
  assert (map normalize_area (map (in_quotes q) areas) = map normalize_area areas)
    as ->; [|done].
  rewrite map_map. apply Forall_fmap_ext_1.
  eapply Forall_impl; [exact Hareas|]. intros row Hrow. cbn beta.
  unfold in_quotes. rewrite normalize_area_in_quotes by done.
  by rewrite normalize_area_unquoted.
Qed.

Lemma set_grid_layout_strips_quotes_witness :
  set_grid_layout (H := GridSpec.gridUtils)
    (mkGrid "1fr 1fr" "auto" "8px"
       (map (in_quotes "'") ["header header"; "sidebar main"])) two_components
    = set_grid_layout (H := GridSpec.gridUtils)
        (mkGrid "1fr 1fr" "auto" "8px" ["header header"; "sidebar main"])
        two_components.
Proof.
  apply (set_grid_layout_strips_quotes (H := GridSpec.gridUtils) "'"
           "1fr 1fr" "auto" "8px" ["header header"; "sidebar main"] two_components);
    [reflexivity | repeat constructor].
Defined.

(** X13. With the root path ([$], [$.], or any path without a segment)
    [update_component] stores the updates in place of the component:
    nothing of the old component is kept, neither its id nor its
    metadata. *)
Theorem update_component_root_path now params st path :
  given_path params = Some path → Heap.path_parts path = [] →
  JS.truthy (component_of st (up_id params)) = true →
  update_component now params st
    = (succeed ("Component " +:+ quoted (up_id params) +:+ " updated successfully")
         (up_updates params),
       put_component (up_id params) (up_updates params) st).
Proof.
  intros Hpath Hparts Hc. unfold update_component. rewrite Hc, Hpath. cbn [negb].
  rewrite setValueAtPath_pure. unfold Pure.setValueAtPath. rewrite Hparts.
  destruct (Heap.is_root_path path); [done|].
  destruct (component_of st (up_id params)); try done.
  all: by destruct (String.eqb (Heap.cleanPath path) "").
Qed.

Lemma update_component_root_path_witness :
  update_component "2025-01-02T00:00:00.000Z"
    (mkUpdate "c1" (Some "$") (JObj [("title", JStr "only")])) two_components
    = (succeed ("Component " +:+ quoted "c1" +:+ " updated successfully")
         (JObj [("title", JStr "only")]),
       put_component "c1" (JObj [("title", JStr "only")]) two_components).
Proof.
  apply (update_component_root_path "2025-01-02T00:00:00.000Z"
           (mkUpdate "c1" (Some "$") (JObj [("title", JStr "only")]))
           two_components "$"); reflexivity.
Defined.

End ToolExtras.

(** ** The tools that fetch *)

Section FetchToolExtras.
Import Tools.

Lemma get_fetched_metadata c now d :
  JS.get (JS.get (fetched now c d) "metadata") "lastFetchedAt" = JStr now ∧
  JS.get (JS.get (fetched now c d) "metadata") "error" = JUndefined.
Proof.
  unfold fetched, with_data_and_metadata. cbn [JS.get].
  rewrite assoc_get_set_eq. unfold default; cbn [from_option]; unfold id; cbn [JS.get].
  unfold assoc_merge. cbn [fold_left fst snd].
  rewrite (assoc_get_set_ne "error" "lastFetchedAt") by done.
  by rewrite !assoc_get_set_eq.
Qed.

(** X14. When the fetch of an existing component returns,
    [fetch_component_data] answers [success: true] with the fetched
    value, stores it as the component's [data], and records
    [fetchStatus = success], the time of the fetch and no error. *)
Theorem fetch_component_data_success env clk id w v f' :
  JS.truthy (component_of (dashboard w) id) = true →
  Fetcher.fetchData env fetcherConfig (t_check clk) (t_store clk) id
    (JS.get (component_of (dashboard w) id) "dataConfig") (fetcher w) = (Ok v, f') →
  let '(r, w') := fetch_component_data env clk id w in
  let c' := component_of (dashboard w') id in
  success r = true ∧ data r = v ∧
  JS.get c' "data" = v ∧
  JS.get (JS.get c' "metadata") "fetchStatus" = JStr "success" ∧
  JS.get (JS.get c' "metadata") "lastFetchedAt" = JStr (iso clk) ∧
  JS.get (JS.get c' "metadata") "error" = JUndefined ∧
  fetcher w' = f'.
Proof.
  intros Hc Hf. unfold fetch_component_data. rewrite Hc, Hf.
  cbn [negb success data dashboard fetcher].
  rewrite !component_of_put_eq.
  destruct (get_fetched (loading (component_of (dashboard w) id)) (iso clk) v)
    as [Hs Hd].
  destruct (get_fetched_metadata (loading (component_of (dashboard w) id)) (iso clk) v)
    as [Hl He].
  repeat split; done.
Qed.

Lemma fetch_component_data_success_witness :
  let w := mkWorld (dashboard_with ["main"] [("c1", component_in "c1" "main")])
             Fetcher.empty in
  let '(r, w') := fetch_component_data offline noon "c1" w in
  let c' := component_of (dashboard w') "c1" in
  success r = true ∧ data r = JArr [JNum 1] ∧
  JS.get c' "data" = JArr [JNum 1] ∧
  JS.get (JS.get c' "metadata") "fetchStatus" = JStr "success" ∧
  JS.get (JS.get c' "metadata") "lastFetchedAt" = JStr (iso noon) ∧
  JS.get (JS.get c' "metadata") "error" = JUndefined ∧
  fetcher w'
    = Fetcher.mkState ∅ [] [JObj [("type", JStr "static"); ("data", JArr [JNum 1])]].
Proof.
  apply (fetch_component_data_success offline noon "c1"
           (mkWorld (dashboard_with ["main"] [("c1", component_in "c1" "main")])
              Fetcher.empty)
           (JArr [JNum 1])
           (Fetcher.mkState ∅ [] [JObj [("type", JStr "static"); ("data", JArr [JNum 1])]]));
    reflexivity.
Defined.



(** X16. The endpoint stored by [set_graphql_endpoint] and the schema
    stored by [set_postgres_schema] play no part in fetching: the answer
    of [fetch_component_data], the requests it sends and the components
    it leaves are the same with and without them. *)
Theorem fetch_ignores_stored_endpoint env clk id d f endpoint schema :
  let d1 := (set_postgres_schema schema (set_graphql_endpoint endpoint d).2).2 in
  let '(r, w') := fetch_component_data env clk id (mkWorld d f) in
  let '(r1, w1') := fetch_component_data env clk id (mkWorld d1 f) in
  r1 = r ∧ fetcher w1' = fetcher w' ∧
  components (dashboard w1') = components (dashboard w').
Proof.
  intros d1.
  assert (Hc : ∀ i, component_of d1 i = component_of d i) by done.
  unfold fetch_component_data. cbn [dashboard fetcher]. rewrite !Hc.
  destruct (JS.truthy (component_of d id)); cbn [negb]; [|by repeat split].
  destruct (Fetcher.fetchData _ _ _ _ _ _ _) as [[v|e] f'].
  all: cbn [dashboard fetcher]; rewrite !component_of_put_eq.
  all: split; [done|]; split; [done|].
  all: done.
Qed.

Lemma assoc_set_keys {A} k (v : A) l :
  k ∈ map fst l → map fst (assoc_set k v l) = map fst l.
Proof.
  induction l as [|[k' v'] l IH]; simpl; [by intros ?%elem_of_nil|].
  destruct (String.eqb_spec k' k) as [->|Hne]; [done|].
  intros [?|Hin]%elem_of_cons; [done|]. simpl. by rewrite IH.
Qed.

Lemma record_all_keys clock ids :
  ∀ rs acc, Forall (fun id => id ∈ map fst acc) ids →
    map fst (record_all clock ids rs acc) = map fst acc.
Proof.
  induction ids as [|id ids IH]; intros rs acc Hids; [done|].
  destruct rs as [|r rs]; [done|]. simpl.
  inversion Hids as [|? ? Hid Hrest]; subst.
  rewrite IH.
  - by apply assoc_set_keys.
  - rewrite assoc_set_keys by done. done.
Qed.

(** X17. [refresh_all_components] neither adds nor removes nor reorders
    components, and leaves the grid alone, in every outcome. *)
Theorem refresh_all_components_keeps_ids env clock w :
  let w' := (refresh_all_components env clock w).2 in
  map fst (components (dashboard w')) = map fst (components (dashboard w)) ∧
  grid (dashboard w') = grid (dashboard w).
Proof.
  unfold refresh_all_components.
  destruct (fetch_all env clock _ _) as [[rs|e] f']; cbn [snd dashboard]; [|done].
  split; [|done]. cbn [components with_components].
  apply record_all_keys. by apply Forall_forall.
Qed.

Lemma get_with_metadata_other ps fields k :
  k ≠ "metadata" → JS.get (with_metadata (JObj ps) fields) k = JS.get (JObj ps) k.
Proof.
  intros Hk. unfold with_metadata. cbn [JS.get JS.spread].
  by rewrite assoc_get_set_ne.
Qed.

Lemma get_with_data_and_metadata_other ps d fields k :
  k ≠ "metadata" → k ≠ "data" →
  JS.get (with_data_and_metadata (JObj ps) d fields) k = JS.get (JObj ps) k.
Proof.
  intros Hk Hd. unfold with_data_and_metadata. cbn [JS.get JS.spread].
  by rewrite !assoc_get_set_ne.
Qed.

Lemma recorded_other clock id r ps k :
  k ≠ "data" → k ≠ "metadata" →
  JS.get (recorded clock id r (JObj ps)) k = JS.get (JObj ps) k.
Proof.
  intros Hd Hm. destruct r as [v|e]; cbn [recorded]; unfold fetched, failed.
  - by apply get_with_data_and_metadata_other.
  - by apply get_with_metadata_other.
Qed.

Lemma assoc_get_elem {A} k (v : A) l :
  NoDup (map fst l) → (k, v) ∈ l → assoc_get k l = Some v.
Proof.
  induction l as [|[k' v'] l IH]; simpl; [by intros _ ?%elem_of_nil|].
  intros [Hk Hnd]%NoDup_cons [[= -> ->]|Hin]%elem_of_cons.
  - by rewrite String.eqb_refl.
  - destruct (String.eqb_spec k' k) as [->|_]; [|by apply IH].
    exfalso. apply Hk. apply list_elem_of_fmap. by exists (k, v).
Qed.

Lemma fetch_all_length env clock cs :
  ∀ f rs f', fetch_all env clock cs f = (Ok rs, f') → length rs = length cs.
Proof.
  induction cs as [|[id c] cs IH]; intros f rs f'; simpl; [by intros [= <- _]|].
  destruct (JS.prop c "dataConfig") as [dc|e]; [|done].
  destruct (Fetcher.fetchData _ _ _ _ _ _ _) as [r f1].
  destruct (fetch_all env clock cs f1) as [[rs'|e] f2] eqn:Hrest; [|done].
  intros [= <- _]. simpl. f_equal. by eapply IH.
Qed.

(** X18. Fetching changes nothing of a component but its [data] and its
    [metadata]: after [fetch_component_data] and after
    [refresh_all_components], in every outcome, every other property of
    the component ([gridArea], [title], [dataConfig], ...) is as
    before. *)
Theorem fetching_keeps_other_fields env clk clock id w ps k :
  k ≠ "data" → k ≠ "metadata" →
  (component_of (dashboard w) id = JObj ps →
   JS.get (component_of (dashboard (fetch_component_data env clk id w).2) id) k
     = JS.get (JObj ps) k) ∧
  (NoDup (map fst (components (dashboard w))) →
   (id, JObj ps) ∈ components (dashboard w) →
   JS.get (component_of (dashboard (refresh_all_components env clock w).2) id) k
     = JS.get (JObj ps) k).
Proof.
  intros Hd Hm. split.
  - intros Hc. unfold fetch_component_data. rewrite Hc. cbn [JS.truthy negb].
    destruct (Fetcher.fetchData _ _ _ _ _ _ _) as [[v|e] f']; cbn [snd dashboard].
    all: rewrite !component_of_put_eq.
    all: change (loading (JObj ps))
           with (JObj (assoc_set "metadata"
                         (JObj (assoc_merge (JS.spread (JS.get (JObj ps) "metadata"))
                                  [("fetchStatus", JStr "loading")]))
                         ps)).
    all: unfold fetched, failed.
    + rewrite get_with_data_and_metadata_other by done.
      cbn [JS.get]. by rewrite assoc_get_set_ne.
    + rewrite get_with_metadata_other by done.
      cbn [JS.get]. by rewrite assoc_get_set_ne.
  - intros Hnd Hin. pose proof (assoc_get_elem _ _ _ Hnd Hin) as Hget.
    unfold refresh_all_components.
    destruct (fetch_all env clock _ _) as [[rs|e] f'] eqn:Hall; cbn [snd dashboard].
    2: { unfold component_of. by rewrite Hget. }
    apply list_elem_of_lookup in Hin as [i Hi].
    assert (map fst (components (dashboard w)) !! i = Some id) as Hid.
    { by rewrite list_lookup_fmap, Hi. }
    destruct (lookup_lt_is_Some_2 rs i) as [r Hr].
    { rewrite (fetch_all_length _ _ _ _ _ _ Hall). by eapply lookup_lt_Some. }
    unfold component_of. cbn [components with_components].
    rewrite (record_all_at clock _ Hnd _ _ i id r Hid Hr), Hget.
    unfold default; cbn [from_option]. by apply recorded_other.
Qed.

Lemma fetching_keeps_other_fields_witness :
  JS.get (component_of
            (dashboard (refresh_all_components postgres_down (fun _ => noon)
                          three_components).2) "c3") "gridArea"
    = JS.get (JObj [("id", JStr "c3"); ("type", JStr "table"); ("gridArea", JStr "c");
                    ("title", JStr "c3");
                    ("dataConfig",
                     JObj [("source", JObj [("type", JStr "postgresql");
                                            ("query", JStr "select 1")])]);
                    ("data", JNull);
                    ("metadata", JObj [("createdAt", JStr "2025-01-01T00:00:00.000Z");
                                       ("fetchStatus", JStr "idle")])])
             "gridArea".
Proof.
  apply (fetching_keeps_other_fields postgres_down noon (fun _ => noon) "c3"
           three_components _ "gridArea");
    [ discriminate | discriminate
    | apply (bool_decide_unpack _); vm_compute; exact I
    | apply list_elem_of_lookup; exists 2%nat; reflexivity ].
Defined.

Lemma fetch_all_total env clock cs :
  Forall (fun kv => JS.nullish kv.2 = false) cs →
  ∀ f, ∃ rs f', fetch_all env clock cs f = (Ok rs, f').
Proof.
  induction 1 as [|[id c] cs Hc _ IH]; intros f; simpl; [eauto|].
  simpl in Hc. unfold JS.prop. rewrite Hc.
  destruct (Fetcher.fetchData _ _ _ _ _ _ _) as [r f1].
  destruct (IH f1) as (rs & f2 & ->). eauto.
Qed.

Lemma fetchStatus_recorded clock id r c :
  JS.get (JS.get (recorded clock id r c) "metadata") "fetchStatus"
    = JStr (match r with Ok _ => "success" | Throw _ => "error" end).
Proof.
  destruct r as [v|e]; cbn [recorded].
  - apply get_fetched.
  - apply get_failed_metadata.
Qed.

(** X19. [refresh_all_components] settles every fetch: as long as no
    stored component is [null] or [undefined] it answers
    [success: true] with the number of components, whatever the fetches
    do, and leaves every component with [fetchStatus] either [success]
    or [error]. *)
Theorem refresh_all_components_settles env clock w :
  Forall (fun kv => JS.nullish kv.2 = false) (components (dashboard w)) →
  NoDup (map fst (components (dashboard w))) →
  let '(r, w') := refresh_all_components env clock w in
  success r = true ∧
  data r = JObj [("refreshedCount",
                  JNum (Z.of_nat (length (components (dashboard w)))))] ∧
  ∀ id c, (id, c) ∈ components (dashboard w) →
    let status := JS.get (JS.get (component_of (dashboard w') id) "metadata")
                         "fetchStatus" in
    status = JStr "success" ∨ status = JStr "error".
Proof.
  intros Hobj Hnd. unfold refresh_all_components.
  destruct (fetch_all_total env clock _ Hobj (fetcher w)) as (rs & f' & Hall).
  rewrite Hall. cbn [success data dashboard]. rewrite length_map.
  split; [done|]. split; [done|].
  intros cid c Hin. cbv zeta.
  apply list_elem_of_lookup in Hin as [i Hi].
  assert (map fst (components (dashboard w)) !! i = Some cid) as Hid.
  { by rewrite list_lookup_fmap, Hi. }
  destruct (lookup_lt_is_Some_2 rs i) as [r Hr].
  { rewrite (fetch_all_length _ _ _ _ _ _ Hall). by eapply lookup_lt_Some. }
  unfold component_of. cbn [components with_components].
  rewrite (record_all_at clock _ Hnd _ _ i cid r Hid Hr).
  unfold default at 1; cbn [from_option]; unfold id.
  rewrite fetchStatus_recorded. destruct r; [by left|by right].
Qed.

Lemma refresh_all_components_settles_witness :
  let '(r, w') := refresh_all_components postgres_down (fun _ => noon)
                    three_components in
  success r = true ∧
  data r = JObj [("refreshedCount",
                  JNum (Z.of_nat (length (components (dashboard three_components)))))] ∧
  ∀ id c, (id, c) ∈ components (dashboard three_components) →
    let status := JS.get (JS.get (component_of (dashboard w') id) "metadata")
                         "fetchStatus" in
    status = JStr "success" ∨ status = JStr "error".
Proof.
  apply (refresh_all_components_settles postgres_down (fun _ => noon) three_components).
  - repeat constructor.
  - apply (bool_decide_unpack _). vm_compute. exact I.
Defined.

Lemma fetchFromSource_static env cfg source st :
  JS.is_string (JS.get source "type") "static" = true →
  Fetcher.fetchFromSource env cfg source st
    = (Ok (JS.get source "data"),
       Fetcher.mkState (Fetcher.cache st) (Fetcher.requests st)
         (Fetcher.invoked st ++ [source])).
Proof.
  intros Hty. unfold Fetcher.fetchFromSource, Fetcher.bind, Fetcher.log_source,
    Fetcher.lift, JS.prop.
  destruct (JS.nullish source) eqn:Hn; [by destruct source|]. cbn [bindR].
  destruct (JS.get source "type") as [| | | |ty| |]; try done.
  simpl in Hty. apply String.eqb_eq in Hty as ->. done.
Qed.

(** X20. A component created with a static source and no transform or
    caching shows its configured data after a fetch:
    [fetch_component_data] answers [success: true] with [source.data],
    stores it as the component's [data], and sends no request. *)
Theorem created_static_component_fetches_its_data
    `{GridUtils} env now clk p st r st' f :
  create_component now p st = (r, st') → success r = true →
  plain_config (cp_dataConfig p) = true →
  JS.is_string (JS.get (JS.get (cp_dataConfig p) "source") "type") "static" = true →
  let d := JS.get (JS.get (cp_dataConfig p) "source") "data" in
  let '(r2, w2) := fetch_component_data env clk (cp_id p) (mkWorld st' f) in
  success r2 = true ∧ data r2 = d ∧
  JS.get (component_of (dashboard w2) (cp_id p)) "data" = d ∧
  JS.get (JS.get (component_of (dashboard w2) (cp_id p)) "metadata") "fetchStatus"
    = JStr "success" ∧
  Fetcher.requests (fetcher w2) = Fetcher.requests f.
Proof.
  unfold create_component.
  destruct (JS.truthy (component_of st (cp_id p))); [by intros [= <- _]|].
  destruct (negb _); [by intros [= <- _]|].
  destruct (isGridAreaOccupied _ _).
  { destruct (find_in_area _ _); by intros [= <- _]. }
  intros [= <- <-] _ Hplain Hstatic.
  set (d := JS.get (JS.get (cp_dataConfig p) "source") "data").
  unfold fetch_component_data. cbn [dashboard fetcher].
  rewrite component_of_put_eq.
  change (JS.truthy (newComponent now p)) with true.
  change (JS.get (newComponent now p) "dataConfig") with (cp_dataConfig p).
  cbn [negb].
  destruct (fetchData_plain env fetcherConfig (t_check clk) (t_store clk) (cp_id p)
              (cp_dataConfig p) f Hplain) as (v & f' & -> & Hsrc).
  rewrite fetchFromSource_static in Hsrc by done.
  injection Hsrc as <- <-.
  cbn [success data dashboard fetcher Fetcher.requests].
  rewrite !component_of_put_eq.
  destruct (get_fetched (loading (newComponent now p)) (iso clk) d) as [Hs Hd].
  repeat split; done.
Qed.

Lemma created_static_component_fetches_its_data_witness :
  let st' := (create_component (H := GridSpec.gridUtils) "t1" orders_params
                empty_two_by_two).2 in
  let d := JS.get (JS.get (cp_dataConfig orders_params) "source") "data" in
  let '(r2, w2) := fetch_component_data offline noon (cp_id orders_params)
                     (mkWorld st' Fetcher.empty) in
  success r2 = true ∧ data r2 = d ∧
  JS.get (component_of (dashboard w2) (cp_id orders_params)) "data" = d ∧
  JS.get (JS.get (component_of (dashboard w2) (cp_id orders_params)) "metadata")
         "fetchStatus" = JStr "success" ∧
  Fetcher.requests (fetcher w2) = Fetcher.requests Fetcher.empty.
Proof.
  eapply (created_static_component_fetches_its_data (H := GridSpec.gridUtils)
            offline "t1" noon orders_params empty_two_by_two);
    [apply surjective_pairing | reflexivity | reflexivity | reflexivity].
Defined.

End FetchToolExtras.

(** ** The stored schema *)

Section SchemaExtras.
Import Tools.

Lemma table_matches_total tn sn t :
  JS.nullish t = false → table_matches tn sn t = Ok (matches_table tn sn t).
Proof. intros Hn. unfold table_matches, JS.prop. by rewrite Hn. Qed.

Lemma find_table_first tn sn ts :
  Forall (fun t => JS.nullish t = false) ts →
  (∃ i t, find_table tn sn ts = Ok t ∧ ts !! i = Some t ∧
          matches_table tn sn t = true ∧
          ∀ j t', (j < i)%nat → ts !! j = Some t' → matches_table tn sn t' = false) ∨
  (find_table tn sn ts = Ok JUndefined ∧
   Forall (fun t => matches_table tn sn t = false) ts).
Proof.
  induction 1 as [|t ts Ht _ IH]; simpl.
  { right. by split. }
  rewrite (table_matches_total _ _ _ Ht). cbn [bindR].
  destruct (matches_table tn sn t) eqn:Hm.
  - left. exists 0%nat, t. repeat split; try done. intros j t' Hj. lia.
  - destruct IH as [(i & t0 & Hf & Hi & Hm0 & Hfirst)|[Hf Hnone]].
    + left. exists (S i), t0. repeat split; try done.
      intros [|j] t' Hj; simpl.
      * by intros [= <-].
      * apply Hfirst. lia.
    + right. split; [done|]. by constructor.
Qed.

Lemma tables_in_filter sn ts :
  Forall (fun t => JS.nullish t = false) ts →
  tables_in sn ts
    = Ok (filter (fun t => JS.is_string (JS.get t "schema") sn = true) ts).
Proof.
  induction 1 as [|t ts Ht _ IH]; simpl; [done|].
  unfold JS.prop. rewrite Ht, IH. cbn [bindR].
  rewrite filter_cons. by destruct (JS.is_string (JS.get t "schema") sn).
Qed.

Lemma matches_table_object tn sn t :
  matches_table tn sn t = true → JS.truthy t = true.
Proof.
  unfold matches_table. intros [Hname _]%andb_true_iff.
  by destruct t.
Qed.

(** X21. With a schema stored whose [tables] are an array without
    [null] entries, [query_postgres_schema] never throws, and: with a
    table name it returns the first table of that name (in the given
    schema, if one is named) and answers "not found" exactly when no
    table matches; with a schema name only it returns the tables of that
    schema, in order; with neither it returns the [schemas] of the stored
    schema. *)
Theorem query_postgres_schema_answers params st ts :
  JS.truthy (postgresSchema st) = true →
  JS.get (postgresSchema st) "tables" = JArr ts →
  Forall (fun t => JS.nullish t = false) ts →
  ∃ r, query_postgres_schema params st = Ok r ∧
    match given (qp_tableName params), given (qp_schemaName params) with
    | Some tn, sn =>
        (success r = true ∧
         ∃ i, ts !! i = Some (data r) ∧ matches_table tn sn (data r) = true ∧
              ∀ j t, (j < i)%nat → ts !! j = Some t → matches_table tn sn t = false) ∨
        (r = fail ("Table " +:+ quoted tn +:+ " not found in schema") ∧
         Forall (fun t => matches_table tn sn t = false) ts)
    | None, Some sn =>
        r = succeed "Schema query successful"
              (JArr (filter (fun t => JS.is_string (JS.get t "schema") sn = true) ts))
    | None, None =>
        r = succeed "Schema query successful" (JS.get (postgresSchema st) "schemas")
    end.
Proof.
  intros Hs Hts Hobj. unfold query_postgres_schema. rewrite Hs, Hts.
  cbn [negb array_receiver bindR].
  destruct (given (qp_tableName params)) as [tn|] eqn:Htn.
  - destruct (find_table_first tn (given (qp_schemaName params)) ts Hobj)
      as [(i & t & -> & Hi & Hm & Hfirst)|[-> Hnone]]; cbn [bindR].
    + rewrite (matches_table_object _ _ _ Hm). cbn [negb].
      eexists. split; [reflexivity|]. left. split; [done|]. eauto.
    + cbn [JS.truthy negb]. eexists. split; [reflexivity|]. by right.
  - destruct (given (qp_schemaName params)) as [sn|].
    + rewrite (tables_in_filter sn ts Hobj). cbn [bindR]. eauto.
    + eauto.
Qed.

Lemma query_postgres_schema_answers_witness :
  let st := (set_postgres_schema two_schemas empty_two_by_two).2 in
  ∃ r, query_postgres_schema (mkQuery (Some "sales") (Some "orders")) st = Ok r ∧
    ((success r = true ∧
      ∃ i, [JObj [("schema", JStr "public"); ("name", JStr "orders")];
            JObj [("schema", JStr "sales"); ("name", JStr "orders")];
            JObj [("schema", JStr "sales"); ("name", JStr "items")]] !! i
             = Some (data r) ∧
           matches_table "orders" (Some "sales") (data r) = true ∧
           ∀ j t, (j < i)%nat →
             [JObj [("schema", JStr "public"); ("name", JStr "orders")];
              JObj [("schema", JStr "sales"); ("name", JStr "orders")];
              JObj [("schema", JStr "sales"); ("name", JStr "items")]] !! j = Some t →
             matches_table "orders" (Some "sales") t = false) ∨
     (r = fail ("Table " +:+ quoted "orders" +:+ " not found in schema") ∧
      Forall (fun t => matches_table "orders" (Some "sales") t = false)
        [JObj [("schema", JStr "public"); ("name", JStr "orders")];
         JObj [("schema", JStr "sales"); ("name", JStr "orders")];
         JObj [("schema", JStr "sales"); ("name", JStr "items")]])).
Proof.
  apply (query_postgres_schema_answers (mkQuery (Some "sales") (Some "orders"))
           (set_postgres_schema two_schemas empty_two_by_two).2);
    [reflexivity | reflexivity | repeat constructor].
Defined.

End SchemaExtras.

(** ** The dashboard view *)

Section ViewExtras.
Import Builder.

Lemma split_on_not_nil sep s : Str.split_on sep s ≠ [].
Proof.
  destruct s as [|c s]; simpl; [done|].
  destruct (sep c); [done|]. by destruct (Str.split_on sep s).
Qed.

Lemma split_on_app_sep sep s c t :
  sep c = true →
  Str.split_on sep (s +:+ String c t) = Str.split_on sep s ++ Str.split_on sep t.
Proof.
  intros Hc. induction s as [|a s IH]; simpl.
  - by rewrite Hc.
  - change (String.append s (String c t)) with (s +:+ String c t). rewrite IH.
    destruct (sep a); [done|].
    pose proof (split_on_not_nil sep s) as Hne.
    by destruct (Str.split_on sep s).
Qed.

(** The tokens of the joined rows are the tokens of the rows. *)
Lemma words_join rows :
  Str.words (Str.join " " rows) = concat (map Str.words rows).
Proof.
  unfold Str.words. induction rows as [|row rest IH]; [done|].
  destruct rest as [|row2 rest].
  - simpl. by rewrite app_nil_r.
  - change (Str.join " " (row :: row2 :: rest))
      with (row +:+ String " " (Str.join " " (row2 :: rest))).
    rewrite split_on_app_sep by done. rewrite filter_app, IH. done.
Qed.

Lemma elem_of_concat {A} (x : A) ls : x ∈ concat ls ↔ ∃ l, l ∈ ls ∧ x ∈ l.
Proof.
  induction ls as [|l ls IH]; simpl.
  - split; [by intros ?%elem_of_nil|]. by intros (l & ?%elem_of_nil & _).
  - rewrite elem_of_app, IH. split.
    + intros [Hx|(l' & Hl' & Hx)]; [exists l|exists l']; split; try done.
      * by left.
      * by right.
    + intros (l' & [->|Hl']%elem_of_cons & Hx); [by left|right; eauto].
Qed.

Lemma existsb_eqb_elem x seen :
  existsb (String.eqb x) seen = true ↔ x ∈ seen.
Proof.
  induction seen as [|y seen IH]; simpl.
  - split; [done|by intros ?%elem_of_nil].
  - rewrite orb_true_iff, IH, elem_of_cons, String.eqb_eq. done.
Qed.

(** [[...new Set(l)]]: the distinct elements of [l]. *)
Lemma dedup_from_spec l :
  ∀ seen, NoDup (dedup_from seen l) ∧
          ∀ x, x ∈ dedup_from seen l ↔ x ∈ l ∧ x ∉ seen.
Proof.
  induction l as [|y l IH]; intros seen; simpl.
  { split; [constructor|]. intros x. split; [by intros ?%elem_of_nil|].
    by intros [?%elem_of_nil _]. }
  destruct (existsb (String.eqb y) seen) eqn:Hy.
  - apply existsb_eqb_elem in Hy. destruct (IH seen) as [Hnd Hel].
    split; [done|]. intros x. rewrite Hel, elem_of_cons.
    split; [intros [? ?]; by split; [right|]|].
    intros [[->|?] ?]; by split.
  - assert (y ∉ seen) as Hy'.
    { intros Hin%existsb_eqb_elem. congruence. }
    destruct (IH (y :: seen)) as [Hnd Hel]. split.
    + constructor; [|done]. rewrite Hel. intros [_ Hn]. apply Hn. by left.
    + intros x. rewrite !elem_of_cons, Hel, elem_of_cons. split.
      * intros [->|[Hx Hn]]; [by split; [left|]|].
        split; [by right|]. intros Hs. apply Hn. by right.
      * intros [[->|Hx] Hn]; [by left|].
        destruct (decide (x = y)) as [->|Hne]; [by left|].
        right. split; [done|]. by intros [?|?].
Qed.

Lemma gridAreas_nodup st : NoDup (gridAreas st).
Proof. unfold gridAreas. apply dedup_from_spec. Qed.

(** X22. The areas of the view are the distinct tokens of the rows of
    [templateAreas] other than the placeholder [.]: each occurs once,
    and a name is an area exactly when it is a token of some row. *)
Theorem gridAreas_are_the_tokens st :
  NoDup (gridAreas st) ∧
  ∀ area, area ∈ gridAreas st ↔
          area ≠ "." ∧ ∃ row, row ∈ templateAreas (grid st) ∧ area ∈ Str.words row.
Proof.
  unfold gridAreas.
  destruct (dedup_from_spec
              (filter (fun area => Str.nonempty area && negb (String.eqb area ".") = true)
                 (Str.split_on Ascii.is_space (Str.join " " (templateAreas (grid st)))))
              []) as [Hnd Hel].
  split; [done|]. intros area. rewrite Hel, list_elem_of_filter.
  rewrite andb_true_iff, negb_true_iff, String.eqb_neq.
  transitivity (area ≠ "." ∧ area ∈ Str.words (Str.join " " (templateAreas (grid st)))).
  - unfold Str.words. rewrite list_elem_of_filter.
    split; [intros [[[? ?] ?] _]; done|].
    intros [? [? ?]]. split; [done|]. by intros ?%elem_of_nil.
  - rewrite words_join, elem_of_concat. split.
    + intros [Hd (ws & Hws & Ha)]. split; [done|].
      apply list_elem_of_fmap in Hws as (row & -> & Hrow). eauto.
    + intros [Hd (row & Hrow & Ha)]. split; [done|].
      exists (Str.words row). split; [|done]. apply list_elem_of_fmap. eauto.
Qed.

Lemma find_in_area_found area cs c :
  Tools.find_in_area area cs = Ok c → JS.truthy c = true →
  JS.get c "gridArea" = JStr area ∧ ∃ id, (id, c) ∈ cs.
Proof.
  induction cs as [|[id c0] cs IH]; simpl; [by intros [= <-]|].
  unfold JS.prop. destruct (JS.nullish c0); [done|]. cbn [bindR].
  destruct (JS.is_string (JS.get c0 "gridArea") area) eqn:Ha.
  - intros [= <-] _. split.
    + destruct (JS.get c0 "gridArea"); try done. simpl in Ha.
      by apply String.eqb_eq in Ha as ->.
    + exists id. by left.
  - intros Hf Ht. destruct (IH Hf Ht) as [Hg (id' & Hin)].
    split; [done|]. exists id'. by right.
Qed.

Lemma with_components_of_spec cs areas entries :
  with_components_of cs areas = Ok entries →
  map fst entries = areas ∧
  Forall (fun entry => Tools.find_in_area entry.1 cs = Ok entry.2) entries.
Proof.
  revert entries. induction areas as [|area areas IH]; intros entries; simpl.
  { by intros [= <-]. }
  destruct (Tools.find_in_area area cs) as [c|e] eqn:Hf; [|done]. cbn [bindR].
  destruct (with_components_of cs areas) as [others|e]; [|done]. cbn [bindR].
  intros [= <-]. destruct (IH others eq_refl) as [Hk Hall].
  split; [simpl; by rewrite Hk|]. by constructor.
Qed.

(** X23. What the grid shows: one cell for each area; a component that
    is shown sits in the area of its cell, so a component whose
    [gridArea] is not an area of the layout is not shown, and no two
    cells show components of the same [gridArea], however many
    components are stored for it. *)
Theorem cells_show_one_component_per_area st cs :
  cells st = Ok cs →
  length cs = length (gridAreas st) ∧
  (∀ i c, cs !! i = Some (Rendered c) →
     (∃ id, (id, c) ∈ components st) ∧
     ∃ area, gridAreas st !! i = Some area ∧ JS.get c "gridArea" = JStr area) ∧
  (∀ i j c1 c2, cs !! i = Some (Rendered c1) → cs !! j = Some (Rendered c2) →
     JS.get c1 "gridArea" = JS.get c2 "gridArea" → i = j).
Proof.
  unfold cells, gridAreasWithComponents.
  destruct (with_components_of (components st) (gridAreas st)) as [entries|e] eqn:He;
    [|done].
  cbn [bindR]. intros [= <-].
  destruct (with_components_of_spec _ _ _ He) as [Hk Hall].
  assert (Hcell : ∀ i c, map cell_of entries !! i = Some (Rendered c) →
            (∃ id, (id, c) ∈ components st) ∧
            ∃ area, gridAreas st !! i = Some area ∧ JS.get c "gridArea" = JStr area).
  { intros i c Hi. rewrite list_lookup_fmap in Hi.
    destruct (entries !! i) as [[area c0]|] eqn:Hei; [|done].
    simpl in Hi. unfold cell_of in Hi. cbn [fst snd] in Hi.
    destruct (JS.truthy c0) eqn:Ht; [|done]. injection Hi as ->.
    pose proof (proj1 (Forall_lookup _ _) Hall i _ Hei) as Hf. simpl in Hf.
    destruct (find_in_area_found _ _ _ Hf Ht) as [Hg Hin].
    split; [done|]. exists area. split; [|done].
    by rewrite <- Hk, list_lookup_fmap, Hei. }
  split; [by rewrite length_map, <- Hk, length_map|].
  split; [done|].
  intros i j c1 c2 Hi Hj Hsame.
  destruct (Hcell _ _ Hi) as [_ (a1 & Ha1 & Hg1)].
  destruct (Hcell _ _ Hj) as [_ (a2 & Ha2 & Hg2)].
  assert (a1 = a2) as <- by congruence.
  pose proof (gridAreas_nodup st) as Hnd.
  by eapply NoDup_lookup.
Qed.

Lemma cells_show_one_component_per_area_witness :
  let cs := [EmptyArea "header"; EmptyArea "sidebar";
             Rendered (component_in "c1" "main")] in
  length cs = length (gridAreas crowded) ∧
  (∀ i c, cs !! i = Some (Rendered c) →
     (∃ id, (id, c) ∈ components crowded) ∧
     ∃ area, gridAreas crowded !! i = Some area ∧ JS.get c "gridArea" = JStr area) ∧
  (∀ i j c1 c2, cs !! i = Some (Rendered c1) → cs !! j = Some (Rendered c2) →
     JS.get c1 "gridArea" = JS.get c2 "gridArea" → i = j).
Proof.
  apply (cells_show_one_component_per_area crowded). reflexivity.
Defined.

End ViewExtras.

(** ** The cache of the fetcher *)

Section FetcherExtras.
Import Fetcher.
Context (env : Env) (cfg : Config).

Lemma cache_answer_eq t_check componentId config st :
  JS.nullish config = false →
  cache_answer t_check componentId config st =
    if caching config
    then match cache st !! componentId with
         | None => (Ok None, st)
         | Some e =>
             if JS.gt (t_check - timestamp e)
                  (JS.or_else (JS.get (JS.get config "cache") "ttl") (JNum 60000))
             then (Ok None,
                   mkState (delete componentId (cache st)) (requests st) (invoked st))
             else (Ok (if JS.is_null (data e) then None else Some (data e)), st)
         end
    else (Ok None, st).
Proof.
  intros Hn. unfold cache_answer, bind, lift, ret, getFromCache, JS.prop.
  rewrite Hn. fold (caching config).
  destruct (caching config); [|done].
  destruct (cache st !! componentId) as [e|]; [|done].
  by destruct (JS.gt _ _).
Qed.

Lemma cache_answer_nullish t_check componentId config st :
  JS.nullish config = true →
  ∃ e, cache_answer t_check componentId config st = (Throw e, st).
Proof.
  intros Hn. unfold cache_answer, bind, lift, JS.prop. rewrite Hn. eauto.
Qed.

Lemma caching_not_nullish config : caching config = true → JS.nullish config = false.
Proof. unfold caching. by destruct config. Qed.

Lemma effective_ttl_gt ttl n age :
  effective_ttl ttl n → JS.gt age (JS.or_else ttl (JNum 60000)) = (n <? age).
Proof.
  intros [[-> ->]|[-> Hn]]; [done|].
  unfold JS.or_else. simpl. by destruct (Z.eqb_spec n 0).
Qed.

(** X24. With caching enabled, a first fetch of a component that
    returns a value other than [null] is answered from the cache the next
    time, for as long as the entry is within its time to live: the same
    value, no call of the source, no request, nothing changed. *)
Theorem fetchData_second_call_is_cached
    t_check1 t_store1 t_check2 t_store2 componentId config st v st1 n :
  caching config = true →
  cache st !! componentId = None →
  fetchData env cfg t_check1 t_store1 componentId config st = (Ok v, st1) →
  v ≠ JNull →
  effective_ttl (JS.get (JS.get config "cache") "ttl") n →
  t_check2 - t_store1 ≤ n →
  fetchData env cfg t_check2 t_store2 componentId config st1 = (Ok v, st1).
Proof.
  intros Hen Hnone Hfirst Hv Httl Hage.
  pose proof (caching_not_nullish _ Hen) as Hn.
  rewrite fetchData_unfold, cache_answer_eq, Hen, Hnone in Hfirst by done.
  pose proof (fetch_and_transform_spec env cfg t_store1 componentId config st) as Hs.
  rewrite Hfirst, Hen in Hs. destruct Hs as [_ Hc].
  rewrite fetchData_unfold, cache_answer_eq, Hen, Hc by done.
  rewrite lookup_insert_eq. cbn [timestamp data].
  rewrite (effective_ttl_gt _ n) by done.
  destruct (Z.ltb_spec n (t_check2 - t_store1)); [lia|].
  by destruct v.
Qed.

Lemma fetchData_nullish t_check t_store componentId config st :
  JS.nullish config = true →
  ∃ e, fetchData env cfg t_check t_store componentId config st = (Throw e, st).
Proof.
  intros Hn. rewrite fetchData_unfold.
  destruct (cache_answer_nullish t_check componentId config st Hn) as [e ->]. eauto.
Qed.

(** X25. What [fetchData] does to the cache: the entries of the other
    components are never touched; the entry of the component itself is
    as before or deleted when the call throws, and as before or the value
    just returned, stamped with the time of storing, when it returns. *)
Theorem fetchData_cache_effect t_check t_store componentId config st :
  let '(r, st') := fetchData env cfg t_check t_store componentId config st in
  (∀ other, other ≠ componentId → cache st' !! other = cache st !! other) ∧
  match r with
  | Throw _ =>
      cache st' !! componentId = cache st !! componentId ∨
      cache st' !! componentId = None
  | Ok v =>
      cache st' !! componentId = cache st !! componentId ∨
      (caching config = true ∧
       cache st' !! componentId = Some (mkEntry v t_store))
  end.
Proof.
  destruct (JS.nullish config) eqn:Hn.
  { destruct (fetchData_nullish t_check t_store componentId config st Hn) as [e ->].
    split; [done|by left]. }
  rewrite fetchData_unfold, cache_answer_eq by done.
  pose proof (fetch_and_transform_spec env cfg t_store componentId config) as Hs.
  destruct (caching config) eqn:Hen.
  2: { specialize (Hs st).
       destruct (fetch_and_transform _ _ _ _ _ _) as [[v|e] st']; destruct Hs as [_ ->];
         split; try done; by left. }
  destruct (cache st !! componentId) as [e|] eqn:He.
  2: { specialize (Hs st).
       destruct (fetch_and_transform _ _ _ _ _ _) as [[v|e] st']; destruct Hs as [_ ->].
       - split; [intros other Hne; by rewrite lookup_insert_ne|].
         right. split; [done|]. by rewrite lookup_insert_eq.
       - split; [done|]. by left. }
  destruct (JS.gt _ _).
  - specialize (Hs (mkState (delete componentId (cache st)) (requests st) (invoked st))).
    destruct (fetch_and_transform _ _ _ _ _ _) as [[v|e'] st']; destruct Hs as [_ ->];
      cbn [cache].
    + split; [intros other Hne; by rewrite lookup_insert_ne, lookup_delete_ne|].
      right. split; [done|]. by rewrite lookup_insert_eq.
    + split; [intros other Hne; by rewrite lookup_delete_ne|].
      right. by rewrite lookup_delete_eq.
  - destruct (JS.is_null (data e)).
    + specialize (Hs st).
      destruct (fetch_and_transform _ _ _ _ _ _) as [[v|e'] st']; destruct Hs as [_ ->].
      * split; [intros other Hne; by rewrite lookup_insert_ne|].
        right. split; [done|]. by rewrite lookup_insert_eq.
      * split; [done|]. by left.
    + split; [done|]. by left.
Qed.

(** X26. With caching off in the configuration the cache plays no part:
    [fetchData] leaves it as it is and calls the source, every time. *)
Theorem fetchData_without_caching t_check t_store componentId config st :
  JS.nullish config = false → caching config = false →
  let st' := (fetchData env cfg t_check t_store componentId config st).2 in
  cache st' = cache st ∧ invoked st' = invoked st ++ [JS.get config "source"].
Proof.
  intros Hn Hen. rewrite fetchData_unfold, cache_answer_eq, Hen by done.
  pose proof (fetch_and_transform_spec env cfg t_store componentId config st) as Hs.
  rewrite Hen in Hs.
  destruct (fetch_and_transform _ _ _ _ _ _) as [[v|e] st'];
    destruct Hs as [Hi Hc]; by split.
Qed.

(** X27. [clearCache] with an id drops the entry of that id and keeps
    the others; without an id, or with the empty id, it drops every
    entry.  After it the next fetch of the component calls the source,
    whatever the time to live. *)
Theorem clearCache_forces_refetch t_check t_store componentId config st :
  Str.nonempty componentId = true → JS.nullish config = false →
  let st0 := (clearCache (Some componentId) st).2 in
  cache st0 !! componentId = None ∧
  (∀ other, other ≠ componentId → cache st0 !! other = cache st !! other) ∧
  cache (clearCache None st).2 = ∅ ∧
  cache (clearCache (Some EmptyString) st).2 = ∅ ∧
  invoked (fetchData env cfg t_check t_store componentId config st0).2
    = invoked st ++ [JS.get config "source"].
Proof.
  intros Hid Hn. unfold clearCache. rewrite Hid. cbn [snd cache Str.nonempty].
  split; [by rewrite lookup_delete_eq|].
  split; [intros other Hne; by rewrite lookup_delete_ne|].
  split; [done|]. split; [done|].
  rewrite fetchData_unfold, cache_answer_eq by done. cbn [cache].
  rewrite lookup_delete_eq.
  pose proof (fetch_and_transform_spec env cfg t_store componentId config
                (mkState (delete componentId (cache st)) (requests st) (invoked st)))
    as Hs.
  destruct (caching config);
    destruct (fetch_and_transform _ _ _ _ _ _) as [[v|e] st'];
    destruct Hs as [Hi _]; exact Hi.
Qed.




Lemma fetchFromSource_throws source st e st' :
  fetchFromSource env cfg source st = (Throw e, st') →
  (JS.nullish source = true ∧ e = JS.read_TypeError source "type") ∨
  (JS.included ["postgresql"; "graphql"; "static"] (JS.get source "type") = false ∧
   e = ErrorObj "Error"
         ("Unknown data source type: " +:+ JS.to_string (JS.get source "type"))).
Proof.
  unfold fetchFromSource, bind, log_source, lift, throw, JS.prop.
  destruct (JS.nullish source); [intros [= <- _]; by left|]. cbn [bindR].
  set (st1 := mkState _ _ _).
  destruct (JS.is_string (JS.get source "type") "postgresql") eqn:Hp.
  { by destruct (fetchFromPostgreSQL_total env cfg source st1) as (v & st2 & -> & _). }
  destruct (JS.is_string (JS.get source "type") "graphql") eqn:Hg.
  { by destruct (fetchFromGraphQL_total env cfg source st1) as (v & st2 & -> & _). }
  destruct (JS.is_string (JS.get source "type") "static") eqn:Hs; [done|].
  intros [= <- _]. right. split; [|done].
  destruct (JS.get source "type") as [| | | |ty| |]; try done.
  simpl in *. by rewrite Hp, Hg, Hs.
Qed.

(** X29. Everything [fetchData] can throw: the [TypeError] of reading
    [cache] from a missing configuration or [type] from a missing
    source, the error for an unknown source type, and the two errors that
    wrap a failure of the template and of the query transform. *)
Theorem fetchData_errors t_check t_store componentId config st e st' :
  fetchData env cfg t_check t_store componentId config st = (Throw e, st') →
  let source := JS.get config "source" in
  (JS.nullish config = true ∧ e = JS.read_TypeError config "cache") ∨
  (JS.nullish source = true ∧ e = JS.read_TypeError source "type") ∨
  (JS.included ["postgresql"; "graphql"; "static"] (JS.get source "type") = false ∧
   e = ErrorObj "Error"
         ("Unknown data source type: " +:+ JS.to_string (JS.get source "type"))) ∨
  (JS.truthy (JS.get config "handlebarsTemplate") = true ∧
   ∃ cause, e = ErrorObj "Error"
                  ("Handlebars template failed: " +:+ thrown_to_string cause)) ∨
  (JS.truthy (JS.get config "alasqlTransform") = true ∧
   ∃ cause, e = ErrorObj "Error"
                  ("AlaSQL transform failed: " +:+ thrown_to_string cause)).
Proof.
  intros Hthrow source.
  destruct (JS.nullish config) eqn:Hn.
  { left. split; [done|]. revert Hthrow. rewrite fetchData_unfold.
    unfold cache_answer, bind, lift, JS.prop. rewrite Hn. by intros [= <- _]. }
  right.
  assert (Hrest : ∀ st0,
            fetch_and_transform env cfg t_store componentId config st0 = (Throw e, st') →
            (JS.nullish source = true ∧ e = JS.read_TypeError source "type") ∨
            (JS.included ["postgresql"; "graphql"; "static"] (JS.get source "type")
               = false ∧
             e = ErrorObj "Error"
                   ("Unknown data source type: "
                      +:+ JS.to_string (JS.get source "type"))) ∨
            (JS.truthy (JS.get config "handlebarsTemplate") = true ∧
             ∃ cause, e = ErrorObj "Error"
                            ("Handlebars template failed: "
                               +:+ thrown_to_string cause)) ∨
            (JS.truthy (JS.get config "alasqlTransform") = true ∧
             ∃ cause, e = ErrorObj "Error"
                            ("AlaSQL transform failed: " +:+ thrown_to_string cause))).
  { intros st0. unfold fetch_and_transform, bind, lift, ret.
    destruct (fetchFromSource env cfg (JS.get config "source") st0)
      as [[raw|e0] st1] eqn:Hsrc.
    2: { intros [= <- _].
         destruct (fetchFromSource_throws _ _ _ _ Hsrc) as [H|H]; [by left|by right; left]. }
    destruct (JS.truthy (JS.get config "handlebarsTemplate")) eqn:Hhb.
    all: try (unfold applyHandlebarsTemplate at 1;
              destruct (hb_render env _ _) as [result|cause];
              [|intros [= <- _]; right; right; left; split; [done|by eexists]]).
    all: try (destruct (looks_like_json result);
              [destruct (json_parse env result)|]).
    all: destruct (JS.truthy (JS.get config "alasqlTransform")) eqn:Hal.
    all: try (unfold applyAlaSQLTransform at 1;
              destruct (alasql env _ _) as [result2|cause];
              [|intros [= <- _]; right; right; right; split; [done|by eexists]]).
    all: by destruct (caching config). }
  revert Hthrow. rewrite fetchData_unfold, cache_answer_eq by done.
  destruct (caching config); [|by apply Hrest].
  destruct (cache st !! componentId) as [entry|]; [|by apply Hrest].
  destruct (JS.gt _ _); [by apply Hrest|].
  destruct (JS.is_null (data entry)); [by apply Hrest|done].
Qed.

End FetcherExtras.

Lemma fetchData_second_call_is_cached_witness :
  let st1 := (Fetcher.fetchData offline Tools.fetcherConfig 0 10 "c1" cached_query
                Fetcher.empty).2 in
  Fetcher.fetchData offline Tools.fetcherConfig 500 510 "c1" cached_query st1
    = (Ok (Fetcher.soft (JStr "Failed to fetch")), st1).
Proof.
  intros st1.
  apply (fetchData_second_call_is_cached offline Tools.fetcherConfig 0 10 500 510 "c1"
           cached_query Fetcher.empty (Fetcher.soft (JStr "Failed to fetch")) st1 1000);
    [ reflexivity | reflexivity | reflexivity | discriminate
    | right; split; [reflexivity | lia] | lia ].
Defined.

Lemma fetchData_without_caching_witness :
  let config := JObj [("source", JObj [("type", JStr "static"); ("data", JNum 7)])] in
  let st' := (Fetcher.fetchData offline Tools.fetcherConfig 1500 1500 "c1" config
                cached_42).2 in
  Fetcher.cache st' = Fetcher.cache cached_42 ∧
  Fetcher.invoked st' = Fetcher.invoked cached_42 ++ [JS.get config "source"].
Proof.
  apply (fetchData_without_caching offline Tools.fetcherConfig 1500 1500 "c1"
           (JObj [("source", JObj [("type", JStr "static"); ("data", JNum 7)])])
           cached_42); reflexivity.
Defined.

Lemma clearCache_forces_refetch_witness :
  let st0 := (Fetcher.clearCache (Some "c1") cached_42).2 in
  Fetcher.cache st0 !! "c1" = None ∧
  (∀ other, other ≠ "c1" → Fetcher.cache st0 !! other = Fetcher.cache cached_42 !! other) ∧
  Fetcher.cache (Fetcher.clearCache None cached_42).2 = ∅ ∧
  Fetcher.cache (Fetcher.clearCache (Some EmptyString) cached_42).2 = ∅ ∧
  Fetcher.invoked
    (Fetcher.fetchData offline Tools.fetcherConfig 1500 1500 "c1"
       (static_cached (JNum 1000)) st0).2
    = Fetcher.invoked cached_42 ++ [JS.get (static_cached (JNum 1000)) "source"].
Proof.
  apply (clearCache_forces_refetch offline Tools.fetcherConfig 1500 1500 "c1"
           (static_cached (JNum 1000)) cached_42); reflexivity.
Defined.

Lemma fetchData_errors_witness :
  let source := JS.get broken_template "source" in
  let e := ErrorObj "Error"
             ("Handlebars template failed: "
                +:+ thrown_to_string (ErrorObj "Error" "Parse error on line 1")) in
  (JS.nullish broken_template = true ∧ e = JS.read_TypeError broken_template "cache") ∨
  (JS.nullish source = true ∧ e = JS.read_TypeError source "type") ∨
  (JS.included ["postgresql"; "graphql"; "static"] (JS.get source "type") = false ∧
   e = ErrorObj "Error"
         ("Unknown data source type: " +:+ JS.to_string (JS.get source "type"))) ∨
  (JS.truthy (JS.get broken_template "handlebarsTemplate") = true ∧
   ∃ cause, e = ErrorObj "Error"
                  ("Handlebars template failed: " +:+ thrown_to_string cause)) ∨
  (JS.truthy (JS.get broken_template "alasqlTransform") = true ∧
   ∃ cause, e = ErrorObj "Error"
                  ("AlaSQL transform failed: " +:+ thrown_to_string cause)).
Proof.
  apply (fetchData_errors offline Tools.fetcherConfig 0 0 "c1" broken_template
           Fetcher.empty _
           (Fetcher.mkState ∅ [] [JObj [("type", JStr "static"); ("data", JNum 1)]])).
  reflexivity.
Defined.
